(** * libhidpp, HID raw device layer (Windows back end)

    A shallow embedding of [src/libhidpp/hid/ReportDescriptor.h] and
    [src/libhidpp/hid/RawDevice_windows.cpp].

    - Machine integers are [Z] with the wrap-around written out.
    - C++ exceptions are values of type [exn]; a function that may throw
      returns [exn + A].
    - The Win32 calls made by [readReport], [writeReport] and the copy
      constructor are fields of an interface record [Win32] over an abstract
      [World]; every call is recorded, with what it returned, in a log.
    - The answers the operating system gives while a device is constructed
      are tabulated per enumerated interface in a [Probe]. *)

From Stdlib Require Import ZArith Lia Bool List Ascii String Sorting.Sorted Permutation.
From stdpp Require Import base option list gmap.

Local Open Scope Z_scope.

(** ** Machine integers *)

Abbreviation HANDLE := Z (only parsing).
Abbreviation DWORD := Z (only parsing).
Abbreviation byte := Z (only parsing).
Abbreviation char16_t := Z (only parsing).

Definition INVALID_HANDLE_VALUE : HANDLE := -1.

Definition to_uint8 (x : Z) : Z := x mod 2^8.
Definition to_uint16 (x : Z) : Z := x mod 2^16.
Definition to_uint32 (x : Z) : Z := x mod 2^32.

(** Conversion of a 32-bit unsigned value to [int] (two's complement). *)
Definition to_int (x : Z) : Z :=
  let u := to_uint32 x in if u <? 2^31 then u else u - 2^32.

(** ** ReportDescriptor.h *)

Module ReportID.
Inductive Type_ := Input | Output | Feature.

Definition Type_value (t : Type_) : Z :=
  match t with Input => 8 | Output => 9 | Feature => 11 end.

Record t := mk { type : Type_; id : Z }.

(** [std::make_tuple (type, id) < std::make_tuple (other.type, other.id)] *)
Definition ltb (a b : t) : bool :=
  (Type_value (type a) <? Type_value (type b))
  || ((Type_value (type a) =? Type_value (type b)) && (id a <? id b)).

(** [operator==] *)
Definition eqb (a b : t) : bool :=
  (Type_value (type a) =? Type_value (type b)) && (id a =? id b).
End ReportID.

#[export] Instance ReportID_Type_eq_dec : EqDecision ReportID.Type_.
Proof. solve_decision. Defined.

#[export] Instance ReportID_eq_dec : EqDecision ReportID.t.
Proof. solve_decision. Defined.

Module Flags.
Definition Data_Constant : Z := Z.shiftl 1 0.
Definition Array_Variable : Z := Z.shiftl 1 1.
Definition Absolute_Relative : Z := Z.shiftl 1 2.
Definition NoWrap_Wrap : Z := Z.shiftl 1 3.
Definition Linear_NonLinear : Z := Z.shiftl 1 4.
Definition PreferredState_NoPreferred : Z := Z.shiftl 1 5.
Definition NoNullPosition_NullState : Z := Z.shiftl 1 6.
Definition NonVolatile_Volatile : Z := Z.shiftl 1 7.
Definition BitField_BufferedBytes : Z := Z.shiftl 1 8.

(** Conversion of an [unsigned int] to [bool]. *)
Definition to_bool (x : Z) : bool := negb (x =? 0).

Definition isData (bits : Z) : bool := negb (to_bool (Z.land bits Data_Constant)).
Definition isConstant (bits : Z) : bool := to_bool (Z.land bits Data_Constant).
Definition isArray (bits : Z) : bool := negb (to_bool (Z.land bits Array_Variable)).
Definition isVariable (bits : Z) : bool := to_bool (Z.land bits Array_Variable).
End Flags.

(** [std::variant<std::vector<uint32_t>, std::pair<uint32_t, uint32_t>>] *)
Inductive Usages :=
| UsageList (usages : list Z)
| UsageRange (usage_min usage_max : Z).

Record ReportField := { flags : Z; usages : Usages }.

(** [std::map<ReportID, std::vector<ReportField>>]: the entries in key order. *)
Definition ReportMap := list (ReportID.t * list ReportField).

Module ReportCollection.
Inductive Type_ :=
| Physical | Application | Logical | Report | NamedArray | UsageSwitch | UsageModifier.

Record t := mk { type : Type_; usage : Z; reports : ReportMap }.
End ReportCollection.

Record ReportDescriptor := { collections : list ReportCollection.t }.

(** *** [std::map] operations on [ReportMap]

    The map is searched with the key order only, as [std::map] does: two keys
    are equivalent when neither is less than the other. *)

Fixpoint find (k : ReportID.t) (m : ReportMap) : option (list ReportField) :=
  match m with
  | [] => None
  | (k0, v0) :: m' =>
      if ReportID.ltb k k0 then None
      else if ReportID.ltb k0 k then find k m'
      else Some v0
  end.

(** [m.emplace (k, v)]: inserts only when no equivalent key is present. *)
Fixpoint emplace (k : ReportID.t) (v : list ReportField) (m : ReportMap) : ReportMap :=
  match m with
  | [] => [(k, v)]
  | (k0, v0) :: m' =>
      if ReportID.ltb k k0 then (k, v) :: m
      else if ReportID.ltb k0 k then (k0, v0) :: emplace k v m'
      else m
  end.

(** [it->second.emplace_back ()] followed by the assignments to the new
    element, for the iterator [it] at key [k]. *)
Fixpoint push_back_at (k : ReportID.t) (f : ReportField) (m : ReportMap) : ReportMap :=
  match m with
  | [] => []
  | (k0, v0) :: m' =>
      if ReportID.ltb k k0 then m
      else if ReportID.ltb k0 k then (k0, v0) :: push_back_at k f m'
      else (k0, v0 ++ [f]) :: m'
  end.

(** The bucket of a key: the vector stored for it, empty when there is
    none. *)
Definition bucket (k : ReportID.t) (m : ReportMap) : list ReportField :=
  default [] (find k m).

(** Number of fields over all the buckets of a map. *)
Definition field_count (m : ReportMap) : nat :=
  list_sum (map (fun kv => length (snd kv)) m).

(** The fields of all the buckets, one bucket after the other in the order in
    which the map is iterated. *)
Definition concatenated (m : ReportMap) : list ReportField := flat_map snd m.

(** The keys of a map are strictly ascending. *)
Definition keys_sorted (m : ReportMap) : Prop :=
  StronglySorted (fun a b => ReportID.ltb a b = true) (map fst m).

(** ** Capability tables ([hidpi.h])

    [Range] and [NotRange] are the two members of a union: [Range.UsageMin]
    and [NotRange.Usage] name the same storage, and so do [Range.DataIndexMin]
    and [NotRange.DataIndex]. *)

Record HIDP_BUTTON_CAPS := {
  b_UsagePage : Z;
  b_ReportID : Z;
  b_BitField : Z;
  b_IsRange : bool;
  b_UsageMin_Usage : Z;
  b_UsageMax_Reserved1 : Z;
  b_DataIndexMin_DataIndex : Z
}.

Record HIDP_VALUE_CAPS := {
  v_UsagePage : Z;
  v_ReportID : Z;
  v_BitField : Z;
  v_IsRange : bool;
  v_BitSize : Z;
  v_ReportCount : Z;
  v_LogicalMin : Z;
  v_LogicalMax : Z;
  v_UsageMin_Usage : Z;
  v_UsageMax_Reserved1 : Z;
  v_DataIndexMin_DataIndex : Z
}.

(** What the generic lambda [add_field] reads from its argument. *)
Class Cap (C : Type) := {
  UsagePage : C -> Z;
  ReportID_ : C -> Z;
  BitField : C -> Z;
  IsRange : C -> bool;
  Range_UsageMin : C -> Z;
  Range_UsageMax : C -> Z;
  NotRange_Usage : C -> Z;
  NotRange_DataIndex : C -> Z
}.

#[export] Instance button_cap : Cap HIDP_BUTTON_CAPS := {|
  UsagePage := b_UsagePage;
  ReportID_ := b_ReportID;
  BitField := b_BitField;
  IsRange := b_IsRange;
  Range_UsageMin := b_UsageMin_Usage;
  Range_UsageMax := b_UsageMax_Reserved1;
  NotRange_Usage := b_UsageMin_Usage;
  NotRange_DataIndex := b_DataIndexMin_DataIndex
|}.

#[export] Instance value_cap : Cap HIDP_VALUE_CAPS := {|
  UsagePage := v_UsagePage;
  ReportID_ := v_ReportID;
  BitField := v_BitField;
  IsRange := v_IsRange;
  Range_UsageMin := v_UsageMin_Usage;
  Range_UsageMax := v_UsageMax_Reserved1;
  NotRange_Usage := v_UsageMin_Usage;
  NotRange_DataIndex := v_DataIndexMin_DataIndex
|}.

(** A capability of either table, for the order in which [add_field] is
    called. *)
Definition AnyCap := (HIDP_BUTTON_CAPS + HIDP_VALUE_CAPS)%type.

Definition any_proj (p : forall C, Cap C -> C -> Z) (c : AnyCap) : Z :=
  match c with inl b => p _ button_cap b | inr v => p _ value_cap v end.

#[export] Instance any_cap : Cap AnyCap := {|
  UsagePage := any_proj (@UsagePage);
  ReportID_ := any_proj (@ReportID_);
  BitField := any_proj (@BitField);
  IsRange c := match c with inl b => IsRange b | inr v => IsRange v end;
  Range_UsageMin := any_proj (@Range_UsageMin);
  Range_UsageMax := any_proj (@Range_UsageMax);
  NotRange_Usage := any_proj (@NotRange_Usage);
  NotRange_DataIndex := any_proj (@NotRange_DataIndex)
|}.

(** ** The descriptor builder of [RawDevice::RawDevice (const std::string &)] *)

(** [(uint32_t (page) << 16) | usage] *)
Definition usage_code (page usage : Z) : Z :=
  Z.lor (to_uint32 (Z.shiftl (to_uint32 page) 16)) usage.

Section AddField.
Context {C : Type} `{Cap C}.

(** The key [ReportID{report_type, cap.ReportID}]. *)
Definition field_key (report_type : ReportID.Type_) (cap : C) : ReportID.t :=
  ReportID.mk report_type (ReportID_ cap).

(** The field [f] that [add_field] fills in. *)
Definition field_of (cap : C) : ReportField :=
  {| flags := BitField cap;
     usages :=
       if IsRange cap
       then UsageRange (usage_code (UsagePage cap) (Range_UsageMin cap))
                       (usage_code (UsagePage cap) (Range_UsageMax cap))
       else UsageList [usage_code (UsagePage cap) (NotRange_Usage cap)] |}.

(** The lambda [add_field]. *)
Definition add_field (report_type : ReportID.Type_) (cap : C) (m : ReportMap) : ReportMap :=
  push_back_at (field_key report_type cap) (field_of cap)
               (emplace (field_key report_type cap) [] m).
End AddField.

(** "Add fields ordered by DataIndex": the three [while] loops. *)
Fixpoint add_fields_by_index (report_type : ReportID.Type_)
    (button_caps : list HIDP_BUTTON_CAPS) (value_caps : list HIDP_VALUE_CAPS)
    (m : ReportMap) {struct button_caps} : ReportMap :=
  match button_caps with
  | [] => fold_left (fun m v => add_field report_type v m) value_caps m
  | b :: button_caps' =>
      (fix values (value_caps : list HIDP_VALUE_CAPS) (m : ReportMap) {struct value_caps} :=
         match value_caps with
         | [] => fold_left (fun m b => add_field report_type b m) (b :: button_caps') m
         | v :: value_caps' =>
             if NotRange_DataIndex b <? NotRange_DataIndex v
             then add_fields_by_index report_type button_caps' value_caps
                    (add_field report_type b m)
             else values value_caps' (add_field report_type v m)
         end) value_caps m
  end.

(** The sequence of capabilities in the order the loops pass them to
    [add_field]. *)
Fixpoint visit_order (button_caps : list HIDP_BUTTON_CAPS)
    (value_caps : list HIDP_VALUE_CAPS) {struct button_caps} : list AnyCap :=
  match button_caps with
  | [] => map inr value_caps
  | b :: button_caps' =>
      (fix values (value_caps : list HIDP_VALUE_CAPS) {struct value_caps} :=
         match value_caps with
         | [] => map inl (b :: button_caps')
         | v :: value_caps' =>
             if NotRange_DataIndex b <? NotRange_DataIndex v
             then inl b :: visit_order button_caps' value_caps
             else inr v :: values value_caps'
         end) value_caps
  end.

(** Ascending order of data index, on either table or on both. *)
Definition by_index {C : Type} `{Cap C} (a b : C) : Prop :=
  NotRange_DataIndex a <= NotRange_DataIndex b.

(** The button capabilities, and the value capabilities, of a sequence. *)
Definition buttons_of (l : list AnyCap) : list HIDP_BUTTON_CAPS :=
  omap (fun c => match c with inl b => Some b | inr _ => None end) l.
Definition values_of (l : list AnyCap) : list HIDP_VALUE_CAPS :=
  omap (fun c => match c with inl _ => None | inr v => Some v end) l.

(** ** RawDevice_windows.cpp: data *)

(** [std::system_error (err, windows_category (), what)],
    [std::runtime_error (what)] and the [std::range_error] of a string
    conversion, whose message is the library's; and the two ways a call ends
    without returning or throwing. *)
Inductive exn :=
| system_error (code : DWORD) (what : string)
| runtime_error (what : string)
| range_error
| assert_failed (what : string)       (* a failed [assert]: the program aborts *)
| undefined_behaviour (what : string) (* an access the language leaves undefined *).

#[export] Instance exn_ret : MRet (sum exn) := fun _ x => inr x.
#[export] Instance exn_bind : MBind (sum exn) := fun _ _ f m =>
  match m with inl e => inl e | inr x => f x end.

Record HIDP_CAPS := {
  caps_Usage : Z;
  caps_UsagePage : Z;
  InputReportByteLength : Z;
  OutputReportByteLength : Z;
  FeatureReportByteLength : Z;
  NumberInputButtonCaps : Z;
  NumberInputValueCaps : Z;
  NumberOutputButtonCaps : Z;
  NumberOutputValueCaps : Z;
  NumberFeatureButtonCaps : Z;
  NumberFeatureValueCaps : Z
}.

(** A value-initialized [HIDP_CAPS]. *)
Definition zero_caps : HIDP_CAPS := Build_HIDP_CAPS 0 0 0 0 0 0 0 0 0 0 0.

(** [PrivateImpl::Device] *)
Record Device := { file : HANDLE; event : HANDLE; caps : HIDP_CAPS }.

(** A [RawDevice] with the members of its [PrivateImpl]. *)
Record RawDevice := {
  devices : list Device;
  reports : gmap Z HANDLE;
  interrupted_event : HANDLE;
  vendor_id : Z;
  product_id : Z;
  name : string;
  report_desc : ReportDescriptor
}.

(** ** RawDevice::RawDevice (const std::string &path) *)

(** What the operating system answers for one interface returned by
    [enumerator.get (i)].  Each call is made at most once per interface, and
    the processing of an interface ends at its first failed call, so one
    [GetLastError] value per interface is enough.  A string call answers with
    what it wrote to [buffer]. *)
Record Probe := {
  parentInst : bool * Z;
  devicePath : string;
  CreateFile : HANDLE;
  CreateEvent : HANDLE;
  HidD_GetAttributes : option (Z * Z);
  HidD_GetManufacturerString : option (list char16_t);
  HidD_GetProductString : option (list char16_t);
  HidD_GetPreparsedData : bool;
  HidP_GetCaps : option HIDP_CAPS;
  HidP_GetButtonCaps : ReportID.Type_ -> bool * list HIDP_BUTTON_CAPS;
  HidP_GetValueCaps : ReportID.Type_ -> bool * list HIDP_VALUE_CAPS;
  GetLastError : DWORD
}.

Definition zero_button_caps : HIDP_BUTTON_CAPS :=
  Build_HIDP_BUTTON_CAPS 0 0 0 false 0 0 0.
Definition zero_value_caps : HIDP_VALUE_CAPS :=
  Build_HIDP_VALUE_CAPS 0 0 0 false 0 0 0 0 0 0 0.

(** [std::vector<T> v (count)] after the system has written [written] into
    [v.data ()]. *)
Definition vector_of {T} (zero : T) (count : Z) (written : list T) : list T :=
  firstn (Z.to_nat count) (written ++ repeat zero (Z.to_nat count)).

(** The body of the loop over the three report types. *)
Definition add_report_type (p : Probe) (m : ReportMap)
    (entry : ReportID.Type_ * Z * Z) : exn + ReportMap :=
  let '(report_type, button_count, value_count) := entry in
  let button_caps := vector_of zero_button_caps button_count (snd (HidP_GetButtonCaps p report_type)) in
  let value_caps := vector_of zero_value_caps value_count (snd (HidP_GetValueCaps p report_type)) in
  let len := to_uint16 (Z.of_nat (length button_caps)) in
  if (0 <? len) && negb (fst (HidP_GetButtonCaps p report_type))
  then inl (runtime_error "HidP_GetButtonCaps failed")
  else
    let len := to_uint16 (Z.of_nat (length value_caps)) in
    if (0 <? len) && negb (fst (HidP_GetValueCaps p report_type))
    then inl (runtime_error "HidP_GetValueCaps failed")
    else inr (add_fields_by_index report_type button_caps value_caps m).

Definition report_types (c : HIDP_CAPS) : list (ReportID.Type_ * Z * Z) :=
  [ (ReportID.Input, NumberInputButtonCaps c, NumberInputValueCaps c);
    (ReportID.Output, NumberOutputButtonCaps c, NumberOutputValueCaps c);
    (ReportID.Feature, NumberFeatureButtonCaps c, NumberFeatureValueCaps c) ].

Fixpoint add_report_types (p : Probe) (entries : list (ReportID.Type_ * Z * Z))
    (m : ReportMap) : exn + ReportMap :=
  match entries with
  | [] => inr m
  | entry :: entries' =>
      m' ← add_report_type p m entry;
      add_report_types p entries' m'
  end.

(** [for (const auto &[id, fields]: collection.reports)]: the router gets
    the numeric id alone as its key, as a [uint8_t]. *)
Fixpoint route_reports (hdev : HANDLE) (ids : list ReportID.t)
    (r : gmap Z HANDLE) : exn + gmap Z HANDLE :=
  match ids with
  | [] => inr r
  | id :: ids' =>
      match r !! to_uint8 (ReportID.id id) with
      | None => route_reports hdev ids' (<[to_uint8 (ReportID.id id) := hdev]> r)
      | Some h =>
          if negb (h =? hdev)
          then inl (runtime_error "Same Report ID on different handle.")
          else route_reports hdev ids' r
      end
  end.

(** The local [first] and the members written by the loop. *)
Record Building := { first : bool; built : RawDevice }.

(** A [char16_t] buffer read as a null-terminated string; what the system
    wrote is taken to end with the terminator. *)
Fixpoint c_str (buffer : list char16_t) : list char16_t :=
  match buffer with
  | [] => []
  | c :: buffer' => if c =? 0 then [] else c :: c_str buffer'
  end.

(** The code units D800 to DFFF, which are no characters of UCS-2. *)
Definition is_surrogate (c : char16_t) : bool := (0xD800 <=? c) && (c <=? 0xDFFF).

(** The UTF-8 bytes of a character below 10000 (hexadecimal). *)
Definition utf8_bytes (c : char16_t) : list byte :=
  if c <? 0x80 then [c]
  else if c <? 0x800 then [Z.lor 0xC0 (Z.shiftr c 6); Z.lor 0x80 (Z.land c 0x3F)]
  else [Z.lor 0xE0 (Z.shiftr c 12);
        Z.lor 0x80 (Z.land (Z.shiftr c 6) 0x3F);
        Z.lor 0x80 (Z.land c 0x3F)].

(** A [std::string] of the given bytes. *)
Definition string_of_bytes (bytes : list byte) : string :=
  string_of_list_ascii (map (fun x => ascii_of_N (Z.to_N x)) bytes).

(** [u16conv.to_bytes (buffer)] of
    [std::wstring_convert<std::codecvt_utf8<char16_t>, char16_t>]: the string
    is converted from UCS-2 to UTF-8, and a code unit that is no character
    makes [to_bytes] throw [std::range_error]. *)
Definition u16conv_to_bytes (buffer : list char16_t) : exn + string :=
  if existsb is_surrogate (c_str buffer)
  then inl range_error
  else inr (string_of_bytes (flat_map utf8_bytes (c_str buffer))).

(** [if (first) { ... }] *)
Definition read_attributes (p : Probe) (b : Building) : exn + Building :=
  if first b then
    match HidD_GetAttributes p with
    | None => inl (system_error (GetLastError p) "HidD_GetAttributes")
    | Some (vendor, product) =>
        match HidD_GetManufacturerString p with
        | None => inl (system_error (GetLastError p) "HidD_GetManufacturerString")
        | Some buffer =>
            manufacturer ← u16conv_to_bytes buffer;
            match HidD_GetProductString p with
            | None => inl (system_error (GetLastError p) "HidD_GetProductString")
            | Some buffer =>
                product_string ← u16conv_to_bytes buffer;
                inr {| first := false;
                       built := {| devices := devices (built b);
                                   reports := reports (built b);
                                   interrupted_event := interrupted_event (built b);
                                   vendor_id := vendor;
                                   product_id := product;
                                   name := manufacturer ++ " " ++ product_string;
                                   report_desc := report_desc (built b) |} |}
            end
        end
    end
  else inr b.

(** An interface is selected when [parentInst] succeeds and names the parent
    that was asked for. *)
Definition selected (parent_inst : Z) (p : Probe) : bool :=
  fst (parentInst p) && (snd (parentInst p) =? parent_inst).

(** One iteration of [while (auto dev = enumerator.get (i++))].  The message
    written to [Log::debug] when the open fails is left out. *)
Definition open_interface (parent_inst : Z) (p : Probe) (b : Building) : exn + Building :=
  if negb (fst (parentInst p)) || negb (snd (parentInst p) =? parent_inst)
  then inr b
  else
    let hdev := CreateFile p in
    if hdev =? INVALID_HANDLE_VALUE
    then inr b
    else
      let event := CreateEvent p in
      if event =? INVALID_HANDLE_VALUE
      then inl (system_error (GetLastError p) "CreateEvent")
      else
        b ← read_attributes p b;
        if negb (HidD_GetPreparsedData p)
        then inl (system_error (GetLastError p) "HidD_GetPreparsedData")
        else
          match HidP_GetCaps p with
          | None => inl (runtime_error "HidP_GetCaps failed")
          | Some c =>
              let collection_usage := Z.lor (to_uint32 (Z.shiftl (to_uint32 (caps_UsagePage c)) 16)) (caps_Usage c) in
              collection_reports ← add_report_types p (report_types c) [];
              r ← route_reports hdev (map fst collection_reports) (reports (built b));
              inr {| first := first b;
                     built := {| devices := devices (built b) ++ [ {| file := hdev; event := event; caps := c |} ];
                                 reports := r;
                                 interrupted_event := interrupted_event (built b);
                                 vendor_id := vendor_id (built b);
                                 product_id := product_id (built b);
                                 name := name (built b);
                                 report_desc :=
                                   {| collections :=
                                        collections (report_desc (built b))
                                        ++ [ ReportCollection.mk ReportCollection.Physical
                                               collection_usage collection_reports ] |} |} |}
          end.

Fixpoint open_interfaces (parent_inst : Z) (probes : list Probe) (b : Building) : exn + Building :=
  match probes with
  | [] => inr b
  | p :: probes' =>
      b' ← open_interface parent_inst p b;
      open_interfaces parent_inst probes' b'
  end.

(** A default-constructed [RawDevice]; the identifiers are not given a value
    before the first interface is opened, and are taken as 0 here. *)
Definition empty_device : RawDevice :=
  {| devices := []; reports := ∅; interrupted_event := INVALID_HANDLE_VALUE;
     vendor_id := 0; product_id := 0; name := EmptyString; report_desc := {| collections := [] |} |}.

(** The constructor: [parent_inst] is the instance that [path] resolves to,
    [probes] the enumerated interfaces, and [interrupt] with [interrupt_error]
    the answer to the last [CreateEvent]. *)
Definition RawDevice_open (parent_inst : Z) (probes : list Probe)
    (interrupt : HANDLE) (interrupt_error : DWORD) : exn + RawDevice :=
  b ← open_interfaces parent_inst probes {| first := true; built := empty_device |};
  if interrupt =? INVALID_HANDLE_VALUE
  then inl (system_error interrupt_error "CreateEvent")
  else inr {| devices := devices (built b);
              reports := reports (built b);
              interrupted_event := interrupt;
              vendor_id := vendor_id (built b);
              product_id := product_id (built b);
              name := name (built b);
              report_desc := report_desc (built b) |}.

(** The error of a report id met on two handles. *)
Definition same_report_id : exn := runtime_error "Same Report ID on different handle.".

(** Each interface record is routed to by every report id of its own
    collection. *)
Definition routed (r : gmap Z HANDLE) (d : Device) (c : ReportCollection.t) : Prop :=
  forall k, k ∈ map fst (ReportCollection.reports c) ->
            r !! to_uint8 (ReportID.id k) = Some (file d).

Definition well_routed (b : Building) : Prop :=
  Forall2 (routed (reports (built b)))
          (devices (built b)) (collections (report_desc (built b))).

(** ** The Win32 calls of the I/O paths *)

Definition ERROR_IO_PENDING : DWORD := 997.
Definition WAIT_OBJECT_0 : DWORD := 0.
Definition WAIT_TIMEOUT : DWORD := 258.
Definition WAIT_FAILED : DWORD := 0xFFFFFFFF.
Definition INFINITE : DWORD := 0xFFFFFFFF.

(** A call that was made, with what it returned and the value [GetLastError]
    would give right after it.  An [OVERLAPPED] is identified by the file it
    was used on and its [hEvent]. *)
Inductive call :=
| ReadFile_call (file : HANDLE) (size : DWORD) (hEvent : HANDLE)
    (ok : bool) (read : DWORD) (err : DWORD)
| WriteFile_call (file : HANDLE) (data : list byte) (size : DWORD) (hEvent : HANDLE)
    (ok : bool) (written : DWORD) (err : DWORD)
| GetOverlappedResult_call (file hEvent : HANDLE) (wait : bool)
    (ok : bool) (transferred : DWORD) (err : DWORD)
| CancelIoEx_call (file hEvent : HANDLE) (ok : bool) (err : DWORD)
| WaitForMultipleObjects_call (handles : list HANDLE) (wait_all : bool) (timeout : DWORD)
    (ret : DWORD) (err : DWORD)
| ReOpenFile_call (original : HANDLE) (ret : HANDLE) (err : DWORD)
| CreateEvent_call (manual_reset initial_state : bool) (ret : HANDLE) (err : DWORD)
| SetEvent_call (hEvent : HANDLE) (ok : bool) (err : DWORD).

Module Win32.
(** The system as the I/O paths see it.  A call that writes through a
    pointer returns what it wrote; the buffer of a read is passed in and
    returned, and the bytes of an overlapped read count as written when the
    read is reported complete. *)
Record api (World : Type) := {
  ReadFile : HANDLE -> list byte -> DWORD -> HANDLE -> World -> bool * DWORD * list byte * World;
  WriteFile : HANDLE -> list byte -> DWORD -> HANDLE -> World -> bool * DWORD * World;
  GetOverlappedResult : HANDLE -> HANDLE -> bool -> list byte -> World -> bool * DWORD * list byte * World;
  CancelIoEx : HANDLE -> HANDLE -> World -> bool * World;
  WaitForMultipleObjects : list HANDLE -> bool -> DWORD -> World -> DWORD * World;
  ReOpenFile : HANDLE -> World -> HANDLE * World;
  CreateEvent : bool -> bool -> World -> HANDLE * World;
  SetEvent : HANDLE -> World -> bool * World;
  GetLastError : World -> DWORD
}.
Arguments ReadFile {World}.
Arguments WriteFile {World}.
Arguments GetOverlappedResult {World}.
Arguments CancelIoEx {World}.
Arguments WaitForMultipleObjects {World}.
Arguments ReOpenFile {World}.
Arguments CreateEvent {World}.
Arguments SetEvent {World}.
Arguments GetLastError {World}.
End Win32.

(** [class AsyncRead] *)
Record AsyncRead := { ar_file : HANDLE; ar_hEvent : HANDLE; pending : bool }.

Definition set_pending (b : bool) (r : AsyncRead) : AsyncRead :=
  {| ar_file := ar_file r; ar_hEvent := ar_hEvent r; pending := b |}.

(** How the loop that issues the reads is left. *)
Inductive issued :=
| AllPending (handles : list HANDLE)  (* the loop ran to its end *)
| ReadNow (read : DWORD)               (* [goto report_read] *)
| IssueThrew (e : exn).

Section IO.
Context {World : Type} (os : Win32.api World).

(** [AsyncRead::AsyncRead (file, event)] *)
Definition AsyncRead_new (file event : HANDLE) : AsyncRead :=
  {| ar_file := file; ar_hEvent := event; pending := false |}.

(** [bool AsyncRead::read (buffer, size, read)]: the result, [*read], the
    object, the buffer, the calls made and the world. *)
Definition AsyncRead_read (r : AsyncRead) (buffer : list byte) (size : DWORD) (w : World)
    : (exn + bool) * DWORD * AsyncRead * list byte * list call * World :=
  let '(ok, read, buffer', w') := Win32.ReadFile os (ar_file r) buffer size (ar_hEvent r) w in
  let err := Win32.GetLastError os w' in
  let calls := [ReadFile_call (ar_file r) size (ar_hEvent r) ok read err] in
  if ok then (inr false, read, set_pending false r, buffer', calls, w')
  else if err =? ERROR_IO_PENDING
       then (inr true, read, set_pending true r, buffer, calls, w')
       else (inl (system_error err "ReadFile"), read, r, buffer, calls, w').

(** [void AsyncRead::finish (read)] *)
Definition AsyncRead_finish (r : AsyncRead) (buffer : list byte) (w : World)
    : (exn + DWORD) * AsyncRead * list byte * list call * World :=
  let r := set_pending false r in
  let '(ok, read, buffer', w') :=
    Win32.GetOverlappedResult os (ar_file r) (ar_hEvent r) false buffer w in
  let err := Win32.GetLastError os w' in
  let calls := [GetOverlappedResult_call (ar_file r) (ar_hEvent r) false ok read err] in
  if negb ok
  then (inl (system_error err "GetOverlappedResult"), r, buffer, calls, w')
  else (inr read, r, buffer', calls, w').

(** [AsyncRead::~AsyncRead ()]; a failure is written to the error log and
    nothing is thrown. *)
Definition AsyncRead_destroy (r : AsyncRead) (w : World) : list call * World :=
  if pending r then
    let '(ok, w') := Win32.CancelIoEx os (ar_file r) (ar_hEvent r) w in
    ([CancelIoEx_call (ar_file r) (ar_hEvent r) ok (Win32.GetLastError os w')], w')
  else ([], w).

(** The destructor of [std::vector<AsyncRead>]. *)
Fixpoint destroy_reads (reads : list AsyncRead) (w : World) : list call * World :=
  match reads with
  | [] => ([], w)
  | r :: reads' =>
      let '(calls, w') := AsyncRead_destroy r w in
      let '(calls', w'') := destroy_reads reads' w' in
      (calls ++ calls', w'')
  end.

(** [for (auto &dev: _p->devices) { ... }] in [readReport]. *)
Fixpoint issue_reads (devs : list Device) (report : list byte)
    (reads : list AsyncRead) (handles : list HANDLE) (w : World)
    : issued * list byte * list AsyncRead * list call * World :=
  match devs with
  | [] => (AllPending handles, report, reads, [], w)
  | dev :: devs' =>
      if Z.of_nat (length report) <? InputReportByteLength (caps dev)
      then issue_reads devs' report reads handles w
      else
        let '(res, read, r, report', calls, w') :=
          AsyncRead_read (AsyncRead_new (file dev) (event dev)) report
                         (to_uint32 (Z.of_nat (length report))) w in
        match res with
        | inl e => (IssueThrew e, report', reads ++ [r], calls, w')
        | inr false => (ReadNow read, report', reads ++ [r], calls, w')
        | inr true =>
            let '(out, report'', reads', calls', w'') :=
              issue_reads devs' report' (reads ++ [r]) (handles ++ [event dev]) w' in
            (out, report'', reads', calls ++ calls', w'')
        end
  end.

(** The label [report_read]. *)
Definition report_read (read : DWORD) (report : list byte) : (exn + Z) * list byte :=
  (inr (to_int read), resize (Z.to_nat read) 0 report).

(** [timeout < 0 ? INFINITE : timeout] *)
Definition wait_timeout (timeout : Z) : DWORD :=
  if timeout <? 0 then INFINITE else to_uint32 timeout.

(** [readReport] from the call of [WaitForMultipleObjects] on. *)
Definition wait_reads (handles : list HANDLE) (timeout : Z) (report : list byte)
    (reads : list AsyncRead) (w : World)
    : (exn + Z) * list byte * list AsyncRead * list call * World :=
  let '(ret, w1) :=
    Win32.WaitForMultipleObjects os handles false (wait_timeout timeout) w in
  let err := Win32.GetLastError os w1 in
  let calls := [WaitForMultipleObjects_call handles false (wait_timeout timeout) ret err] in
  if (ret =? WAIT_OBJECT_0) || (ret =? WAIT_TIMEOUT)
  then (inr 0, report, reads, calls, w1)
  else if ret =? WAIT_FAILED
  then (inl (system_error err "WaitForMultipleObject"), report, reads, calls, w1)
  else
    let i := to_uint32 (ret - WAIT_OBJECT_0 - 1) in
    if (i <? 0) || (Z.of_nat (length reads) <=? i)
    then (inl (runtime_error "Unexpected return value from WaitForMultipleObject"),
          report, reads, calls, w1)
    else
      match reads !! Z.to_nat i with
      | None => (inl (undefined_behaviour "reads[i]"), report, reads, calls, w1)
      | Some r =>
          let '(res, r', report', calls', w2) := AsyncRead_finish r report w1 in
          let reads' := <[Z.to_nat i := r']> reads in
          match res with
          | inl e => (inl e, report', reads', calls ++ calls', w2)
          | inr read =>
              (fst (report_read read report'), snd (report_read read report'),
               reads', calls ++ calls', w2)
          end
      end.

(** [int RawDevice::readReport (std::vector<uint8_t> &report, int timeout)]:
    the result, the buffer, the calls made in order, and the world. *)
Definition readReport (dev : RawDevice) (report : list byte) (timeout : Z) (w : World)
    : (exn + Z) * list byte * list call * World :=
  if interrupted_event dev =? INVALID_HANDLE_VALUE
  then (inl (assert_failed "_p->interrupted_event != INVALID_HANDLE_VALUE"), report, [], w)
  else
    let '(out, report1, reads, calls1, w1) :=
      issue_reads (devices dev) report [] [interrupted_event dev] w in
    let '(res, report2, reads2, calls2, w2) :=
      match out with
      | IssueThrew e => (inl e, report1, reads, [], w1)
      | ReadNow read =>
          (fst (report_read read report1), snd (report_read read report1), reads, [], w1)
      | AllPending handles => wait_reads handles timeout report1 reads w1
      end in
    let '(calls3, w3) := destroy_reads reads2 w2 in
    (res, report2, calls1 ++ calls2 ++ calls3, w3).

(** [int RawDevice::writeReport (const std::vector<uint8_t> &report)] *)
Definition writeReport (dev : RawDevice) (report : list byte) (w : World)
    : (exn + Z) * list call * World :=
  match report with
  | [] => (inl (undefined_behaviour "report[0]"), [], w)
  | id :: _ =>
      match reports dev !! id with
      | None => (inl (runtime_error "Report ID not found."), [], w)
      | Some h =>
          let size := to_uint32 (Z.of_nat (length report)) in
          let '(ok, written, w1) := Win32.WriteFile os h report size 0 w in
          let err := Win32.GetLastError os w1 in
          let calls := [WriteFile_call h report size 0 ok written err] in
          if ok then (inr (to_int written), calls, w1)
          else if err =? ERROR_IO_PENDING
          then
            let '(ok', written', _, w2) :=
              Win32.GetOverlappedResult os h 0 true [] w1 in
            let err' := Win32.GetLastError os w2 in
            let calls' := calls ++ [GetOverlappedResult_call h 0 true ok' written' err'] in
            if negb ok'
            then (inl (system_error err' "GetOverlappedResult"), calls', w2)
            else (inr (to_int written'), calls', w2)
          else (inl (system_error err "WriteFile"), calls, w1)
      end
  end.

(** [void RawDevice::interruptRead ()] *)
Definition interruptRead (dev : RawDevice) (w : World) : (exn + unit) * list call * World :=
  let '(ok, w1) := Win32.SetEvent os (interrupted_event dev) w in
  let err := Win32.GetLastError os w1 in
  if negb ok
  then (inl (system_error err "SetEvent"), [SetEvent_call (interrupted_event dev) ok err], w1)
  else (inr tt, [SetEvent_call (interrupted_event dev) ok err], w1).

(** The loop of the copy constructor: each interface is opened again; the
    new record is [{hdev, event}], its [caps] value-initialized. *)
Fixpoint reopen_devices (others : list Device) (devs : list Device) (w : World)
    : (exn + list Device) * list call * World :=
  match others with
  | [] => (inr devs, [], w)
  | dev :: others' =>
      let '(hdev, w1) := Win32.ReOpenFile os (file dev) w in
      let c1 := ReOpenFile_call (file dev) hdev (Win32.GetLastError os w1) in
      if hdev =? INVALID_HANDLE_VALUE
      then (inl (system_error (Win32.GetLastError os w1) "ReOpenFile"), [c1], w1)
      else
        let '(ev, w2) := Win32.CreateEvent os true true w1 in
        let c2 := CreateEvent_call true true ev (Win32.GetLastError os w2) in
        if ev =? INVALID_HANDLE_VALUE
        then (inl (system_error (Win32.GetLastError os w2) "CreateEvent"), [c1; c2], w2)
        else
          let '(res, calls, w3) :=
            reopen_devices others'
              (devs ++ [ {| file := hdev; event := ev; caps := zero_caps |} ]) w2 in
          (res, c1 :: c2 :: calls, w3)
  end.

(** [RawDevice::RawDevice (const RawDevice &other)] *)
Definition RawDevice_copy (other : RawDevice) (w : World)
    : (exn + RawDevice) * list call * World :=
  let '(res, calls, w1) := reopen_devices (devices other) [] w in
  match res with
  | inl e => (inl e, calls, w1)
  | inr devs =>
      let '(ev, w2) := Win32.CreateEvent os false false w1 in
      let c := CreateEvent_call false false ev (Win32.GetLastError os w2) in
      if ev =? INVALID_HANDLE_VALUE
      then (inl (system_error (Win32.GetLastError os w2) "CreateEvent"), calls ++ [c], w2)
      else (inr {| devices := devs;
                   reports := ∅;
                   interrupted_event := ev;
                   vendor_id := vendor_id other;
                   product_id := product_id other;
                   name := name other;
                   report_desc := report_desc other |}, calls ++ [c], w2)
  end.
End IO.

(** The error of a wait result that names no issued read. *)
Definition unexpected_wait : exn :=
  runtime_error "Unexpected return value from WaitForMultipleObject".

(** The error of a write to a report id that no interface declares. *)
Definition report_id_not_found : exn := runtime_error "Report ID not found.".

(** ** Reading the log of calls *)

(** The [OVERLAPPED] a [ReadFile] call was given. *)
Definition read_target (c : call) : option (HANDLE * HANDLE) :=
  match c with ReadFile_call f _ e _ _ _ => Some (f, e) | _ => None end.

(** The read did not complete at once: [ReadFile] returned [FALSE] with
    [ERROR_IO_PENDING]. *)
Definition read_pending (c : call) : bool :=
  match c with
  | ReadFile_call _ _ _ ok _ err => negb ok && (err =? ERROR_IO_PENDING)
  | _ => false
  end.

(** The [AsyncRead] object as [AsyncRead::read] leaves it after the call. *)
Definition read_of (c : call) : option AsyncRead :=
  match c with
  | ReadFile_call f _ e ok _ err =>
      Some {| ar_file := f; ar_hEvent := e; pending := negb ok && (err =? ERROR_IO_PENDING) |}
  | _ => None
  end.

Definition is_ReadFile (size : DWORD) (c : call) : Prop :=
  match c with ReadFile_call _ sz _ _ _ _ => sz = size | _ => False end.

Definition is_CancelIoEx (c : call) : Prop :=
  match c with CancelIoEx_call _ _ _ _ => True | _ => False end.

Definition cancel_target (c : call) : option (HANDLE * HANDLE) :=
  match c with CancelIoEx_call f e _ _ => Some (f, e) | _ => None end.

Definition is_Wait (c : call) : Prop :=
  match c with WaitForMultipleObjects_call _ _ _ _ _ => True | _ => False end.

Definition is_GetOverlappedResult (c : call) : Prop :=
  match c with GetOverlappedResult_call _ _ _ _ _ _ => True | _ => False end.

(** A call that tells its caller that the overlapped operation on [(f, e)]
    is over, completed or cancelled: a query of its result, or a wait on a
    set that holds its event. *)
Definition observes (f e : HANDLE) (c : call) : Prop :=
  match c with
  | GetOverlappedResult_call f' e' _ _ _ _ => f' = f /\ e' = e
  | WaitForMultipleObjects_call handles _ _ _ _ => e ∈ handles
  | _ => False
  end.

(** Every cancellation requested in a log is followed, in that log, by a
    call that observes the cancelled operation. *)
Definition cancellations_observed (calls : list call) : Prop :=
  forall i f e ok err,
    calls !! i = Some (CancelIoEx_call f e ok err) ->
    exists j c, (i < j)%nat /\ calls !! j = Some c /\ observes f e c.

(** The interface's reports fit the caller's buffer. *)
Definition fits (report : list byte) (d : Device) : Prop :=
  InputReportByteLength (caps d) <= Z.of_nat (length report).

#[export] Instance fits_dec report d : Decision (fits report d).
Proof. unfold fits. apply _. Defined.

Definition dev_target (d : Device) : HANDLE * HANDLE := (file d, event d).
Definition ar_target (r : AsyncRead) : HANDLE * HANDLE := (ar_file r, ar_hEvent r).

(** ** A scripted system, for running the model

    The world is the calling thread's last-error value.  A read or a query
    is answered by the file it is made on. *)

Record Script := {
  on_ReadFile : HANDLE -> bool * DWORD * list byte * DWORD;
  on_WriteFile : HANDLE -> bool * DWORD * DWORD;
  on_GetOverlappedResult : HANDLE -> bool * DWORD * list byte * DWORD;
  on_CancelIoEx : HANDLE -> bool * DWORD;
  on_Wait : DWORD * DWORD;
  on_ReOpenFile : HANDLE -> HANDLE * DWORD;
  on_CreateEvent : HANDLE * DWORD
}.

Definition scripted (sc : Script) : Win32.api DWORD := {|
  Win32.ReadFile file buffer size hEvent w :=
    let '(ok, read, data, err) := on_ReadFile sc file in
    (ok, read, if ok then data else buffer, if ok then w else err);
  Win32.WriteFile file data size hEvent w :=
    let '(ok, written, err) := on_WriteFile sc file in
    (ok, written, if ok then w else err);
  Win32.GetOverlappedResult file hEvent wait buffer w :=
    let '(ok, read, data, err) := on_GetOverlappedResult sc file in
    (ok, read, if ok then data else buffer, if ok then w else err);
  Win32.CancelIoEx file hEvent w :=
    let '(ok, err) := on_CancelIoEx sc file in (ok, if ok then w else err);
  Win32.WaitForMultipleObjects handles wait_all timeout w :=
    (fst (on_Wait sc), if fst (on_Wait sc) =? WAIT_FAILED then snd (on_Wait sc) else w);
  Win32.ReOpenFile file w :=
    (fst (on_ReOpenFile sc file),
     if fst (on_ReOpenFile sc file) =? INVALID_HANDLE_VALUE
     then snd (on_ReOpenFile sc file) else w);
  Win32.CreateEvent manual_reset initial_state w :=
    (fst (on_CreateEvent sc),
     if fst (on_CreateEvent sc) =? INVALID_HANDLE_VALUE then snd (on_CreateEvent sc) else w);
  Win32.SetEvent hEvent w := (true, w);
  Win32.GetLastError w := w
|}.

Module Example.
(** The device of the specification's example: interface A (handle 100)
    declares input report 1 of length 7, interface B (handle 200) declares
    input report 2 of length 16. *)
Definition caps_of (usage_page usage_ input_len buttons values : Z) : HIDP_CAPS :=
  {| caps_Usage := usage_; caps_UsagePage := usage_page;
     InputReportByteLength := input_len; OutputReportByteLength := 0;
     FeatureReportByteLength := 0;
     NumberInputButtonCaps := buttons; NumberInputValueCaps := values;
     NumberOutputButtonCaps := 0; NumberOutputValueCaps := 0;
     NumberFeatureButtonCaps := 0; NumberFeatureValueCaps := 0 |}.

Definition button (report_id index usage_ : Z) : HIDP_BUTTON_CAPS :=
  {| b_UsagePage := 9; b_ReportID := report_id; b_BitField := 2; b_IsRange := false;
     b_UsageMin_Usage := usage_; b_UsageMax_Reserved1 := 0;
     b_DataIndexMin_DataIndex := index |}.

Definition value (report_id index usage_ : Z) : HIDP_VALUE_CAPS :=
  {| v_UsagePage := 1; v_ReportID := report_id; v_BitField := 6; v_IsRange := false;
     v_BitSize := 8; v_ReportCount := 1; v_LogicalMin := 0; v_LogicalMax := 255;
     v_UsageMin_Usage := usage_; v_UsageMax_Reserved1 := 0;
     v_DataIndexMin_DataIndex := index |}.

(** The code units of a string of ASCII characters. *)
Definition u16string (s : string) : list char16_t :=
  map (fun a => Z.of_N (N_of_ascii a)) (list_ascii_of_string s).

Definition probe (hdev hevent : HANDLE) (c : HIDP_CAPS)
    (buttons : list HIDP_BUTTON_CAPS) (values : list HIDP_VALUE_CAPS) : Probe :=
  {| parentInst := (true, 1);
     devicePath := "hid";
     CreateFile := hdev;
     CreateEvent := hevent;
     HidD_GetAttributes := Some (0x046d, 0xc52b);
     HidD_GetManufacturerString := Some (u16string "Logitech");
     HidD_GetProductString := Some (u16string "USB Receiver");
     HidD_GetPreparsedData := true;
     HidP_GetCaps := Some c;
     HidP_GetButtonCaps t :=
       match t with ReportID.Input => (true, buttons) | _ => (true, []) end;
     HidP_GetValueCaps t :=
       match t with ReportID.Input => (true, values) | _ => (true, []) end;
     GetLastError := 0 |}.

Definition probe_A : Probe :=
  probe 100 101 (caps_of 0xff00 1 7 1 1) [button 1 0 1] [value 1 1 0x30].
Definition probe_B : Probe :=
  probe 200 201 (caps_of 0xff00 2 16 0 1) [] [value 2 0 0x31].

(** An interface that cannot be opened. *)
Definition probe_locked : Probe :=
  probe INVALID_HANDLE_VALUE 0 (caps_of 1 6 9 0 0) [] [].

(** An interface that declares report 1 as well, on another handle. *)
Definition probe_clash : Probe :=
  probe 400 401 (caps_of 0xff00 4 7 0 1) [] [value 1 0 0x32].

Definition device_A : Device := {| file := 100; event := 101; caps := caps_of 0xff00 1 7 1 1 |}.
Definition device_B : Device := {| file := 200; event := 201; caps := caps_of 0xff00 2 16 0 1 |}.

(** The device that construction gives for interfaces A and B. *)
Definition device_AB : RawDevice :=
  match RawDevice_open 1 [probe_A; probe_B] 300 0 with
  | inr dev => dev
  | inl _ => empty_device
  end.

(** No data anywhere: every read is pending, and the wait answers [ret]. *)
Definition quiet (ret : DWORD) : Script :=
  {| on_ReadFile _ := (false, 0, [], ERROR_IO_PENDING);
     on_WriteFile _ := (true, 7, 0);
     on_GetOverlappedResult file :=
       if file =? 200 then (true, 16, repeat 0xAB 16, 0) else (true, 7, repeat 0xCD 7, 0);
     on_CancelIoEx _ := (true, 0);
     on_Wait := (ret, 6);
     on_ReOpenFile file := (file + 1000, 0);
     on_CreateEvent := (900, 0) |}.

(** Interface A has a report ready: its read completes at once. *)
Definition ready_A : Script :=
  {| on_ReadFile file :=
       if file =? 100 then (true, 7, repeat 0xCD 7 ++ repeat 0 9, 0)
       else (false, 0, [], ERROR_IO_PENDING);
     on_WriteFile _ := (true, 7, 0);
     on_GetOverlappedResult _ := (true, 0, [], 0);
     on_CancelIoEx _ := (true, 0);
     on_Wait := (WAIT_TIMEOUT, 0);
     on_ReOpenFile file := (file + 1000, 0);
     on_CreateEvent := (900, 0) |}.

Definition buffer16 : list byte := repeat 0 16.

(** The calls of a read that interface B completes. *)
Definition completed_calls : list call :=
  [ ReadFile_call 100 16 101 false 0 ERROR_IO_PENDING;
    ReadFile_call 200 16 201 false 0 ERROR_IO_PENDING;
    WaitForMultipleObjects_call [300; 101; 201] false INFINITE 2 ERROR_IO_PENDING;
    GetOverlappedResult_call 200 201 false true 16 ERROR_IO_PENDING;
    CancelIoEx_call 100 101 true ERROR_IO_PENDING ].

(** The calls of a read whose wait fails with error 6. *)
Definition failed_calls : list call :=
  [ ReadFile_call 100 16 101 false 0 ERROR_IO_PENDING;
    ReadFile_call 200 16 201 false 0 ERROR_IO_PENDING;
    WaitForMultipleObjects_call [300; 101; 201] false 5 WAIT_FAILED 6;
    CancelIoEx_call 100 101 true 6;
    CancelIoEx_call 200 201 true 6 ].

(** The calls of a read that times out on the quiet device. *)
Definition timed_out_calls : list call :=
  [ ReadFile_call 100 16 101 false 0 ERROR_IO_PENDING;
    ReadFile_call 200 16 201 false 0 ERROR_IO_PENDING;
    WaitForMultipleObjects_call [300; 101; 201] false INFINITE WAIT_TIMEOUT ERROR_IO_PENDING;
    CancelIoEx_call 100 101 true ERROR_IO_PENDING;
    CancelIoEx_call 200 201 true ERROR_IO_PENDING ].
End Example.

(** ** The remaining operators and special members *)

(** [ReportID::operator!=] *)
Definition ReportID_neb (a b : ReportID.t) : bool :=
  negb ((ReportID.Type_value (ReportID.type a) =? ReportID.Type_value (ReportID.type b))
        && (ReportID.id a =? ReportID.id b)).

(** [class RAII_HANDLE]: an object is its [_handle]; an operation gives the
    new state and the arguments of the [CloseHandle] calls it makes, in
    order.  The move assignment is left out: it is [std::swap] on the class
    itself. *)
Module RAII_HANDLE.
(** [RAII_HANDLE ()] *)
Definition default : HANDLE := INVALID_HANDLE_VALUE.

(** [RAII_HANDLE (HANDLE handle)] *)
Definition of_handle (handle : HANDLE) : HANDLE := handle.

(** [RAII_HANDLE (RAII_HANDLE &&other)]: the new object and [other]. *)
Definition move (other : HANDLE) : HANDLE * HANDLE := (other, INVALID_HANDLE_VALUE).

(** [~RAII_HANDLE ()] *)
Definition destroy (this : HANDLE) : list HANDLE := [this].

(** [operator= (HANDLE handle)] *)
Definition assign (this : HANDLE) (handle : HANDLE) : HANDLE * list HANDLE :=
  (handle, if negb (this =? INVALID_HANDLE_VALUE) then [this] else []).

(** [operator HANDLE ()] *)
Definition get (this : HANDLE) : HANDLE := this.

(** Successive assignments to one object. *)
Fixpoint assign_all (this : HANDLE) (handles : list HANDLE) : HANDLE * list HANDLE :=
  match handles with
  | [] => (this, [])
  | handle :: handles' =>
      let '(this1, closed1) := assign this handle in
      let '(this2, closed2) := assign_all this1 handles' in
      (this2, closed1 ++ closed2)
  end.
End RAII_HANDLE.

(** [RawDevice::RawDevice (RawDevice &&other)]: the new device and [other]
    after the move.  What a moved-from [std::string] and descriptor hold is
    not fixed by the language and is given by [moved_name] and
    [moved_desc]. *)
Definition RawDevice_move (other : RawDevice) (moved_name : string)
    (moved_desc : ReportDescriptor) : RawDevice * RawDevice :=
  ({| devices := devices other;
      reports := reports other;
      interrupted_event := interrupted_event other;
      vendor_id := vendor_id other;
      product_id := product_id other;
      name := name other;
      report_desc := report_desc other |},
   {| devices := [];
      reports := ∅;
      interrupted_event := RAII_HANDLE.default;
      vendor_id := vendor_id other;
      product_id := product_id other;
      name := moved_name;
      report_desc := moved_desc |}).

(** [RawDevice::~RawDevice ()]: the handles closed when [_p] is released.
    Members go in reverse order of declaration ([interrupted_event] before
    [devices], and in a [Device] the [event] before the [file]); the records
    of the vector are taken first to last. *)
Definition RawDevice_destroy (dev : RawDevice) : list HANDLE :=
  RAII_HANDLE.destroy (interrupted_event dev)
  ++ flat_map (fun d => RAII_HANDLE.destroy (event d) ++ RAII_HANDLE.destroy (file d))
       (devices dev).

(** ** Reading a construction *)

(** The interface is selected and its [CreateFile] gave a handle. *)
Definition opened (parent_inst : Z) (p : Probe) : Prop :=
  selected parent_inst p = true /\ CreateFile p <> INVALID_HANDLE_VALUE.

#[export] Instance opened_dec parent_inst p : Decision (opened parent_inst p).
Proof. unfold opened. apply _. Defined.

(** The errors that construction throws. *)
Definition construction_error (e : exn) : Prop :=
  (exists code what,
     e = system_error code what
     /\ (what = "CreateEvent" \/ what = "HidD_GetAttributes"
         \/ what = "HidD_GetManufacturerString" \/ what = "HidD_GetProductString"
         \/ what = "HidD_GetPreparsedData")%string)
  \/ e = range_error
  \/ e = runtime_error "HidP_GetCaps failed"
  \/ e = runtime_error "HidP_GetButtonCaps failed"
  \/ e = runtime_error "HidP_GetValueCaps failed"
  \/ e = same_report_id.

(** An interface with a manufacturer or product string that does not
    convert. *)
Definition ill_formed_string (p : Probe) : Prop :=
  exists buffer,
    (HidD_GetManufacturerString p = Some buffer \/ HidD_GetProductString p = Some buffer)
    /\ existsb is_surrogate (c_str buffer) = true.

(** The capability counts of the three report types, as vector sizes. *)
Definition capability_count (c : HIDP_CAPS) : nat :=
  (Z.to_nat (NumberInputButtonCaps c) + Z.to_nat (NumberInputValueCaps c)
   + (Z.to_nat (NumberOutputButtonCaps c) + Z.to_nat (NumberOutputValueCaps c))
   + (Z.to_nat (NumberFeatureButtonCaps c) + Z.to_nat (NumberFeatureValueCaps c)))%nat.

(** ** Reading the log of calls, continued *)

Definition is_WriteFile (c : call) : Prop :=
  match c with WriteFile_call _ _ _ _ _ _ _ => True | _ => False end.

(** The errors that [readReport] throws. *)
Definition read_error (e : exn) : Prop :=
  (exists code what,
     e = system_error code what
     /\ (what = "ReadFile" \/ what = "WaitForMultipleObject"
         \/ what = "GetOverlappedResult")%string)
  \/ e = unexpected_wait.

(** The same system with another [CancelIoEx]. *)
Definition with_CancelIoEx {World : Type} (os : Win32.api World)
    (cancel : HANDLE -> HANDLE -> World -> bool * World) : Win32.api World :=
  {| Win32.ReadFile := Win32.ReadFile os;
     Win32.WriteFile := Win32.WriteFile os;
     Win32.GetOverlappedResult := Win32.GetOverlappedResult os;
     Win32.CancelIoEx := cancel;
     Win32.WaitForMultipleObjects := Win32.WaitForMultipleObjects os;
     Win32.ReOpenFile := Win32.ReOpenFile os;
     Win32.CreateEvent := Win32.CreateEvent os;
     Win32.SetEvent := Win32.SetEvent os;
     Win32.GetLastError := Win32.GetLastError os |}.

(** The collection made for an interface: its usage code, and one field per
    capability. *)
Definition describes (c : ReportCollection.t) (d : Device) : Prop :=
  ReportCollection.type c = ReportCollection.Physical
  /\ ReportCollection.usage c = usage_code (caps_UsagePage (caps d)) (caps_Usage (caps d))
  /\ field_count (ReportCollection.reports c) = capability_count (caps d).

(** The identity of a device under construction is that of the first
    interface opened so far. *)
Definition identified_by (seen : list Probe) (b : Building) : Prop :=
  match seen with
  | [] => first b = true
  | p :: _ =>
      first b = false
      /\ exists buffer1 buffer2 manufacturer product_string,
           HidD_GetAttributes p = Some (vendor_id (built b), product_id (built b))
           /\ HidD_GetManufacturerString p = Some buffer1
           /\ HidD_GetProductString p = Some buffer2
           /\ u16conv_to_bytes buffer1 = inr manufacturer
           /\ u16conv_to_bytes buffer2 = inr product_string
           /\ name (built b) = (manufacturer ++ " " ++ product_string)%string
  end.

(** Every route of the router leads to the record of an interface whose
    collection has a report with that number. *)
Definition router_sound (dev : RawDevice) : Prop :=
  forall k h,
    reports dev !! k = Some h ->
    exists i d c key,
      devices dev !! i = Some d
      /\ collections (report_desc dev) !! i = Some c
      /\ key ∈ map fst (ReportCollection.reports c)
      /\ to_uint8 (ReportID.id key) = k
      /\ file d = h.

(** A record whose handle and event are not [INVALID_HANDLE_VALUE]. *)
Definition valid_record (d : Device) : Prop :=
  file d <> INVALID_HANDLE_VALUE /\ event d <> INVALID_HANDLE_VALUE.

(** The calls that re-open the interfaces [others] into the records [news]:
    for each interface the [ReOpenFile] of its handle, and right after it the
    creation of its event, manual-reset and initially set.  [errs] is what
    [GetLastError] would give after each of the two calls. *)
Fixpoint reopen_log (others news : list Device) (errs : list (DWORD * DWORD)) : list call :=
  match others, news, errs with
  | d :: others', d' :: news', e :: errs' =>
      ReOpenFile_call (file d) (file d') (fst e)
      :: CreateEvent_call true true (event d') (snd e)
      :: reopen_log others' news' errs'
  | _, _, _ => []
  end.

(** The two capability counts of a report type. *)
Definition table_counts (c : HIDP_CAPS) (t : ReportID.Type_) : Z * Z :=
  match t with
  | ReportID.Input => (NumberInputButtonCaps c, NumberInputValueCaps c)
  | ReportID.Output => (NumberOutputButtonCaps c, NumberOutputValueCaps c)
  | ReportID.Feature => (NumberFeatureButtonCaps c, NumberFeatureValueCaps c)
  end.

(** The capabilities of a report type of an interface, in the order in which
    the loops pass them to [add_field]. *)
Definition visited (p : Probe) (c : HIDP_CAPS) (t : ReportID.Type_) : list AnyCap :=
  visit_order
    (vector_of zero_button_caps (fst (table_counts c t)) (snd (HidP_GetButtonCaps p t)))
    (vector_of zero_value_caps (snd (table_counts c t)) (snd (HidP_GetValueCaps p t))).

(** ** More scripted runs *)

Module Scenario.
(** Interface A is pending and the read on interface B fails with error 5. *)
Definition broken_B : Script :=
  {| on_ReadFile file :=
       if file =? 200 then (false, 0, [], 5) else (false, 0, [], ERROR_IO_PENDING);
     on_WriteFile _ := (false, 0, ERROR_IO_PENDING);
     on_GetOverlappedResult _ := (true, 7, [], 0);
     on_CancelIoEx _ := (false, 1168);
     on_Wait := (WAIT_TIMEOUT, 0);
     on_ReOpenFile file := if file =? 200 then (INVALID_HANDLE_VALUE, 2) else (file + 1000, 0);
     on_CreateEvent := (900, 0) |}.

(** An interface that opens and has no capability; its tables would not
    answer. *)
Definition probe_bare : Probe :=
  {| parentInst := (true, 1);
     devicePath := "hid";
     CreateFile := 500;
     CreateEvent := 501;
     HidD_GetAttributes := Some (0x046d, 0xc52b);
     HidD_GetManufacturerString := Some (Example.u16string "Logitech");
     HidD_GetProductString := Some (Example.u16string "USB Receiver");
     HidD_GetPreparsedData := true;
     HidP_GetCaps := Some (Example.caps_of 1 6 9 0 0);
     HidP_GetButtonCaps _ := (false, []);
     HidP_GetValueCaps _ := (false, []);
     GetLastError := 0 |}.

(** An interface whose product string holds an unpaired surrogate. *)
Definition probe_surrogate : Probe :=
  {| parentInst := (true, 1);
     devicePath := "hid";
     CreateFile := 600;
     CreateEvent := 601;
     HidD_GetAttributes := Some (0x046d, 0xc52b);
     HidD_GetManufacturerString := Some (Example.u16string "Logitech");
     HidD_GetProductString := Some [0x55; 0xD83D; 0x42];
     HidD_GetPreparsedData := true;
     HidP_GetCaps := Some (Example.caps_of 1 6 9 0 0);
     HidP_GetButtonCaps _ := (true, []);
     HidP_GetValueCaps _ := (true, []);
     GetLastError := 0 |}.

Definition start : Building := {| first := true; built := empty_device |}.

(** The copy of the device of interfaces A and B on the quiet system, and
    the calls that make it. *)
Definition clone_AB : RawDevice :=
  {| devices := [ {| file := 1100; event := 900; caps := zero_caps |};
                  {| file := 1200; event := 900; caps := zero_caps |} ];
     reports := ∅;
     interrupted_event := 900;
     vendor_id := vendor_id Example.device_AB;
     product_id := product_id Example.device_AB;
     name := name Example.device_AB;
     report_desc := report_desc Example.device_AB |}.

Definition copy_calls : list call :=
  [ ReOpenFile_call 100 1100 0; CreateEvent_call true true 900 0;
    ReOpenFile_call 200 1200 0; CreateEvent_call true true 900 0;
    CreateEvent_call false false 900 0 ].

(** The calls of a copy that cannot re-open interface B. *)
Definition failed_copy_calls : list call :=
  [ ReOpenFile_call 100 1100 0; CreateEvent_call true true 900 0;
    ReOpenFile_call 200 INVALID_HANDLE_VALUE 2 ].

(** A [CancelIoEx] that fails. *)
Definition failing_cancel (file hEvent : HANDLE) (w : DWORD) : bool * DWORD := (false, 1168).
End Scenario.

(** * Theorems *)

(** ** Flags *)

(** C10. For every value of [bits], [isData] holds exactly when [isConstant]
    does not, and [isArray] holds exactly when [isVariable] does not. *)
Theorem flags_complementary_pairs (bits : Z) :
  (Flags.isData bits = true <-> Flags.isConstant bits = false)
  /\ (Flags.isArray bits = true <-> Flags.isVariable bits = false).
Proof.
  unfold Flags.isData, Flags.isConstant, Flags.isArray, Flags.isVariable.
  split.
  - destruct (Flags.to_bool (Z.land bits Flags.Data_Constant)); simpl; intuition congruence.
  - destruct (Flags.to_bool (Z.land bits Flags.Array_Variable)); simpl; intuition congruence.
Qed.

(** ** The order on [ReportID] and the map of buckets *)

Lemma ltb_irrefl k : ReportID.ltb k k = false.
Proof.
  unfold ReportID.ltb. rewrite Z.ltb_irrefl, Z.eqb_refl, Z.ltb_irrefl. reflexivity.
Qed.

Lemma ltb_trans a b c :
  ReportID.ltb a b = true -> ReportID.ltb b c = true -> ReportID.ltb a c = true.
Proof.
  unfold ReportID.ltb. intros H1 H2.
  apply orb_true_iff in H1. apply orb_true_iff in H2. apply orb_true_iff.
  rewrite andb_true_iff in *. rewrite !Z.ltb_lt, !Z.eqb_eq in *. lia.
Qed.

Lemma ltb_asym a b : ReportID.ltb a b = true -> ReportID.ltb b a = false.
Proof.
  intros H. destruct (ReportID.ltb b a) eqn:E; [|reflexivity].
  pose proof (ltb_trans _ _ _ H E) as C. rewrite ltb_irrefl in C. discriminate.
Qed.

Lemma ltb_total a b :
  ReportID.ltb a b = false -> ReportID.ltb b a = false -> a = b.
Proof.
  unfold ReportID.ltb. intros H1 H2.
  apply orb_false_iff in H1 as [H1 H1']. apply orb_false_iff in H2 as [H2 H2'].
  apply Z.ltb_ge in H1, H2.
  assert (E : ReportID.Type_value (ReportID.type a) = ReportID.Type_value (ReportID.type b)) by lia.
  rewrite E, Z.eqb_refl in H1'. rewrite E, Z.eqb_refl in H2'. simpl in *.
  apply Z.ltb_ge in H1', H2'.
  destruct a as [ta ia], b as [tb ib]; simpl in *.
  assert (ia = ib) by lia. subst.
  destruct ta, tb; simpl in E; try discriminate; reflexivity.
Qed.

Lemma find_emplace_push k k' f m :
  find k (push_back_at k' f (emplace k' [] m))
  = if decide (k = k') then Some (bucket k m ++ [f]) else find k m.
Proof.
  unfold bucket. induction m as [|[k0 v0] m IH]; simpl.
  - rewrite ltb_irrefl. simpl.
    destruct (decide (k = k')) as [->|N].
    + rewrite ltb_irrefl. reflexivity.
    + destruct (ReportID.ltb k k') eqn:E1; [reflexivity|].
      destruct (ReportID.ltb k' k) eqn:E2; [reflexivity|].
      exfalso. apply N. apply ltb_total; assumption.
  - destruct (ReportID.ltb k' k0) eqn:A1; simpl.
    + rewrite ltb_irrefl. simpl.
      destruct (decide (k = k')) as [->|N].
      * rewrite ltb_irrefl, A1. reflexivity.
      * destruct (ReportID.ltb k k') eqn:E1.
        -- rewrite (ltb_trans _ _ _ E1 A1). reflexivity.
        -- destruct (ReportID.ltb k' k) eqn:E2; [reflexivity|].
           exfalso. apply N. apply ltb_total; assumption.
    + destruct (ReportID.ltb k0 k') eqn:A2; simpl.
      * rewrite A1, A2. simpl.
        destruct (ReportID.ltb k k0) eqn:B1.
        -- destruct (decide (k = k')) as [->|N]; [|reflexivity].
           rewrite (ltb_asym _ _ A2) in B1 || rewrite B1 in A1; discriminate.
        -- destruct (ReportID.ltb k0 k) eqn:B2; [apply IH|].
           destruct (decide (k = k')) as [->|N]; [|reflexivity].
           rewrite A2 in B2. discriminate.
      * rewrite A1, A2. simpl.
        pose proof (ltb_total _ _ A1 A2) as ->.
        destruct (decide (k = k0)) as [->|N].
        -- rewrite ltb_irrefl. reflexivity.
        -- destruct (ReportID.ltb k k0) eqn:B1; [reflexivity|].
           destruct (ReportID.ltb k0 k) eqn:B2; [reflexivity|].
           exfalso. apply N. apply ltb_total; assumption.
Qed.

Lemma field_count_emplace_push k f m :
  field_count (push_back_at k f (emplace k [] m)) = S (field_count m).
Proof.
  unfold field_count. induction m as [|[k0 v0] m IH]; simpl.
  - rewrite ltb_irrefl. reflexivity.
  - destruct (ReportID.ltb k k0) eqn:A1; simpl.
    + rewrite ltb_irrefl. simpl. lia.
    + destruct (ReportID.ltb k0 k) eqn:A2; simpl.
      * rewrite A1, A2. simpl. rewrite IH. lia.
      * rewrite A1, A2. simpl. rewrite length_app. simpl. lia.
Qed.

(** ** The fields of a report type, in data-index order *)

Lemma fold_left_fmap {A B C} (f : A -> B -> A) (g : C -> B) (l : list C) (a : A) :
  fold_left f (map g l) a = fold_left (fun a c => f a (g c)) l a.
Proof. revert a. induction l as [|c l IH]; intros a; simpl; [reflexivity | apply IH]. Qed.

Lemma add_fields_by_index_visit rt bs vs m :
  add_fields_by_index rt bs vs m
  = fold_left (fun m (c : AnyCap) => add_field rt c m) (visit_order bs vs) m.
Proof.
  revert vs m. induction bs as [|b bs IHb]; intros vs m.
  - simpl. rewrite fold_left_fmap. reflexivity.
  - revert m. induction vs as [|v vs IHv]; intros m.
    + cbn [add_fields_by_index visit_order]. rewrite fold_left_fmap. reflexivity.
    + cbn [add_fields_by_index visit_order].
      destruct (NotRange_DataIndex b <? NotRange_DataIndex v).
      * cbn [fold_left]. rewrite IHb. reflexivity.
      * cbn [fold_left]. apply IHv.
Qed.

Lemma visit_order_length bs vs :
  length (visit_order bs vs) = (length bs + length vs)%nat.
Proof.
  revert vs. induction bs as [|b bs IHb]; intros vs.
  - simpl. apply length_map.
  - induction vs as [|v vs IHv].
    + cbn [visit_order]. rewrite length_map. simpl. lia.
    + cbn [visit_order]. destruct (NotRange_DataIndex b <? NotRange_DataIndex v).
      * cbn [length]. rewrite IHb. simpl. lia.
      * cbn [length]. cbn [visit_order] in IHv. rewrite IHv. simpl. lia.
Qed.

Lemma visit_order_perm bs vs :
  Permutation (visit_order bs vs) (map inl bs ++ map inr vs).
Proof.
  revert vs. induction bs as [|b bs IHb]; intros vs.
  - reflexivity.
  - induction vs as [|v vs IHv].
    + cbn [visit_order]. rewrite app_nil_r. reflexivity.
    + cbn [visit_order]. destruct (NotRange_DataIndex b <? NotRange_DataIndex v).
      * cbn [map app]. constructor. apply IHb.
      * cbn [visit_order] in IHv. rewrite IHv. cbn [map].
        apply Permutation_middle.
Qed.

Lemma buttons_of_inr vs : buttons_of (map inr vs) = [].
Proof. induction vs; simpl; auto. Qed.
Lemma buttons_of_inl bs : buttons_of (map inl bs) = bs.
Proof. induction bs; simpl; unfold buttons_of in *; simpl; congruence. Qed.
Lemma values_of_inl bs : values_of (map inl bs) = [].
Proof. induction bs; simpl; auto. Qed.
Lemma values_of_inr vs : values_of (map inr vs) = vs.
Proof. induction vs; simpl; unfold values_of in *; simpl; congruence. Qed.

Lemma buttons_of_cons c l :
  buttons_of (c :: l) = match c with inl b => b :: buttons_of l | inr _ => buttons_of l end.
Proof. destruct c; reflexivity. Qed.

Lemma values_of_cons c l :
  values_of (c :: l) = match c with inl _ => values_of l | inr v => v :: values_of l end.
Proof. destruct c; reflexivity. Qed.

Lemma visit_order_stable bs vs :
  buttons_of (visit_order bs vs) = bs /\ values_of (visit_order bs vs) = vs.
Proof.
  revert vs. induction bs as [|b bs IHb]; intros vs.
  - simpl. split; [apply buttons_of_inr | apply values_of_inr].
  - induction vs as [|v vs IHv].
    + cbn [visit_order]. split; [apply buttons_of_inl | apply values_of_inl].
    + cbn [visit_order]. destruct (NotRange_DataIndex b <? NotRange_DataIndex v).
      * destruct (IHb (v :: vs)) as [Hb Hv].
        rewrite buttons_of_cons, values_of_cons, Hb, Hv. split; reflexivity.
      * cbn [visit_order] in IHv. destruct IHv as [Hb Hv].
        rewrite buttons_of_cons, values_of_cons, Hb, Hv. split; reflexivity.
Qed.

Lemma Sorted_inl bs : Sorted by_index bs -> Sorted by_index (map inl bs : list AnyCap).
Proof.
  induction 1 as [|b bs HS IH HR]; simpl; constructor; auto.
  destruct HR; simpl; constructor; assumption.
Qed.

Lemma Sorted_inr vs : Sorted by_index vs -> Sorted by_index (map inr vs : list AnyCap).
Proof.
  induction 1 as [|v vs HS IH HR]; simpl; constructor; auto.
  destruct HR; simpl; constructor; assumption.
Qed.

Lemma visit_order_HdRel (a : AnyCap) bs vs :
  HdRel by_index a (map inl bs) -> HdRel by_index a (map inr vs) ->
  HdRel by_index a (visit_order bs vs).
Proof.
  destruct bs as [|b bs]; [intros _ H; exact H|].
  destruct vs as [|v vs]; [intros H _; exact H|].
  intros Hb Hv. cbn [visit_order].
  destruct (NotRange_DataIndex b <? NotRange_DataIndex v); constructor.
  - inversion Hb; assumption.
  - inversion Hv; assumption.
Qed.

Lemma visit_order_sorted bs vs :
  Sorted by_index bs -> Sorted by_index vs -> Sorted by_index (visit_order bs vs).
Proof.
  intros Hbs. revert vs. induction Hbs as [|b bs Hbs IHb Hb]; intros vs Hvs.
  - simpl. apply Sorted_inr. assumption.
  - induction Hvs as [|v vs Hvs IHv Hv].
    + cbn [visit_order]. apply Sorted_inl. constructor; assumption.
    + cbn [visit_order].
      destruct (NotRange_DataIndex b <? NotRange_DataIndex v) eqn:E.
      * constructor.
        -- apply IHb. constructor; assumption.
        -- apply visit_order_HdRel.
           ++ destruct Hb; simpl; constructor. assumption.
           ++ simpl. constructor. unfold by_index. simpl.
              apply Z.ltb_lt in E. simpl in E. lia.
      * constructor.
        -- exact IHv.
        -- apply (visit_order_HdRel (inr v) (b :: bs) vs).
           ++ simpl. constructor. unfold by_index. simpl.
              apply Z.ltb_ge in E. simpl in E. lia.
           ++ destruct Hv; simpl; constructor. assumption.
Qed.

Lemma by_index_trans {C} `{Cap C} : Transitive (by_index (C:=C)).
Proof. unfold by_index. intros a b c. lia. Qed.

Lemma Sorted_filter_by_index (P : AnyCap -> Prop) `{forall c, Decision (P c)} (l : list AnyCap) :
  Sorted by_index l -> Sorted by_index (filter P l).
Proof.
  intros HS. apply Sorted_StronglySorted in HS; [|apply by_index_trans].
  apply StronglySorted_Sorted.
  induction HS as [|a l HS IH Hall]; [constructor|].
  rewrite filter_cons. destruct (decide (P a)); [|assumption].
  constructor; [assumption|].
  rewrite Forall_forall in *. intros c Hc.
  apply list_elem_of_filter in Hc. apply Hall. tauto.
Qed.

Lemma field_count_fold rt (l : list AnyCap) m :
  field_count (fold_left (fun m c => add_field rt c m) l m) = (field_count m + length l)%nat.
Proof.
  revert m. induction l as [|c l IH]; intros m; simpl; [lia|].
  rewrite IH. unfold add_field. rewrite field_count_emplace_push. lia.
Qed.

Lemma bucket_fold rt (l : list AnyCap) m k :
  bucket k (fold_left (fun m c => add_field rt c m) l m)
  = bucket k m ++ map field_of (filter (fun c => field_key rt c = k) l).
Proof.
  revert m. induction l as [|c l IH]; intros m; simpl.
  - rewrite app_nil_r. reflexivity.
  - rewrite IH. rewrite filter_cons. unfold bucket at 1. unfold add_field.
    rewrite find_emplace_push.
    destruct (decide (k = field_key rt c)) as [->|N].
    + rewrite decide_True by reflexivity. simpl. rewrite <- app_assoc. reflexivity.
    + rewrite decide_False by congruence. reflexivity.
Qed.

Lemma filter_all {A} (P : A -> Prop) `{forall a, Decision (P a)} (l : list A) :
  Forall P l -> filter P l = l.
Proof.
  induction 1 as [|a l Ha _ IH]; [reflexivity|].
  rewrite filter_cons, decide_True by exact Ha. rewrite IH. reflexivity.
Qed.

Lemma keys_push_back_at k f m : map fst (push_back_at k f m) = map fst m.
Proof.
  induction m as [|[k0 v0] m IH]; [reflexivity|]. cbn [push_back_at].
  destruct (ReportID.ltb k k0); [reflexivity|].
  destruct (ReportID.ltb k0 k); cbn; [rewrite IH|]; reflexivity.
Qed.

Lemma keys_emplace k v m k' :
  k' ∈ map fst (emplace k v m) <-> k' = k \/ k' ∈ map fst m.
Proof.
  induction m as [|[k0 v0] m IH]; cbn [emplace map fst].
  - rewrite list_elem_of_singleton. split; [auto|]. intros [H|H]; [exact H | inversion H].
  - destruct (ReportID.ltb k k0) eqn:A1; [cbn; rewrite elem_of_cons; reflexivity|].
    destruct (ReportID.ltb k0 k) eqn:A2.
    + cbn [map fst]. rewrite !elem_of_cons, IH. tauto.
    + pose proof (ltb_total _ _ A1 A2) as ->. cbn [map fst]. rewrite elem_of_cons. tauto.
Qed.

Lemma keys_sorted_emplace k v m : keys_sorted m -> keys_sorted (emplace k v m).
Proof.
  unfold keys_sorted. induction m as [|[k0 v0] m IH]; intros HS; cbn [emplace].
  - repeat constructor.
  - inversion HS as [|? ? HS' Hall]; subst.
    destruct (ReportID.ltb k k0) eqn:A1.
    + cbn [map fst]. constructor; [exact HS|]. constructor; [exact A1|].
      eapply Forall_impl; [exact Hall|]. intros k1 H1. exact (ltb_trans _ _ _ A1 H1).
    + destruct (ReportID.ltb k0 k) eqn:A2; [|exact HS].
      cbn [map fst]. constructor; [apply IH; exact HS'|].
      apply Forall_forall. intros k1 H1. apply keys_emplace in H1 as [->|H1]; [exact A2|].
      rewrite Forall_forall in Hall. apply Hall. exact H1.
Qed.

Lemma concatenated_emplace_push k f m :
  Permutation (concatenated (push_back_at k f (emplace k [] m))) (concatenated m ++ [f]).
Proof.
  unfold concatenated. induction m as [|[k0 v0] m IH]; cbn [emplace].
  - cbn [push_back_at]. rewrite ltb_irrefl. reflexivity.
  - destruct (ReportID.ltb k k0) eqn:A1.
    + cbn [push_back_at]. rewrite ltb_irrefl. cbn [flat_map snd app].
      apply Permutation_cons_append.
    + destruct (ReportID.ltb k0 k) eqn:A2; cbn [push_back_at]; rewrite A1, A2;
        cbn [flat_map snd].
      * rewrite IH, app_assoc. reflexivity.
      * rewrite <- !app_assoc. apply Permutation_app_head, Permutation_app_comm.
Qed.

Lemma concatenated_fold rt (l : list AnyCap) m :
  Permutation (concatenated (fold_left (fun m c => add_field rt c m) l m))
              (concatenated m ++ map field_of l).
Proof.
  revert m. induction l as [|c l IH]; intros m; cbn [fold_left map].
  - rewrite app_nil_r. reflexivity.
  - rewrite IH. unfold add_field. rewrite concatenated_emplace_push, <- app_assoc.
    reflexivity.
Qed.

Lemma keys_sorted_fold rt (l : list AnyCap) m :
  keys_sorted m -> keys_sorted (fold_left (fun m c => add_field rt c m) l m).
Proof.
  revert m. induction l as [|c l IH]; intros m HS; cbn [fold_left]; [exact HS|].
  apply IH. unfold add_field, keys_sorted. rewrite keys_push_back_at.
  apply keys_sorted_emplace. exact HS.
Qed.

Lemma keys_fold rt (l : list AnyCap) m k :
  k ∈ map fst (fold_left (fun m c => add_field rt c m) l m)
  <-> k ∈ map fst m \/ exists c, c ∈ l /\ field_key rt c = k.
Proof.
  revert m. induction l as [|c l IH]; intros m; cbn [fold_left].
  - split; [auto|]. intros [H|(c & Hc & _)]; [exact H | inversion Hc].
  - rewrite IH. unfold add_field. rewrite keys_push_back_at, keys_emplace. split.
    + intros [[-> | H] | (c' & Hc' & <-)]; [right | left | right].
      * exists c. split; [left | reflexivity].
      * exact H.
      * exists c'. split; [right; exact Hc' | reflexivity].
    + intros [H | (c' & Hc' & <-)]; [left; right; exact H|].
      apply elem_of_cons in Hc' as [-> | Hc']; [left; left; reflexivity|].
      right. exists c'. split; [exact Hc' | reflexivity].
Qed.

(** A map with ascending keys is the list of the buckets of its keys. *)
Lemma concatenated_buckets m :
  keys_sorted m -> concatenated m = flat_map (fun k => bucket k m) (map fst m).
Proof.
  unfold keys_sorted, concatenated, bucket.
  induction m as [|[k0 v0] m IH]; intros HS; [reflexivity|].
  inversion HS as [|? ? HS' Hall]; subst. cbn [map fst flat_map snd find].
  rewrite ltb_irrefl. cbn [default]. f_equal. rewrite (IH HS').
  clear IH HS HS'. induction (map fst m) as [|k keys IH]; [reflexivity|].
  inversion Hall as [|? ? Hk Hall']; subst. cbn [flat_map].
  rewrite (ltb_asym _ _ Hk), Hk, (IH Hall'). reflexivity.
Qed.

(** Ascending keys that are all the same are one key at most. *)
Lemma keys_sorted_single (m : ReportMap) k :
  keys_sorted m -> Forall (fun k' => k' = k) (map fst m) ->
  concatenated m = bucket k m.
Proof.
  unfold keys_sorted, concatenated, bucket.
  destruct m as [|[k0 v0] m]; cbn [map fst]; intros HS Hall; [reflexivity|].
  apply Forall_cons in Hall as [-> Hall].
  apply StronglySorted_inv in HS as [_ Hlt].
  destruct m as [|[k1 v1] m]; cbn [map fst] in *.
  - cbn. rewrite ltb_irrefl. cbn. apply app_nil_r.
  - apply Forall_cons in Hall as [-> _]. apply Forall_cons in Hlt as [Hkk _].
    rewrite ltb_irrefl in Hkk. discriminate.
Qed.

(** C7. For button and value capabilities each in ascending order of data
    index, the builder passes the capabilities to [add_field] in the order of
    their ascending merge: the order is ascending, it is a permutation of both
    tables that keeps each table's own order, and the buckets hold one field
    per capability (A+B in all).  Each bucket lists the fields of its report
    id in that same order, which is ascending in data index.  The buckets
    concatenated are the fields grouped by report id, the ids ascending: a
    permutation of the merge, and the merge itself when all the capabilities
    have one report id. *)
Theorem fields_merged_by_data_index (report_type : ReportID.Type_)
    (button_caps : list HIDP_BUTTON_CAPS) (value_caps : list HIDP_VALUE_CAPS) :
  Sorted by_index button_caps ->
  Sorted by_index value_caps ->
  let order := visit_order button_caps value_caps in
  let m := add_fields_by_index report_type button_caps value_caps [] in
  Sorted by_index order
  /\ Permutation order (map inl button_caps ++ map inr value_caps)
  /\ buttons_of order = button_caps
  /\ values_of order = value_caps
  /\ field_count m = (length button_caps + length value_caps)%nat
  /\ (forall k : ReportID.t,
        bucket k m = map field_of (filter (fun c => field_key report_type c = k) order)
        /\ Sorted by_index (filter (fun c => field_key report_type c = k) order))
  /\ keys_sorted m
  /\ (forall k : ReportID.t,
        k ∈ map fst m <-> exists c, c ∈ order /\ field_key report_type c = k)
  /\ concatenated m
     = flat_map (fun k => map field_of (filter (fun c => field_key report_type c = k) order))
                (map fst m)
  /\ Permutation (concatenated m) (map field_of order)
  /\ (forall k : ReportID.t,
        Forall (fun c => field_key report_type c = k) order ->
        bucket k m = map field_of order /\ concatenated m = map field_of order).
Proof.
  intros Hb Hv order m.
  pose proof (visit_order_sorted _ _ Hb Hv) as HS.
  assert (Hm : m = fold_left (fun m (c : AnyCap) => add_field report_type c m) order [])
    by (subst m; apply add_fields_by_index_visit).
  assert (Hbucket : forall k, bucket k m
            = map field_of (filter (fun c => field_key report_type c = k) order)).
  { intros k. rewrite Hm, bucket_fold. reflexivity. }
  assert (Hsorted : keys_sorted m).
  { rewrite Hm. apply keys_sorted_fold. constructor. }
  assert (Hkeys : forall k, k ∈ map fst m
                            <-> exists c, c ∈ order /\ field_key report_type c = k).
  { intros k. rewrite Hm, keys_fold. split; [|auto].
    intros [H|H]; [inversion H | exact H]. }
  split; [exact HS|].
  split; [apply visit_order_perm|].
  split; [apply visit_order_stable|].
  split; [apply visit_order_stable|].
  split.
  { rewrite Hm, field_count_fold. subst order. rewrite visit_order_length. reflexivity. }
  split.
  { intros k. split; [apply Hbucket|]. apply Sorted_filter_by_index. exact HS. }
  split; [exact Hsorted|].
  split; [exact Hkeys|].
  split.
  { rewrite (concatenated_buckets _ Hsorted). apply flat_map_ext. exact Hbucket. }
  split.
  { rewrite Hm. apply (concatenated_fold report_type order []). }
  intros k Hall.
  assert (Hk : bucket k m = map field_of order).
  { rewrite Hbucket, (filter_all _ _ Hall). reflexivity. }
  split; [exact Hk|]. rewrite <- Hk. apply keys_sorted_single; [exact Hsorted|].
  apply Forall_forall. intros k' Hk'. apply Hkeys in Hk' as (c & Hc & <-).
  rewrite Forall_forall in Hall. apply Hall. exact Hc.
Qed.

(** ** Construction: the report router *)

Lemma route_reports_inr hdev ids r r' :
  route_reports hdev ids r = inr r' ->
  (forall k h, r !! k = Some h -> r' !! k = Some h)
  /\ (forall id, id ∈ ids -> r' !! to_uint8 (ReportID.id id) = Some hdev).
Proof.
  revert r. induction ids as [|id0 ids IH]; intros r H; simpl in H.
  - inversion H; subst. split; [auto|]. intros id Hid. inversion Hid.
  - destruct (r !! to_uint8 (ReportID.id id0)) as [h0|] eqn:E.
    + destruct (negb (h0 =? hdev)) eqn:Eh; [discriminate|].
      apply negb_false_iff, Z.eqb_eq in Eh. subst h0.
      destruct (IH _ H) as [Hkeep Hids]. split; [exact Hkeep|].
      intros id Hid. apply elem_of_cons in Hid as [->|Hid]; auto.
    + destruct (IH _ H) as [Hkeep Hids]. split.
      * intros k h Hk. apply Hkeep. rewrite lookup_insert_ne; [exact Hk|].
        intros <-. congruence.
      * intros id Hid. apply elem_of_cons in Hid as [->|Hid]; auto.
        apply Hkeep. apply lookup_insert_eq.
Qed.

Lemma route_reports_clash hdev ids r id h :
  id ∈ ids -> r !! to_uint8 (ReportID.id id) = Some h -> h <> hdev ->
  route_reports hdev ids r = inl same_report_id.
Proof.
  revert r. induction ids as [|id0 ids IH]; intros r Hid Hr Hne.
  - inversion Hid.
  - simpl. destruct (r !! to_uint8 (ReportID.id id0)) as [h0|] eqn:E.
    + destruct (negb (h0 =? hdev)) eqn:Eh; [reflexivity|].
      apply negb_false_iff, Z.eqb_eq in Eh. subst h0.
      apply elem_of_cons in Hid as [->|Hid]; [congruence|].
      apply IH; assumption.
    + apply elem_of_cons in Hid as [->|Hid]; [congruence|].
      apply IH; try assumption.
      rewrite lookup_insert_ne; [exact Hr|]. intros Heq. congruence.
Qed.

Arguments add_report_types : simpl never.
Arguments route_reports : simpl never.

Lemma read_attributes_keeps p b b' :
  read_attributes p b = inr b' ->
  devices (built b') = devices (built b)
  /\ reports (built b') = reports (built b)
  /\ report_desc (built b') = report_desc (built b).
Proof.
  unfold read_attributes. intros H.
  destruct (first b); [|inversion H; subst; auto].
  destruct (HidD_GetAttributes p) as [[vendor product]|]; [|discriminate].
  destruct (HidD_GetManufacturerString p) as [buffer1|]; [|discriminate].
  destruct (u16conv_to_bytes buffer1) as [e|manufacturer];
    cbn [mbind exn_bind] in H; [discriminate|].
  destruct (HidD_GetProductString p) as [buffer2|]; [|discriminate].
  destruct (u16conv_to_bytes buffer2) as [e|product_string];
    cbn [mbind exn_bind] in H; [discriminate|].
  inversion H; subst; simpl; auto.
Qed.

(** What a successful iteration did: nothing, or one more record and one
    more collection. *)
Lemma open_interface_inr parent_inst p b b' :
  open_interface parent_inst p b = inr b' ->
  (b' = b /\ (selected parent_inst p = false \/ CreateFile p = INVALID_HANDLE_VALUE))
  \/ (selected parent_inst p = true /\ CreateFile p <> INVALID_HANDLE_VALUE
      /\ exists c m r,
           HidP_GetCaps p = Some c
           /\ add_report_types p (report_types c) [] = inr m
           /\ route_reports (CreateFile p) (map fst m) (reports (built b)) = inr r
           /\ devices (built b')
              = devices (built b) ++ [ {| file := CreateFile p; event := CreateEvent p; caps := c |} ]
           /\ reports (built b') = r
           /\ collections (report_desc (built b'))
              = collections (report_desc (built b))
                ++ [ ReportCollection.mk ReportCollection.Physical
                       (Z.lor (to_uint32 (Z.shiftl (to_uint32 (caps_UsagePage c)) 16)) (caps_Usage c))
                       m ]).
Proof.
  unfold open_interface, selected, mbind, exn_bind. intros H.
  destruct (fst (parentInst p)); simpl in *;
    [|inversion H; subst; left; auto].
  destruct (snd (parentInst p) =? parent_inst); simpl in *;
    [|inversion H; subst; left; auto].
  destruct (CreateFile p =? INVALID_HANDLE_VALUE) eqn:EF.
  { apply Z.eqb_eq in EF. inversion H; subst. left; auto. }
  apply Z.eqb_neq in EF.
  destruct (CreateEvent p =? INVALID_HANDLE_VALUE); [discriminate|].
  destruct (read_attributes p b) as [e|b1] eqn:EA; simpl in H; [discriminate|].
  destruct (read_attributes_keeps _ _ _ EA) as (Hd & Hr & Hc).
  destruct (HidD_GetPreparsedData p); simpl in H; [|discriminate].
  destruct (HidP_GetCaps p) as [c|]; [|discriminate].
  destruct (add_report_types p (report_types c) []) as [e|m] eqn:EM; simpl in H; [discriminate|].
  destruct (route_reports (CreateFile p) (map fst m) (reports (built b1))) as [e|r] eqn:ER;
    simpl in H; [discriminate|].
  inversion H; subst; simpl. right. split; [reflexivity|]. split; [exact EF|].
  exists c, m, r. rewrite <- Hr, <- Hd, <- Hc.
  repeat split; first [assumption | reflexivity].
Qed.

Lemma open_interface_well_routed parent_inst p b b' :
  well_routed b -> open_interface parent_inst p b = inr b' -> well_routed b'.
Proof.
  intros Hw H. apply open_interface_inr in H as [[-> _]|(_ & _ & c & m & r & _ & _ & Hr & Hd & Hrep & Hc)].
  - exact Hw.
  - unfold well_routed in *. rewrite Hd, Hc, Hrep.
    destruct (route_reports_inr _ _ _ _ Hr) as [Hkeep Hids].
    apply Forall2_app.
    + eapply Forall2_impl; [exact Hw|].
      intros d c0 Hrt k Hk. apply Hkeep. apply Hrt. exact Hk.
    + constructor; [|constructor].
      intros k Hk. simpl in *. apply Hids. exact Hk.
Qed.

Lemma open_interfaces_well_routed parent_inst probes b b' :
  well_routed b -> open_interfaces parent_inst probes b = inr b' -> well_routed b'.
Proof.
  revert b. induction probes as [|p probes IH]; intros b Hw H; simpl in H.
  - inversion H; subst. exact Hw.
  - destruct (open_interface parent_inst p b) as [e|b1] eqn:E; simpl in H; [discriminate|].
    eapply IH; [|exact H]. eapply open_interface_well_routed; eassumption.
Qed.

Lemma open_interfaces_app parent_inst ps1 ps2 b :
  open_interfaces parent_inst (ps1 ++ ps2) b
  = (b' ← open_interfaces parent_inst ps1 b; open_interfaces parent_inst ps2 b').
Proof.
  revert b. induction ps1 as [|p ps1 IH]; intros b; simpl; [reflexivity|].
  destruct (open_interface parent_inst p b) as [e|b1]; simpl; [reflexivity|]. apply IH.
Qed.

Lemma RawDevice_open_inr parent_inst probes interrupt interrupt_error dev :
  RawDevice_open parent_inst probes interrupt interrupt_error = inr dev ->
  exists b, open_interfaces parent_inst probes {| first := true; built := empty_device |} = inr b
            /\ devices dev = devices (built b)
            /\ reports dev = reports (built b)
            /\ report_desc dev = report_desc (built b)
            /\ interrupted_event dev = interrupt
            /\ interrupt <> INVALID_HANDLE_VALUE.
Proof.
  unfold RawDevice_open. intros H.
  destruct (open_interfaces _ _ _) as [e|b]; simpl in H; [discriminate|].
  destruct (interrupt =? INVALID_HANDLE_VALUE) eqn:E; [discriminate|].
  apply Z.eqb_neq in E. inversion H; subst; simpl. exists b.
  repeat split; first [assumption | reflexivity].
Qed.

(** C5. On successful construction every interface record is the one its
    report ids are routed to, so two interfaces that declare the same id
    have the same handle; and when an interface that opens and answers every
    query declares an id that the router already gives to another handle,
    construction fails with "Same Report ID on different handle.". *)
Theorem report_id_single_handle (parent_inst : Z) (probes : list Probe)
    (interrupt : HANDLE) (interrupt_error : DWORD) :
  (forall dev, RawDevice_open parent_inst probes interrupt interrupt_error = inr dev ->
     (forall i d c k,
        devices dev !! i = Some d ->
        collections (report_desc dev) !! i = Some c ->
        k ∈ map fst (ReportCollection.reports c) ->
        reports dev !! to_uint8 (ReportID.id k) = Some (file d))
     /\ (forall i j di dj ci cj ki kj,
        devices dev !! i = Some di -> collections (report_desc dev) !! i = Some ci ->
        devices dev !! j = Some dj -> collections (report_desc dev) !! j = Some cj ->
        ki ∈ map fst (ReportCollection.reports ci) ->
        kj ∈ map fst (ReportCollection.reports cj) ->
        to_uint8 (ReportID.id ki) = to_uint8 (ReportID.id kj) ->
        file di = file dj))
  /\ (forall before p after b b1 c m k h,
        probes = before ++ p :: after ->
        open_interfaces parent_inst before {| first := true; built := empty_device |} = inr b ->
        selected parent_inst p = true ->
        CreateFile p <> INVALID_HANDLE_VALUE ->
        CreateEvent p <> INVALID_HANDLE_VALUE ->
        read_attributes p b = inr b1 ->
        HidD_GetPreparsedData p = true ->
        HidP_GetCaps p = Some c ->
        add_report_types p (report_types c) [] = inr m ->
        k ∈ map fst m ->
        reports (built b) !! to_uint8 (ReportID.id k) = Some h ->
        h <> CreateFile p ->
        RawDevice_open parent_inst probes interrupt interrupt_error = inl same_report_id).
Proof.
  split.
  - intros dev H.
    apply RawDevice_open_inr in H as (b & Hb & Hd & Hr & Hc & _).
    assert (Hw : well_routed b).
    { eapply open_interfaces_well_routed; [|exact Hb]. constructor. }
    unfold well_routed in Hw. rewrite <- Hd, <- Hr, <- Hc in Hw.
    assert (Hone : forall i d c k,
        devices dev !! i = Some d ->
        collections (report_desc dev) !! i = Some c ->
        k ∈ map fst (ReportCollection.reports c) ->
        reports dev !! to_uint8 (ReportID.id k) = Some (file d)).
    { intros i d c k Hi Hj Hk.
      exact (Forall2_lookup_lr _ _ _ _ _ _ Hw Hi Hj k Hk). }
    split; [exact Hone|].
    intros i j di dj ci cj ki kj Hdi Hci Hdj Hcj Hki Hkj Heq.
    pose proof (Hone _ _ _ _ Hdi Hci Hki) as H1.
    pose proof (Hone _ _ _ _ Hdj Hcj Hkj) as H2.
    rewrite Heq in H1. congruence.
  - intros before p after b b1 c m k h -> Hb Hsel HF HE HA HP HC HM Hk Hh Hne.
    unfold RawDevice_open. rewrite open_interfaces_app, Hb. simpl.
    unfold selected in Hsel. apply andb_true_iff in Hsel as [Hs1 Hs2].
    unfold open_interface. rewrite Hs1, Hs2. simpl.
    apply Z.eqb_neq in HF, HE. rewrite HF, HE, HA. simpl. rewrite HP, HC. simpl.
    rewrite HM. simpl.
    destruct (read_attributes_keeps _ _ _ HA) as (_ & Hr & _).
    rewrite (route_reports_clash (CreateFile p) (map fst m) (reports (built b1)) k h);
      [reflexivity | exact Hk | rewrite Hr; exact Hh | exact Hne].
Qed.

(** ** Construction: interfaces that cannot be opened *)

Lemma open_interface_skip parent_inst p b :
  selected parent_inst p = false \/ CreateFile p = INVALID_HANDLE_VALUE ->
  open_interface parent_inst p b = inr b.
Proof.
  unfold open_interface, selected. intros [H|H].
  - apply andb_false_iff in H as [->| ->]; simpl; [reflexivity|].
    rewrite orb_true_r. reflexivity.
  - rewrite H, Z.eqb_refl.
    destruct (negb (fst (parentInst p)) || negb (snd (parentInst p) =? parent_inst)); reflexivity.
Qed.

(** C6, as the code has it. An interface whose open fails is passed over,
    like one whose parent cannot be read or is another device: construction
    goes on as if it had not been enumerated.  An interface that is selected
    and opens is never passed over: when its iteration succeeds the device
    has a record for its handle. *)
Theorem unopened_interface_is_skipped (parent_inst : Z) (before after : list Probe)
    (p : Probe) (interrupt : HANDLE) (interrupt_error : DWORD) :
  (selected parent_inst p = false \/ CreateFile p = INVALID_HANDLE_VALUE ->
   RawDevice_open parent_inst (before ++ p :: after) interrupt interrupt_error
   = RawDevice_open parent_inst (before ++ after) interrupt interrupt_error)
  /\ (forall b b',
        selected parent_inst p = true -> CreateFile p <> INVALID_HANDLE_VALUE ->
        open_interface parent_inst p b = inr b' ->
        exists c, devices (built b')
                  = devices (built b)
                    ++ [ {| file := CreateFile p; event := CreateEvent p; caps := c |} ]).
Proof.
  split.
  - intros H. unfold RawDevice_open. rewrite !open_interfaces_app.
    destruct (open_interfaces parent_inst before _) as [e|b]; simpl; [reflexivity|].
    rewrite (open_interface_skip _ _ _ H). reflexivity.
  - intros b b' Hsel HF H.
    apply open_interface_inr in H as [[_ [H|H]]|(_ & _ & c & m & r & _ & _ & _ & Hd & _)].
    + congruence.
    + congruence.
    + exists c. exact Hd.
Qed.

(** C6, as stated, fails: the only enumerated interface is selected, its
    open fails, and construction succeeds with no interface at all. *)
Lemma open_failure_not_fatal :
  selected 1 Example.probe_locked = true
  /\ CreateFile Example.probe_locked = INVALID_HANDLE_VALUE
  /\ exists dev, RawDevice_open 1 [Example.probe_locked] 300 0 = inr dev
                 /\ devices dev = [].
Proof.
  split; [reflexivity|]. split; [reflexivity|].
  eexists. split; [reflexivity|]. reflexivity.
Qed.

(** ** readReport: the reads that are issued *)

Section IOFacts.
Context {World : Type} (os : Win32.api World).

Lemma AsyncRead_read_spec r buffer size w res read r' buffer' calls w' :
  AsyncRead_read os r buffer size w = (res, read, r', buffer', calls, w') ->
  exists ok err,
    calls = [ReadFile_call (ar_file r) size (ar_hEvent r) ok read err]
    /\ ar_file r' = ar_file r /\ ar_hEvent r' = ar_hEvent r
    /\ ((ok = true /\ res = inr false /\ pending r' = false)
        \/ (ok = false /\ err = ERROR_IO_PENDING /\ res = inr true
            /\ pending r' = true /\ buffer' = buffer)
        \/ (ok = false /\ (err =? ERROR_IO_PENDING) = false
            /\ res = inl (system_error err "ReadFile")
            /\ r' = r /\ buffer' = buffer)).
Proof.
  unfold AsyncRead_read. intros H.
  destruct (Win32.ReadFile os (ar_file r) buffer size (ar_hEvent r) w) as [[[ok n] buf] w1].
  exists ok, (Win32.GetLastError os w1).
  destruct ok.
  - inversion H; subst; simpl. split; [reflexivity|]. do 2 (split; [reflexivity|]).
    left. auto.
  - destruct (Win32.GetLastError os w1 =? ERROR_IO_PENDING) eqn:E.
    + inversion H; subst; simpl. split; [reflexivity|]. do 2 (split; [reflexivity|]).
      right; left. apply Z.eqb_eq in E. auto.
    + inversion H; subst; simpl. split; [reflexivity|]. do 2 (split; [reflexivity|]).
      right; right. auto.
Qed.

Lemma read_target_cons f sz e ok n err l :
  omap read_target (ReadFile_call f sz e ok n err :: l) = (f, e) :: omap read_target l.
Proof. reflexivity. Qed.

Lemma read_of_cons f sz e ok n err l :
  omap read_of (ReadFile_call f sz e ok n err :: l)
  = {| ar_file := f; ar_hEvent := e; pending := negb ok && (err =? ERROR_IO_PENDING) |}
    :: omap read_of l.
Proof. reflexivity. Qed.

Lemma issue_reads_calls devs report reads handles w out report' reads' calls w' :
  issue_reads os devs report reads handles w = (out, report', reads', calls, w') ->
  Forall (is_ReadFile (to_uint32 (Z.of_nat (length report)))) calls
  /\ reads' = reads ++ omap read_of calls
  /\ omap read_target calls `prefix_of` map dev_target (filter (fits report) devs)
  /\ match out with
     | AllPending hs =>
         Forall (fun c => read_pending c = true) calls
         /\ hs = handles ++ map snd (omap read_target calls)
         /\ omap read_target calls = map dev_target (filter (fits report) devs)
         /\ report' = report
     | ReadNow n =>
         exists pre f sz e err,
           calls = pre ++ [ReadFile_call f sz e true n err]
           /\ Forall (fun c => read_pending c = true) pre
     | IssueThrew ex =>
         exists pre f sz e n err,
           calls = pre ++ [ReadFile_call f sz e false n err]
           /\ (err =? ERROR_IO_PENDING) = false
           /\ ex = system_error err "ReadFile"
           /\ Forall (fun c => read_pending c = true) pre
           /\ report' = report
     end.
Proof.
  revert reads handles w out report' reads' calls w'.
  induction devs as [|dev devs IH]; intros reads handles w out report' reads' calls w' H.
  - simpl in H. inversion H; subst. simpl. rewrite !app_nil_r.
    repeat split; try constructor. reflexivity.
  - cbn [issue_reads] in H. rewrite filter_cons.
    destruct (Z.of_nat (length report) <? InputReportByteLength (caps dev)) eqn:Efit.
    + apply Z.ltb_lt in Efit.
      rewrite decide_False by (unfold fits; lia).
      apply IH in H. exact H.
    + apply Z.ltb_ge in Efit.
      rewrite decide_True by (unfold fits; lia).
      destruct (AsyncRead_read os (AsyncRead_new (file dev) (event dev)) report
                  (to_uint32 (Z.of_nat (length report))) w)
        as [[[[[res read] r] report1] calls1] w1] eqn:ER.
      apply AsyncRead_read_spec in ER as (ok & err & -> & Hf & He & Hcase).
      simpl in Hf, He.
      destruct Hcase as [(-> & -> & Hp) | [(-> & -> & -> & Hp & ->) | (-> & Herr & -> & -> & ->)]].
      * inversion H; subst. simpl.
        split; [constructor; [reflexivity | constructor]|].
        split; [destruct r; simpl in *; subst; reflexivity|].
        split; [eexists; reflexivity|].
        exists [], (file dev), (to_uint32 (Z.of_nat (length report))), (event dev), err.
        split; [reflexivity | constructor].
      * destruct (issue_reads os devs report (reads ++ [r]) (handles ++ [event dev]) w1)
          as [[[[out2 report2] reads2] calls2] w2] eqn:E2.
        inversion H; subst. clear H.
        apply IH in E2 as (Hall & Hreads & Hpre & Hout).
        assert (Hr : r = {| ar_file := file dev; ar_hEvent := event dev; pending := true |}).
        { destruct r; simpl in *; subst; reflexivity. }
        split; [constructor; [reflexivity | exact Hall]|].
        split; [cbn [app]; rewrite read_of_cons, Hreads, <- app_assoc, Hr; reflexivity|].
        split; [cbn [app map]; rewrite read_target_cons; apply prefix_cons; exact Hpre|].
        destruct out.
        -- destruct Hout as (Hp' & Hhs & Hall' & Hrep).
           split; [constructor; [reflexivity | exact Hp']|].
           split; [cbn [app]; rewrite read_target_cons, Hhs, <- app_assoc; reflexivity|].
           split; [cbn [app map]; rewrite read_target_cons, Hall'; reflexivity | exact Hrep].
        -- destruct Hout as (pre & f & sz & e & err' & -> & Hp').
           exists (ReadFile_call (file dev) (to_uint32 (Z.of_nat (length report)))
                     (event dev) false read ERROR_IO_PENDING :: pre), f, sz, e, err'.
           split; [reflexivity | constructor; [reflexivity | exact Hp']].
        -- destruct Hout as (pre & f & sz & e0 & n & err' & -> & Herr & -> & Hp' & Hrep).
           exists (ReadFile_call (file dev) (to_uint32 (Z.of_nat (length report)))
                     (event dev) false read ERROR_IO_PENDING :: pre), f, sz, e0, n, err'.
           repeat split; try assumption. constructor; [reflexivity | exact Hp'].
      * inversion H; subst. simpl. rewrite Herr.
        split; [constructor; [reflexivity | constructor]|].
        split; [reflexivity|].
        split; [eexists; reflexivity|].
        exists [], (file dev), (to_uint32 (Z.of_nat (length report'))), (event dev), read, err.
        repeat split; try assumption. constructor.
Qed.

Lemma ar_target_read_of calls :
  map ar_target (omap read_of calls) = omap read_target calls.
Proof.
  induction calls as [|c calls IH]; [reflexivity|].
  destruct c; try exact IH.
  rewrite read_of_cons, read_target_cons. cbn [map]. rewrite IH. reflexivity.
Qed.

Lemma pending_read_of calls :
  Forall (fun c => read_pending c = true) calls ->
  Forall (fun r => pending r = true) (omap read_of calls).
Proof.
  induction 1 as [|c calls Hc _ IH]; [constructor|].
  destruct c; try discriminate Hc.
  rewrite read_of_cons. constructor; [exact Hc | exact IH].
Qed.

(** ** readReport: the destructors *)

Lemma destroy_reads_calls reads w calls w' :
  destroy_reads os reads w = (calls, w') ->
  Forall is_CancelIoEx calls
  /\ omap cancel_target calls = map ar_target (filter (fun r => pending r = true) reads).
Proof.
  revert w calls w'. induction reads as [|r reads IH]; intros w calls w' H.
  - inversion H; subst. split; [constructor | reflexivity].
  - cbn [destroy_reads] in H. unfold AsyncRead_destroy in H. rewrite filter_cons.
    destruct (pending r) eqn:Ep.
    + destruct (Win32.CancelIoEx os (ar_file r) (ar_hEvent r) w) as [ok w1].
      destruct (destroy_reads os reads w1) as [calls2 w2] eqn:E2.
      inversion H; subst. apply IH in E2 as [Hall Hmap].
      rewrite decide_True by reflexivity.
      split; [constructor; [exact I | exact Hall]|].
      cbn [app map]. change (omap cancel_target (CancelIoEx_call ?f ?e ?o ?x :: ?l))
        with ((f, e) :: omap cancel_target l).
      rewrite Hmap. reflexivity.
    + destruct (destroy_reads os reads w) as [calls2 w2] eqn:E2.
      inversion H; subst. apply IH in E2 as [Hall Hmap].
      rewrite decide_False by discriminate.
      split; assumption.
Qed.

(** ** readReport: the wait *)

Lemma wait_reads_spec hs timeout report reads w res report' reads' calls w' :
  wait_reads os hs timeout report reads w = (res, report', reads', calls, w') ->
  exists ret err rest,
    calls = WaitForMultipleObjects_call hs false (wait_timeout timeout) ret err :: rest
    /\ (((ret = WAIT_OBJECT_0 \/ ret = WAIT_TIMEOUT)
         /\ res = inr 0 /\ report' = report /\ reads' = reads /\ rest = [])
        \/ (ret = WAIT_FAILED
            /\ res = inl (system_error err "WaitForMultipleObject")
            /\ report' = report /\ reads' = reads /\ rest = [])
        \/ (ret <> WAIT_OBJECT_0 /\ ret <> WAIT_TIMEOUT /\ ret <> WAIT_FAILED
            /\ Z.of_nat (length reads) <= to_uint32 (ret - WAIT_OBJECT_0 - 1)
            /\ res = inl unexpected_wait
            /\ report' = report /\ reads' = reads /\ rest = [])
        \/ (ret <> WAIT_OBJECT_0 /\ ret <> WAIT_TIMEOUT /\ ret <> WAIT_FAILED
            /\ exists r ok n err' buf,
                 reads !! Z.to_nat (to_uint32 (ret - WAIT_OBJECT_0 - 1)) = Some r
                 /\ rest = [GetOverlappedResult_call (ar_file r) (ar_hEvent r) false ok n err']
                 /\ reads' = <[Z.to_nat (to_uint32 (ret - WAIT_OBJECT_0 - 1))
                                := set_pending false r]> reads
                 /\ (if ok
                     then res = inr (to_int n) /\ report' = resize (Z.to_nat n) 0 buf
                     else res = inl (system_error err' "GetOverlappedResult")
                          /\ report' = report))).
Proof.
  unfold wait_reads. intros H.
  destruct (Win32.WaitForMultipleObjects os hs false (wait_timeout timeout) w) as [ret w1].
  exists ret, (Win32.GetLastError os w1).
  destruct (ret =? WAIT_OBJECT_0) eqn:E0; cbn [orb] in H.
  { apply Z.eqb_eq in E0. inversion H; subst. eexists. split; [reflexivity|].
    left. repeat split; auto. }
  destruct (ret =? WAIT_TIMEOUT) eqn:E1.
  { apply Z.eqb_eq in E1. inversion H; subst. eexists. split; [reflexivity|].
    left. repeat split; auto. }
  destruct (ret =? WAIT_FAILED) eqn:E2.
  { apply Z.eqb_eq in E2. inversion H; subst. eexists. split; [reflexivity|].
    right; left. repeat split; auto. }
  apply Z.eqb_neq in E0, E1, E2.
  set (i := to_uint32 (ret - WAIT_OBJECT_0 - 1)) in *.
  assert (Hi : 0 <= i) by (apply Z.mod_pos_bound; lia).
  destruct (i <? 0) eqn:Eneg; [apply Z.ltb_lt in Eneg; lia|]. cbn [orb] in H.
  destruct (Z.of_nat (length reads) <=? i) eqn:Ehi.
  { apply Z.leb_le in Ehi. inversion H; subst. eexists. split; [reflexivity|].
    right; right; left. repeat split; auto. }
  apply Z.leb_gt in Ehi.
  destruct (reads !! Z.to_nat i) as [r|] eqn:Er.
  2:{ apply lookup_ge_None in Er. lia. }
  unfold AsyncRead_finish in H. cbn [ar_file ar_hEvent set_pending] in H.
  destruct (Win32.GetOverlappedResult os (ar_file r) (ar_hEvent r) false report w1)
    as [[[ok n] buf] w2].
  eexists. split.
  2:{ right; right; right. do 3 (split; [assumption|]).
      exists r, ok, n, (Win32.GetLastError os w2), buf.
      split; [reflexivity|].
      destruct ok; cbn [negb] in H; inversion H; subst; repeat split; reflexivity. }
  destruct ok; cbn [negb] in H; inversion H; subst; reflexivity.
Qed.
End IOFacts.

(** ** readReport and writeReport *)

Section IOTheorems.
Context {World : Type} (os : Win32.api World).

(** The phases of a call whose assertion holds. *)
Lemma readReport_phases dev report timeout w res report' calls w' :
  readReport os dev report timeout w = (res, report', calls, w') ->
  interrupted_event dev <> INVALID_HANDLE_VALUE ->
  exists out report1 reads calls1 w1 reads2 calls2 w2 calls3,
    issue_reads os (devices dev) report [] [interrupted_event dev] w
    = (out, report1, reads, calls1, w1)
    /\ match out with
       | IssueThrew e =>
           res = inl e /\ report' = report1 /\ reads2 = reads /\ calls2 = [] /\ w2 = w1
       | ReadNow n =>
           res = inr (to_int n) /\ report' = resize (Z.to_nat n) 0 report1
           /\ reads2 = reads /\ calls2 = [] /\ w2 = w1
       | AllPending hs =>
           wait_reads os hs timeout report1 reads w1 = (res, report', reads2, calls2, w2)
       end
    /\ destroy_reads os reads2 w2 = (calls3, w')
    /\ calls = calls1 ++ calls2 ++ calls3.
Proof.
  unfold readReport. intros H Hassert.
  apply Z.eqb_neq in Hassert. rewrite Hassert in H.
  destruct (issue_reads os (devices dev) report [] [interrupted_event dev] w)
    as [[[[out report1] reads] calls1] w1] eqn:E1.
  exists out, report1, reads, calls1, w1.
  destruct out as [hs|n|e].
  - destruct (wait_reads os hs timeout report1 reads w1)
      as [[[[res2 report2] reads2] calls2] w2] eqn:E2.
    destruct (destroy_reads os reads2 w2) as [calls3 w3] eqn:E3.
    inversion H; subst. exists reads2, calls2, w2, calls3. auto.
  - destruct (destroy_reads os reads w1) as [calls3 w3] eqn:E3.
    inversion H; subst. exists reads, [], w1, calls3.
    unfold report_read. simpl. auto 10.
  - destruct (destroy_reads os reads w1) as [calls3 w3] eqn:E3.
    inversion H; subst. exists reads, [], w1, calls3. auto 10.
Qed.

Lemma readReport_asserts dev report timeout w res report' calls w' :
  readReport os dev report timeout w = (res, report', calls, w') ->
  calls <> [] -> interrupted_event dev <> INVALID_HANDLE_VALUE.
Proof.
  unfold readReport. intros H Hne Heq. rewrite Heq, Z.eqb_refl in H.
  inversion H; subst. congruence.
Qed.

Lemma not_wait_of_read size c : is_ReadFile size c -> ~ is_Wait c.
Proof. destruct c; simpl; tauto. Qed.
Lemma not_wait_of_cancel c : is_CancelIoEx c -> ~ is_Wait c.
Proof. destruct c; simpl; tauto. Qed.

Lemma map_snd_dev_target devs : map snd (map dev_target devs) = map event devs.
Proof. induction devs as [|d devs IH]; simpl; [reflexivity | rewrite IH; reflexivity]. Qed.

(** A call that made a wait, taken apart: the reads on every fitting
    interface are pending, then the wait, then at most one query of a
    result, then the cancellations. *)
Lemma readReport_waited dev report timeout w res report' calls w'
    handles wait_all tmo ret err :
  readReport os dev report timeout w = (res, report', calls, w') ->
  WaitForMultipleObjects_call handles wait_all tmo ret err ∈ calls ->
  exists reads calls1 w1 reads2 rest w2 calls3,
    issue_reads os (devices dev) report [] [interrupted_event dev] w
    = (AllPending handles, report, reads, calls1, w1)
    /\ wait_reads os handles timeout report reads w1
       = (res, report', reads2,
          WaitForMultipleObjects_call handles wait_all tmo ret err :: rest, w2)
    /\ wait_all = false /\ tmo = wait_timeout timeout
    /\ Forall is_GetOverlappedResult rest
    /\ destroy_reads os reads2 w2 = (calls3, w')
    /\ calls = calls1 ++ (WaitForMultipleObjects_call handles wait_all tmo ret err :: rest) ++ calls3
    /\ handles = interrupted_event dev :: map event (filter (fits report) (devices dev))
    /\ map ar_target reads = map dev_target (filter (fits report) (devices dev))
    /\ Forall (fun r => pending r = true) reads.
Proof.
  intros H Hin.
  assert (Hassert : interrupted_event dev <> INVALID_HANDLE_VALUE).
  { eapply readReport_asserts; [exact H|]. intros ->. inversion Hin. }
  destruct (readReport_phases _ _ _ _ _ _ _ _ H Hassert)
    as (out & report1 & reads & calls1 & w1 & reads2 & calls2 & w2 & calls3
        & Hissue & Hout & Hdestroy & ->).
  pose proof (issue_reads_calls os _ _ _ _ _ _ _ _ _ _ Hissue) as (Hall1 & Hreads & _ & Hcase).
  pose proof (destroy_reads_calls os _ _ _ _ Hdestroy) as [Hall3 _].
  assert (Hin2 : WaitForMultipleObjects_call handles wait_all tmo ret err ∈ calls2).
  { apply elem_of_app in Hin as [Hin|Hin].
    - rewrite Forall_forall in Hall1. apply Hall1 in Hin. destruct Hin.
    - apply elem_of_app in Hin as [Hin|Hin]; [exact Hin|].
      rewrite Forall_forall in Hall3. apply Hall3 in Hin. destruct Hin. }
  destruct out as [hs|n|e].
  2:{ destruct Hout as (_ & _ & _ & -> & _). inversion Hin2. }
  2:{ destruct Hout as (_ & _ & _ & -> & _). inversion Hin2. }
  destruct Hcase as (Hpend & Hhs & Htargets & ->).
  pose proof (wait_reads_spec os _ _ _ _ _ _ _ _ _ _ Hout)
    as (ret0 & err0 & rest & -> & Hcases).
  assert (Hrest : Forall is_GetOverlappedResult rest).
  { destruct Hcases as [(_ & _ & _ & _ & ->) | [(_ & _ & _ & _ & ->)
      | [(_ & _ & _ & _ & _ & _ & _ & ->) | (_ & _ & _ & r & ok & n & err' & buf & _ & -> & _)]]];
      repeat constructor. }
  assert (Heq : WaitForMultipleObjects_call handles wait_all tmo ret err
                = WaitForMultipleObjects_call hs false (wait_timeout timeout) ret0 err0).
  { apply elem_of_cons in Hin2 as [Heq|Hin2]; [exact Heq|].
    rewrite Forall_forall in Hrest. apply Hrest in Hin2. destruct Hin2. }
  injection Heq as Eh Ea Et Er Ee. subst handles wait_all tmo ret err.
  exists reads, calls1, w1, reads2, rest, w2, calls3.
  simpl in Hreads. rewrite Hreads.
  rewrite Hreads in Hissue, Hout. rewrite Hhs. rewrite Hhs in Hissue, Hout.
  repeat split; try assumption; try reflexivity.
  - rewrite Htargets, map_snd_dev_target. reflexivity.
  - rewrite ar_target_read_of. exact Htargets.
  - apply pending_read_of. exact Hpend.
Qed.

Lemma lookup_map {A B} (f : A -> B) (l : list A) (i : nat) :
  map f l !! i = f <$> l !! i.
Proof.
  revert i. induction l as [|a l IH]; intros [|i]; simpl; try reflexivity. apply IH.
Qed.

Lemma to_int_small n : 0 <= n < 2^31 -> to_int n = n.
Proof.
  intros Hn. unfold to_int, to_uint32. rewrite Z.mod_small by lia.
  destruct (n <? 2^31) eqn:E; [reflexivity|]. apply Z.ltb_ge in E. lia.
Qed.

Lemma no_query_in calls1 (w : call) calls3 size :
  Forall (is_ReadFile size) calls1 -> is_Wait w -> Forall is_CancelIoEx calls3 ->
  Forall (fun c => ~ is_GetOverlappedResult c) (calls1 ++ [w] ++ calls3).
Proof.
  intros H1 Hw H3. apply Forall_app. split; [|apply Forall_app; split].
  - eapply Forall_impl; [exact H1|]. intros c; destruct c; simpl; tauto.
  - constructor; [|constructor]. destruct w; simpl in *; tauto.
  - eapply Forall_impl; [exact H3|]. intros c; destruct c; simpl; tauto.
Qed.

(** C1. When a call of [readReport] has made its wait: the wait set is
    the interrupt event followed by the event of every interface that
    fits, and a negative timeout is passed on as [INFINITE]; if the wait
    timed out, or the interrupt event was signaled, the call returns 0,
    leaves the buffer as it was and queries no result; if the event of an
    issued read was signaled, the call queries the result of that read
    without blocking and, when the query gives a count, resizes the buffer
    to that count and returns it. *)
Theorem readReport_wait_outcomes (dev : RawDevice) (report : list byte) (timeout : Z)
    (w : World) res report' calls w' handles wait_all tmo ret err :
  readReport os dev report timeout w = (res, report', calls, w') ->
  WaitForMultipleObjects_call handles wait_all tmo ret err ∈ calls ->
  handles = interrupted_event dev :: map event (filter (fits report) (devices dev))
  /\ wait_all = false
  /\ (timeout < 0 -> tmo = INFINITE)
  /\ (0 <= timeout -> tmo = to_uint32 timeout)
  /\ (ret = WAIT_TIMEOUT ->
      res = inr 0 /\ report' = report
      /\ Forall (fun c => ~ is_GetOverlappedResult c) calls)
  /\ (ret = WAIT_OBJECT_0 ->
      res = inr 0 /\ report' = report
      /\ Forall (fun c => ~ is_GetOverlappedResult c) calls)
  /\ (forall d,
        0 < ret < 2^32 -> ret <> WAIT_TIMEOUT -> ret <> WAIT_FAILED ->
        filter (fits report) (devices dev) !! Z.to_nat (ret - 1) = Some d ->
        handles !! Z.to_nat ret = Some (event d)
        /\ exists ok n err',
             GetOverlappedResult_call (file d) (event d) false ok n err' ∈ calls
             /\ (ok = true ->
                 res = inr (to_int n) /\ length report' = Z.to_nat n
                 /\ (0 <= n < 2^31 -> res = inr n))).
Proof.
  intros H Hin.
  destruct (readReport_waited _ _ _ _ _ _ _ _ _ _ _ _ _ H Hin)
    as (reads & calls1 & w1 & reads2 & rest & w2 & calls3
        & Hissue & Hwait & -> & -> & Hrest & Hdestroy & -> & Hhandles & Htargets & Hpend).
  pose proof (issue_reads_calls os _ _ _ _ _ _ _ _ _ _ Hissue) as (Hall1 & _).
  pose proof (destroy_reads_calls os _ _ _ _ Hdestroy) as [Hall3 _].
  pose proof (wait_reads_spec os _ _ _ _ _ _ _ _ _ _ Hwait)
    as (ret0 & err0 & rest0 & Heq & Hcases).
  inversion Heq; subst ret0 err0 rest0. clear Heq.
  split; [exact Hhandles|]. split; [reflexivity|].
  split; [intros Hneg; unfold wait_timeout; apply Z.ltb_lt in Hneg; rewrite Hneg; reflexivity|].
  split; [intros Hpos; unfold wait_timeout; apply Z.ltb_ge in Hpos; rewrite Hpos; reflexivity|].
  assert (Hquiet : (ret = WAIT_OBJECT_0 \/ ret = WAIT_TIMEOUT) ->
            res = inr 0 /\ report' = report
            /\ Forall (fun c => ~ is_GetOverlappedResult c)
                 (calls1 ++ (WaitForMultipleObjects_call handles false
                               (wait_timeout timeout) ret err :: rest) ++ calls3)).
  { intros Hret.
    destruct Hcases as [(_ & -> & -> & _ & ->) | [(-> & _) | [(N0 & N1 & _) | (N0 & N1 & _)]]].
    - split; [reflexivity|]. split; [reflexivity|].
      eapply (no_query_in calls1 _ calls3); [exact Hall1 | exact I | exact Hall3].
    - destruct Hret as [Hret|Hret]; discriminate Hret.
    - destruct Hret; contradiction.
    - destruct Hret; contradiction. }
  split; [intros Hret; apply Hquiet; right; exact Hret|].
  split; [intros Hret; apply Hquiet; left; exact Hret|].
  intros d Hrange Hnt Hnf Hd.
  assert (Hlen : length reads = length (filter (fits report) (devices dev))).
  { rewrite <- (length_map ar_target reads), Htargets, length_map. reflexivity. }
  assert (Hidx : to_uint32 (ret - WAIT_OBJECT_0 - 1) = ret - 1).
  { unfold to_uint32, WAIT_OBJECT_0. rewrite Z.mod_small by lia. lia. }
  split.
  { rewrite Hhandles. replace (Z.to_nat ret) with (S (Z.to_nat (ret - 1))) by lia.
    change ((interrupted_event dev :: map event (filter (fits report) (devices dev)))
              !! S (Z.to_nat (ret - 1)))
      with (map event (filter (fits report) (devices dev)) !! Z.to_nat (ret - 1)).
    rewrite lookup_map, Hd. reflexivity. }
  destruct Hcases as [([Hr|Hr] & _) | [(Hr & _)
    | [(_ & _ & _ & Hout & _) | (_ & _ & _ & r & ok & n & err' & buf & Hr & -> & _ & Hres)]]].
  - unfold WAIT_OBJECT_0 in Hr. lia.
  - contradiction.
  - contradiction.
  - rewrite Hidx in Hout. apply lookup_lt_Some in Hd. lia.
  - rewrite Hidx in Hr.
    assert (Ht : ar_target r = dev_target d).
    { assert (Hm : map ar_target reads !! Z.to_nat (ret - 1) = Some (ar_target r))
        by (rewrite lookup_map, Hr; reflexivity).
      rewrite Htargets, lookup_map, Hd in Hm. simpl in Hm. congruence. }
    unfold ar_target, dev_target in Ht. inversion Ht as [[Hf He]].
    exists ok, n, err'. split.
    + apply elem_of_app. right. apply elem_of_app. left.
      apply elem_of_cons. right. apply elem_of_cons. left. reflexivity.
    + intros ->. destruct Hres as [-> ->].
      split; [reflexivity|]. split; [apply length_resize|].
      intros Hn. rewrite to_int_small by exact Hn. reflexivity.
Qed.

(** C9. When the wait itself fails the call throws a [system_error] with
    the code [GetLastError] gives after the wait; when the wait returns a
    value that is neither the interrupt, nor a timeout, nor a failure and
    that names no handle of the wait set, the call throws "Unexpected
    return value from WaitForMultipleObject" and does not return 0. *)
Theorem readReport_wait_failures (dev : RawDevice) (report : list byte) (timeout : Z)
    (w : World) res report' calls w' handles wait_all tmo ret err :
  readReport os dev report timeout w = (res, report', calls, w') ->
  WaitForMultipleObjects_call handles wait_all tmo ret err ∈ calls ->
  (ret = WAIT_FAILED -> res = inl (system_error err "WaitForMultipleObject"))
  /\ (0 <= ret < 2^32 ->
      ret <> WAIT_OBJECT_0 -> ret <> WAIT_TIMEOUT -> ret <> WAIT_FAILED ->
      Z.of_nat (length handles) <= ret ->
      res = inl unexpected_wait /\ res <> inr 0).
Proof.
  intros H Hin.
  destruct (readReport_waited _ _ _ _ _ _ _ _ _ _ _ _ _ H Hin)
    as (reads & calls1 & w1 & reads2 & rest & w2 & calls3
        & Hissue & Hwait & -> & -> & Hrest & Hdestroy & -> & Hhandles & Htargets & Hpend).
  pose proof (wait_reads_spec os _ _ _ _ _ _ _ _ _ _ Hwait)
    as (ret0 & err0 & rest0 & Heq & Hcases).
  inversion Heq; subst ret0 err0 rest0. clear Heq.
  split.
  - intros ->.
    destruct Hcases as [([Hr|Hr] & _) | [(_ & -> & _) | [(_ & _ & N & _) | (_ & _ & N & _)]]];
      try discriminate Hr; try reflexivity; contradiction.
  - intros Hrange N0 N1 N2 Hlen.
    assert (Hl : length handles = S (length reads)).
    { rewrite Hhandles. cbn [length]. f_equal.
      rewrite <- (length_map ar_target reads), Htargets, !length_map. reflexivity. }
    assert (Hidx : to_uint32 (ret - WAIT_OBJECT_0 - 1) = ret - 1).
    { unfold to_uint32, WAIT_OBJECT_0 in *. rewrite Z.mod_small by lia. lia. }
    destruct Hcases as [([Hr|Hr] & _) | [(Hr & _)
      | [(_ & _ & _ & _ & -> & _) | (_ & _ & _ & r & ok & n & err' & buf & Hr & _)]]];
      try contradiction.
    + split; [reflexivity | discriminate].
    + rewrite Hidx in Hr. apply lookup_lt_Some in Hr. lia.
Qed.

(** C4. A report whose first byte is an id the router does not hold makes
    [writeReport] throw "Report ID not found."; no call is made and the
    world is left as it was. *)
Theorem writeReport_unknown_id (dev : RawDevice) (id : byte) (rest : list byte) (w : World) :
  reports dev !! id = None ->
  writeReport os dev (id :: rest) w = (inl report_id_not_found, [], w).
Proof. intros H. unfold writeReport. rewrite H. reflexivity. Qed.

(** ** The copy constructor *)

Lemma reopen_devices_spec others devs w res calls w' :
  reopen_devices os others devs w = (inr res, calls, w') ->
  exists new, res = devs ++ new
              /\ length new = length others
              /\ Forall (fun d => caps d = zero_caps) new.
Proof.
  revert devs w res calls w'. induction others as [|dev others IH]; intros devs w res calls w' H.
  - simpl in H. inversion H; subst. exists []. rewrite app_nil_r. repeat constructor.
  - cbn [reopen_devices] in H.
    destruct (Win32.ReOpenFile os (file dev) w) as [hdev w1].
    destruct (hdev =? INVALID_HANDLE_VALUE); [discriminate|].
    destruct (Win32.CreateEvent os true true w1) as [ev w2].
    destruct (ev =? INVALID_HANDLE_VALUE); [discriminate|].
    destruct (reopen_devices os others _ w2) as [[res2 calls2] w3] eqn:E.
    inversion H; subst. apply IH in E as (new & -> & Hlen & Hall).
    exists ({| file := hdev; event := ev; caps := zero_caps |} :: new).
    rewrite <- app_assoc. split; [reflexivity|].
    split; [simpl; rewrite Hlen; reflexivity|].
    constructor; [reflexivity | exact Hall].
Qed.

(** What the copy constructor leaves out: the copy has one record per
    interface of the original, but no capability summary and an empty
    router, so that it can write no report at all. *)
Lemma RawDevice_copy_spec other w clone calls w' :
  RawDevice_copy os other w = (inr clone, calls, w') ->
  length (devices clone) = length (devices other)
  /\ vendor_id clone = vendor_id other /\ product_id clone = product_id other
  /\ name clone = name other /\ report_desc clone = report_desc other
  /\ Forall (fun d => caps d = zero_caps) (devices clone)
  /\ reports clone = ∅
  /\ forall id rest w2,
       writeReport os clone (id :: rest) w2 = (inl report_id_not_found, [], w2).
Proof.
  unfold RawDevice_copy. intros H.
  destruct (reopen_devices os (devices other) [] w) as [[res calls1] w1] eqn:E.
  destruct res as [e|devs]; [discriminate|].
  destruct (Win32.CreateEvent os false false w1) as [ev w2].
  destruct (ev =? INVALID_HANDLE_VALUE); [discriminate|].
  inversion H; subst; simpl.
  apply reopen_devices_spec in E as (new & -> & Hlen & Hall). simpl.
  do 6 (split; [first [assumption | reflexivity]|]).
  split; [reflexivity|].
  intros id rest w3. rewrite lookup_empty. reflexivity.
Qed.
End IOTheorems.

(** C8, at a device the constructor builds. The original routes report id 1
    to interface A and knows the report lengths of its interfaces; its copy
    has the two interfaces, the identifiers, the name and the descriptor, but
    an empty router and zeroed capabilities: the write that the original
    sends to interface A throws "Report ID not found." on the copy, and a read
    into 8 bytes, which the original issues on interface A alone, is issued
    on both interfaces of the copy. *)
Theorem copy_of_device_cannot_write :
  let os := scripted (Example.quiet WAIT_TIMEOUT) in
  RawDevice_open 1 [Example.probe_A; Example.probe_B] 300 0 = inr Example.device_AB
  /\ reports Example.device_AB !! 1 = Some 100
  /\ map (fun d => InputReportByteLength (caps d)) (devices Example.device_AB) = [7; 16]
  /\ writeReport os Example.device_AB [1; 0; 0; 0; 0; 0; 0] 0
     = (inr 7, [WriteFile_call 100 [1; 0; 0; 0; 0; 0; 0] 7 0 true 7 0], 0)
  /\ omap read_target (snd (fst (readReport os Example.device_AB (repeat 0 8) 0 0)))
     = [(100, 101)]
  /\ exists clone calls,
       RawDevice_copy os Example.device_AB 0 = (inr clone, calls, 0)
       /\ map file (devices clone) = [1100; 1200]
       /\ vendor_id clone = vendor_id Example.device_AB
       /\ product_id clone = product_id Example.device_AB
       /\ name clone = name Example.device_AB
       /\ report_desc clone = report_desc Example.device_AB
       /\ reports clone !! 1 = None
       /\ map (fun d => InputReportByteLength (caps d)) (devices clone) = [0; 0]
       /\ writeReport os clone [1; 0; 0; 0; 0; 0; 0] 0 = (inl report_id_not_found, [], 0)
       /\ omap read_target (snd (fst (readReport os clone (repeat 0 8) 0 0)))
          = [(1100, 900); (1200, 900)].
Proof.
  cbv zeta.
  do 5 (split; [vm_compute; reflexivity|]).
  eexists _, _. split; [vm_compute; reflexivity|].
  repeat split; vm_compute; reflexivity.
Qed.

(** ** readReport: which reads are issued, and what becomes of them *)

Section Multiplexer.
Context {World : Type} (os : Win32.api World).

Lemma read_target_none_of (P : call -> Prop) (l : list call) :
  (forall c, P c -> read_target c = None) -> Forall P l -> omap read_target l = [].
Proof.
  intros HP. induction 1 as [|c l Hc _ IH]; [reflexivity|].
  change (omap read_target (c :: l))
    with (match read_target c with Some y => y :: omap read_target l
                                 | None => omap read_target l end).
  rewrite (HP _ Hc). exact IH.
Qed.

Lemma read_target_wait_query c :
  is_Wait c \/ is_GetOverlappedResult c -> read_target c = None.
Proof. destruct c; simpl; intros [[]|[]]; reflexivity. Qed.

Lemma read_target_cancel c : is_CancelIoEx c -> read_target c = None.
Proof. destruct c; simpl; intros []; reflexivity. Qed.

Lemma wait_reads_calls hs timeout report reads w res report' reads' calls w' :
  wait_reads os hs timeout report reads w = (res, report', reads', calls, w') ->
  Forall (fun c => is_Wait c \/ is_GetOverlappedResult c) calls
  /\ (reads' = reads
      \/ exists i r ok n err',
           reads !! i = Some r
           /\ reads' = <[i := set_pending false r]> reads
           /\ GetOverlappedResult_call (ar_file r) (ar_hEvent r) false ok n err' ∈ calls).
Proof.
  intros H. apply wait_reads_spec in H as (ret & err & rest & -> & Hcases).
  destruct Hcases as [(_ & _ & _ & -> & ->) | [(_ & _ & _ & -> & ->)
    | [(_ & _ & _ & _ & _ & _ & -> & ->) | (_ & _ & _ & r & ok & n & err' & buf & Hr & -> & -> & _)]]].
  - split; [repeat constructor; left; exact I | left; reflexivity].
  - split; [repeat constructor; left; exact I | left; reflexivity].
  - split; [repeat constructor; left; exact I | left; reflexivity].
  - split.
    + constructor; [left; exact I|]. constructor; [right; exact I | constructor].
    + right. exists (Z.to_nat (to_uint32 (ret - WAIT_OBJECT_0 - 1))), r, ok, n, err'.
      split; [exact Hr|]. split; [reflexivity|].
      apply elem_of_cons. right. apply elem_of_cons. left. reflexivity.
Qed.

(** The calls of [readReport], phase by phase. *)
Lemma readReport_calls dev report timeout w res report' calls w' :
  readReport os dev report timeout w = (res, report', calls, w') ->
  interrupted_event dev <> INVALID_HANDLE_VALUE ->
  exists out report1 reads calls1 w1 reads2 calls2 calls3,
    issue_reads os (devices dev) report [] [interrupted_event dev] w
    = (out, report1, reads, calls1, w1)
    /\ calls = calls1 ++ calls2 ++ calls3
    /\ Forall (is_ReadFile (to_uint32 (Z.of_nat (length report)))) calls1
    /\ Forall (fun c => is_Wait c \/ is_GetOverlappedResult c) calls2
    /\ Forall is_CancelIoEx calls3
    /\ reads = omap read_of calls1
    /\ omap read_target calls = omap read_target calls1
    /\ omap cancel_target calls3 = map ar_target (filter (fun r => pending r = true) reads2)
    /\ (reads2 = reads
        \/ exists i r ok n err',
             reads !! i = Some r
             /\ reads2 = <[i := set_pending false r]> reads
             /\ GetOverlappedResult_call (ar_file r) (ar_hEvent r) false ok n err' ∈ calls2)
    /\ match out with
       | AllPending _ => True
       | ReadNow n =>
           res = inr (to_int n) /\ report' = resize (Z.to_nat n) 0 report1 /\ calls2 = []
       | IssueThrew e => res = inl e /\ calls2 = []
       end.
Proof.
  intros H Hassert.
  destruct (readReport_phases os _ _ _ _ _ _ _ _ H Hassert)
    as (out & report1 & reads & calls1 & w1 & reads2 & calls2 & w2 & calls3
        & Hissue & Hout & Hdestroy & ->).
  pose proof (issue_reads_calls os _ _ _ _ _ _ _ _ _ _ Hissue) as (Hall1 & Hreads & _ & _).
  pose proof (destroy_reads_calls os _ _ _ _ Hdestroy) as [Hall3 Hcancel].
  assert (H2 : Forall (fun c => is_Wait c \/ is_GetOverlappedResult c) calls2
               /\ (reads2 = reads
                   \/ exists i r ok n err',
                        reads !! i = Some r
                        /\ reads2 = <[i := set_pending false r]> reads
                        /\ GetOverlappedResult_call (ar_file r) (ar_hEvent r)
                             false ok n err' ∈ calls2)).
  { destruct out as [hs|n|e].
    - eapply wait_reads_calls. exact Hout.
    - destruct Hout as (_ & _ & -> & -> & _). split; [constructor | left; reflexivity].
    - destruct Hout as (_ & _ & -> & -> & _). split; [constructor | left; reflexivity]. }
  destruct H2 as [Hall2 Hreads2].
  exists out, report1, reads, calls1, w1, reads2, calls2, calls3.
  split; [exact Hissue|]. split; [reflexivity|].
  do 3 (split; [assumption|]).
  split; [exact Hreads|].
  split.
  { rewrite !omap_app.
    rewrite (read_target_none_of _ calls2 read_target_wait_query Hall2).
    rewrite (read_target_none_of _ calls3 read_target_cancel Hall3).
    rewrite !app_nil_r. reflexivity. }
  split; [exact Hcancel|]. split; [exact Hreads2|].
  destruct out as [hs|n|e]; [exact I | |].
  - destruct Hout as (-> & -> & _ & -> & _). auto.
  - destruct Hout as (-> & _ & _ & -> & _). auto.
Qed.

Lemma NoWait_of (l : list call) (P : call -> Prop) :
  (forall c, P c -> ~ is_Wait c) -> Forall P l -> Forall (fun c => ~ is_Wait c) l.
Proof. intros HP H. eapply Forall_impl; [exact H | exact HP]. Qed.

(** C2, as the code has it. Reads are issued on interfaces that fit only, in
    the order of the interfaces and with the size of the buffer; every
    interface that fits gets its read unless an earlier read completed at
    once or failed; and a read that completes at once is the last one
    issued: the call makes no wait, cancels the reads still pending, resizes
    the buffer to the count and returns the count. *)
Theorem readReport_issues_reads (dev : RawDevice) (report : list byte) (timeout : Z)
    (w : World) res report' calls w' :
  readReport os dev report timeout w = (res, report', calls, w') ->
  omap read_target calls `prefix_of` map dev_target (filter (fits report) (devices dev))
  /\ (interrupted_event dev <> INVALID_HANDLE_VALUE ->
      (forall c, c ∈ calls -> read_target c <> None -> read_pending c = true) ->
      omap read_target calls = map dev_target (filter (fits report) (devices dev)))
  /\ (forall f sz e n err,
        ReadFile_call f sz e true n err ∈ calls ->
        sz = to_uint32 (Z.of_nat (length report))
        /\ Forall (fun c => ~ is_Wait c) calls
        /\ (exists pre cancels,
              calls = pre ++ ReadFile_call f sz e true n err :: cancels
              /\ Forall (fun c => read_pending c = true) pre
              /\ Forall is_CancelIoEx cancels)
        /\ res = inr (to_int n) /\ length report' = Z.to_nat n
        /\ (0 <= n < 2^31 -> res = inr n)).
Proof.
  intros H.
  destruct (decide (interrupted_event dev = INVALID_HANDLE_VALUE)) as [Hbad|Hassert].
  { unfold readReport in H. rewrite Hbad, Z.eqb_refl in H. inversion H; subst.
    split; [apply prefix_nil|]. split; [contradiction|].
    intros f sz e n err Hin. inversion Hin. }
  destruct (readReport_calls _ _ _ _ _ _ _ _ H Hassert)
    as (out & report1 & reads & calls1 & w1 & reads2 & calls2 & calls3
        & Hissue & -> & Hall1 & Hall2 & Hall3 & Hreads & Htargets & Hcancel & Hreads2 & Hout).
  pose proof (issue_reads_calls os _ _ _ _ _ _ _ _ _ _ Hissue) as (_ & _ & Hprefix & Hcase).
  split; [rewrite Htargets; exact Hprefix|].
  split.
  - intros _ Hpending. rewrite Htargets.
    destruct out as [hs|n|e].
    + destruct Hcase as (_ & _ & Hall & _). exact Hall.
    + destruct Hcase as (pre & f & sz & e & err & -> & _).
      assert (Hp : read_pending (ReadFile_call f sz e true n err) = true).
      { apply Hpending; [|discriminate].
        apply elem_of_app. left. apply elem_of_app. right. apply elem_of_cons. left. reflexivity. }
      discriminate Hp.
    + destruct Hcase as (pre & f & sz & e0 & n & err & -> & Herr & _).
      assert (Hp : read_pending (ReadFile_call f sz e0 false n err) = true).
      { apply Hpending; [|discriminate].
        apply elem_of_app. left. apply elem_of_app. right. apply elem_of_cons. left. reflexivity. }
      simpl in Hp. rewrite Herr in Hp. discriminate Hp.
  - intros f sz e n err Hin.
    assert (Hin1 : ReadFile_call f sz e true n err ∈ calls1).
    { apply elem_of_app in Hin as [Hin|Hin]; [exact Hin|].
      apply elem_of_app in Hin as [Hin|Hin].
      - rewrite Forall_forall in Hall2. apply Hall2 in Hin. destruct Hin as [[]|[]].
      - rewrite Forall_forall in Hall3. apply Hall3 in Hin. destruct Hin. }
    assert (Hsz : sz = to_uint32 (Z.of_nat (length report))).
    { rewrite Forall_forall in Hall1. apply Hall1 in Hin1. exact Hin1. }
    assert (Hnp : forall pre, Forall (fun c => read_pending c = true) pre ->
                    ~ ReadFile_call f sz e true n err ∈ pre).
    { intros pre Hpre Hin'. rewrite Forall_forall in Hpre. apply Hpre in Hin'.
      discriminate Hin'. }
    destruct out as [hs|n0|e0].
    + destruct Hcase as (Hpend & _). exfalso. exact (Hnp _ Hpend Hin1).
    + destruct Hcase as (pre & f0 & sz0 & e1 & err0 & -> & Hpre).
      destruct Hout as (-> & -> & ->).
      apply elem_of_app in Hin1 as [Hin1|Hin1]; [exfalso; exact (Hnp _ Hpre Hin1)|].
      apply list_elem_of_singleton in Hin1. inversion Hin1; subst f0 sz0 e1 n0 err0.
      split; [exact Hsz|].
      split.
      { apply Forall_app. split; [|apply Forall_app; split; [constructor|]].
        - eapply NoWait_of; [|exact Hall1]. apply not_wait_of_read.
        - eapply NoWait_of; [|exact Hall3]. apply not_wait_of_cancel. }
      split.
      { exists pre, calls3. rewrite <- app_assoc. simpl. auto. }
      split; [reflexivity|]. split; [apply length_resize|].
      intros Hn. rewrite to_int_small by exact Hn. reflexivity.
    + destruct Hcase as (pre & f0 & sz0 & e1 & n0 & err0 & -> & _ & _ & Hpre & _).
      apply elem_of_app in Hin1 as [Hin1|Hin1]; [exfalso; exact (Hnp _ Hpre Hin1)|].
      apply list_elem_of_singleton in Hin1. discriminate Hin1.
Qed.

Lemma lookup_read_of size calls k c :
  Forall (is_ReadFile size) calls -> calls !! k = Some c ->
  exists r, read_of c = Some r /\ omap read_of calls !! k = Some r.
Proof.
  intros Hall. revert k. induction Hall as [|c0 calls Hc0 _ IH]; intros k Hk.
  - inversion Hk.
  - destruct c0; try contradiction. rewrite read_of_cons.
    destruct k as [|k]; simpl in Hk.
    + inversion Hk; subst. eexists. split; reflexivity.
    + apply IH in Hk as (r & Hr & Hl). exists r. split; [exact Hr | exact Hl].
Qed.

(** C3, as the code has it. Every read that was issued and did not complete
    at once is, before the call returns, either the read whose result the
    call queried after the wait or the target of a [CancelIoEx]; the
    cancellations are the last calls that [readReport] makes, so nothing
    observes them before the call returns. *)
Theorem readReport_cancels_pending_reads (dev : RawDevice) (report : list byte)
    (timeout : Z) (w : World) res report' calls w' :
  readReport os dev report timeout w = (res, report', calls, w') ->
  exists body cancels,
    calls = body ++ cancels
    /\ Forall (fun c => ~ is_CancelIoEx c) body
    /\ Forall is_CancelIoEx cancels
    /\ forall f sz e n err,
         ReadFile_call f sz e false n err ∈ calls -> err = ERROR_IO_PENDING ->
         (f, e) ∈ omap cancel_target cancels
         \/ exists ok n' err',
              GetOverlappedResult_call f e false ok n' err' ∈ body.
Proof.
  intros H.
  destruct (decide (interrupted_event dev = INVALID_HANDLE_VALUE)) as [Hbad|Hassert].
  { unfold readReport in H. rewrite Hbad, Z.eqb_refl in H. inversion H; subst.
    exists [], []. split; [reflexivity|]. split; [constructor|]. split; [constructor|].
    intros f sz e n err Hin. inversion Hin. }
  destruct (readReport_calls _ _ _ _ _ _ _ _ H Hassert)
    as (out & report1 & reads & calls1 & w1 & reads2 & calls2 & calls3
        & Hissue & -> & Hall1 & Hall2 & Hall3 & Hreads & Htargets & Hcancel & Hreads2 & Hout).
  exists (calls1 ++ calls2), calls3.
  split; [rewrite app_assoc; reflexivity|].
  split.
  { apply Forall_app. split.
    - eapply Forall_impl; [exact Hall1|]. intros c; destruct c; simpl; tauto.
    - eapply Forall_impl; [exact Hall2|]. intros c; destruct c; simpl; tauto. }
  split; [exact Hall3|].
  intros f sz e n err Hin ->.
  assert (Hin1 : ReadFile_call f sz e false n ERROR_IO_PENDING ∈ calls1).
  { apply elem_of_app in Hin as [Hin|Hin]; [exact Hin|].
    apply elem_of_app in Hin as [Hin|Hin].
    - rewrite Forall_forall in Hall2. apply Hall2 in Hin. destruct Hin as [[]|[]].
    - rewrite Forall_forall in Hall3. apply Hall3 in Hin. destruct Hin. }
  apply list_elem_of_lookup in Hin1 as [k Hk].
  destruct (lookup_read_of _ _ _ _ Hall1 Hk) as (r0 & Hr0 & Hlk).
  simpl in Hr0. inversion Hr0; subst r0. clear Hr0.
  rewrite <- Hreads in Hlk.
  set (r0 := {| ar_file := f; ar_hEvent := e; pending := true |}) in *.
  assert (Hkept : r0 ∈ reads2 -> (f, e) ∈ omap cancel_target calls3).
  { intros Hr. rewrite Hcancel.
    change (f, e) with (ar_target r0). apply list_elem_of_In, in_map, list_elem_of_In.
    apply list_elem_of_filter. split; [reflexivity | exact Hr]. }
  destruct Hreads2 as [->|(i & r & ok & n' & err' & Hi & -> & Hq)].
  - left. apply Hkept. apply list_elem_of_lookup. exists k. exact Hlk.
  - destruct (decide (i = k)) as [->|Hne].
    + right. rewrite Hlk in Hi. inversion Hi; subst r.
      exists ok, n', err'. apply elem_of_app. right. exact Hq.
    + left. apply Hkept. apply list_elem_of_lookup. exists k.
      rewrite list_lookup_insert_ne by exact Hne. exact Hlk.
Qed.
End Multiplexer.

(** C2, as stated, fails: interface B fits the buffer of 16 bytes, but the
    read on interface A completes at once and no read is issued on B. *)
Lemma fitting_interface_without_read :
  Example.device_B ∈ devices Example.device_AB
  /\ fits Example.buffer16 Example.device_B
  /\ readReport (scripted Example.ready_A) Example.device_AB Example.buffer16 5 0
     = (inr 7, repeat 0xCD 7, [ReadFile_call 100 16 101 true 7 0], 0).
Proof.
  split; [|split].
  - apply list_elem_of_In. vm_compute. right. left. reflexivity.
  - vm_compute. discriminate.
  - vm_compute. reflexivity.
Qed.

(** C3, as stated, fails: after a timeout both reads are cancelled and the
    call returns at once; no call follows the cancellations, so none
    observes them. *)
Lemma cancellation_not_observed :
  readReport (scripted (Example.quiet WAIT_TIMEOUT)) Example.device_AB Example.buffer16 (-1) 0
  = (inr 0, Example.buffer16, Example.timed_out_calls, ERROR_IO_PENDING)
  /\ ~ cancellations_observed Example.timed_out_calls.
Proof.
  split; [vm_compute; reflexivity|].
  intros Hobs.
  destruct (Hobs 4%nat 200 201 true ERROR_IO_PENDING eq_refl) as (j & c & Hj & Hc & _).
  apply lookup_lt_Some in Hc. simpl in Hc. lia.
Qed.

(** C7, as stated, fails: with two report ids in the tables the buckets,
    concatenated, are not in the order of the merge.  The merge visits the
    data indices 0, 1, 2, 3; the capability of data index 2 has report id 2,
    so that the bucket of report id 1 holds the fields of indices 0, 1, 3 and
    the field of index 2 comes last. *)
Lemma concatenated_buckets_not_merged :
  let button_caps := [Example.button 1 0 1; Example.button 1 3 2] in
  let value_caps := [Example.value 1 1 0x30; Example.value 2 2 0x31] in
  Sorted by_index button_caps /\ Sorted by_index value_caps
  /\ visit_order button_caps value_caps
     = [inl (Example.button 1 0 1); inr (Example.value 1 1 0x30);
        inr (Example.value 2 2 0x31); inl (Example.button 1 3 2)]
  /\ concatenated (add_fields_by_index ReportID.Input button_caps value_caps [])
     = map field_of ([inl (Example.button 1 0 1); inr (Example.value 1 1 0x30);
                      inl (Example.button 1 3 2); inr (Example.value 2 2 0x31)]
                     : list AnyCap)
  /\ concatenated (add_fields_by_index ReportID.Input button_caps value_caps [])
     <> map field_of (visit_order button_caps value_caps).
Proof.
  cbv zeta.
  split; [repeat constructor; unfold by_index; simpl; lia|].
  split; [repeat constructor; unfold by_index; simpl; lia|].
  split; [vm_compute; reflexivity|].
  split; [vm_compute; reflexivity|].
  vm_compute. discriminate.
Qed.

(** ** The theorems at concrete devices *)

Lemma flags_complementary_pairs_witness :
  (Flags.isData 3 = true <-> Flags.isConstant 3 = false)
  /\ (Flags.isArray 3 = true <-> Flags.isVariable 3 = false).
Proof. exact (flags_complementary_pairs 3). Defined.

Lemma fields_merged_by_data_index_witness :
  let button_caps := [Example.button 1 0 1; Example.button 1 3 2] in
  let value_caps := [Example.value 1 1 0x30; Example.value 2 2 0x31] in
  Sorted by_index button_caps /\ Sorted by_index value_caps
  /\ field_count (add_fields_by_index ReportID.Input button_caps value_caps []) = 4%nat
  /\ Permutation (concatenated (add_fields_by_index ReportID.Input button_caps value_caps []))
                 (map field_of (visit_order button_caps value_caps)).
Proof.
  cbv zeta.
  assert (Hb : Sorted by_index [Example.button 1 0 1; Example.button 1 3 2]).
  { repeat constructor. unfold by_index. simpl. lia. }
  assert (Hv : Sorted by_index [Example.value 1 1 0x30; Example.value 2 2 0x31]).
  { repeat constructor. unfold by_index. simpl. lia. }
  split; [exact Hb|]. split; [exact Hv|].
  pose proof (fields_merged_by_data_index ReportID.Input _ _ Hb Hv)
    as (_ & _ & _ & _ & Hcount & _ & _ & _ & _ & Hperm & _).
  split; [exact Hcount | exact Hperm].
Defined.

Lemma report_id_single_handle_witness :
  RawDevice_open 1 [Example.probe_A; Example.probe_B] 300 0 = inr Example.device_AB
  /\ reports Example.device_AB !! to_uint8 1 = Some 100
  /\ RawDevice_open 1 [Example.probe_A; Example.probe_clash] 300 0 = inl same_report_id.
Proof.
  assert (H : RawDevice_open 1 [Example.probe_A; Example.probe_B] 300 0
              = inr Example.device_AB) by (vm_compute; reflexivity).
  split; [exact H|]. split.
  - refine (proj1 (proj1 (report_id_single_handle 1 _ 300 0) _ H)
              0%nat Example.device_A _ (ReportID.mk ReportID.Input 1) _ _ _).
    + vm_compute; reflexivity.
    + vm_compute; reflexivity.
    + apply list_elem_of_In. vm_compute. left. reflexivity.
  - refine (proj2 (report_id_single_handle 1 [Example.probe_A; Example.probe_clash] 300 0)
              [Example.probe_A] Example.probe_clash [] _ _ _ _
              (ReportID.mk ReportID.Input 1) 100 eq_refl _ _ _ _ _ _ _ _ _ _ _).
    + vm_compute; reflexivity.
    + reflexivity.
    + vm_compute; discriminate.
    + vm_compute; discriminate.
    + vm_compute; reflexivity.
    + reflexivity.
    + reflexivity.
    + vm_compute; reflexivity.
    + apply list_elem_of_In. vm_compute. left. reflexivity.
    + vm_compute; reflexivity.
    + vm_compute; discriminate.
Defined.

Lemma unopened_interface_is_skipped_witness :
  CreateFile Example.probe_locked = INVALID_HANDLE_VALUE
  /\ RawDevice_open 1 ([Example.probe_A] ++ Example.probe_locked :: [Example.probe_B]) 300 0
     = RawDevice_open 1 ([Example.probe_A] ++ [Example.probe_B]) 300 0.
Proof.
  split; [reflexivity|].
  exact (proj1 (unopened_interface_is_skipped 1 [Example.probe_A] [Example.probe_B]
                  Example.probe_locked 300 0) (or_intror eq_refl)).
Defined.

Lemma writeReport_unknown_id_witness :
  reports Example.device_AB !! 3 = None
  /\ writeReport (scripted (Example.quiet WAIT_TIMEOUT)) Example.device_AB [3; 1; 2] 0
     = (inl report_id_not_found, [], 0).
Proof.
  assert (H : reports Example.device_AB !! 3 = None) by (vm_compute; reflexivity).
  split; [exact H|].
  exact (writeReport_unknown_id (scripted (Example.quiet WAIT_TIMEOUT))
           Example.device_AB 3 [1; 2] 0 H).
Defined.

Lemma readReport_wait_outcomes_witness :
  readReport (scripted (Example.quiet 2)) Example.device_AB Example.buffer16 (-1) 0
  = (inr 16, repeat 0xAB 16, Example.completed_calls, ERROR_IO_PENDING)
  /\ WaitForMultipleObjects_call [300; 101; 201] false INFINITE 2 ERROR_IO_PENDING
     ∈ Example.completed_calls
  /\ [300; 101; 201]
     = interrupted_event Example.device_AB
       :: map event (filter (fits Example.buffer16) (devices Example.device_AB))
  /\ (-1 < 0 -> INFINITE = INFINITE).
Proof.
  assert (H1 : readReport (scripted (Example.quiet 2)) Example.device_AB Example.buffer16 (-1) 0
               = (inr 16, repeat 0xAB 16, Example.completed_calls, ERROR_IO_PENDING))
    by (vm_compute; reflexivity).
  assert (H2 : WaitForMultipleObjects_call [300; 101; 201] false INFINITE 2 ERROR_IO_PENDING
               ∈ Example.completed_calls) by (repeat constructor).
  split; [exact H1|]. split; [exact H2|].
  pose proof (readReport_wait_outcomes _ _ _ _ _ _ _ _ _ _ _ _ _ _ H1 H2) as (Hh & _ & Ht & _).
  split; [exact Hh | exact Ht].
Defined.

Lemma readReport_wait_failures_witness :
  readReport (scripted (Example.quiet WAIT_FAILED)) Example.device_AB Example.buffer16 5 0
  = (inl (system_error 6 "WaitForMultipleObject"), Example.buffer16, Example.failed_calls, 6)
  /\ WaitForMultipleObjects_call [300; 101; 201] false 5 WAIT_FAILED 6 ∈ Example.failed_calls
  /\ (WAIT_FAILED = WAIT_FAILED ->
      inl (system_error 6 "WaitForMultipleObject")
      = (inl (system_error 6 "WaitForMultipleObject") : exn + Z)).
Proof.
  assert (H1 : readReport (scripted (Example.quiet WAIT_FAILED)) Example.device_AB
                 Example.buffer16 5 0
               = (inl (system_error 6 "WaitForMultipleObject"), Example.buffer16,
                  Example.failed_calls, 6)) by (vm_compute; reflexivity).
  assert (H2 : WaitForMultipleObjects_call [300; 101; 201] false 5 WAIT_FAILED 6
               ∈ Example.failed_calls) by (repeat constructor).
  split; [exact H1|]. split; [exact H2|].
  exact (proj1 (readReport_wait_failures _ _ _ _ _ _ _ _ _ _ _ _ _ _ H1 H2)).
Defined.

Lemma readReport_issues_reads_witness :
  readReport (scripted Example.ready_A) Example.device_AB Example.buffer16 5 0
  = (inr 7, repeat 0xCD 7, [ReadFile_call 100 16 101 true 7 0], 0)
  /\ omap read_target [ReadFile_call 100 16 101 true 7 0]
     `prefix_of` map dev_target (filter (fits Example.buffer16) (devices Example.device_AB)).
Proof.
  assert (H : readReport (scripted Example.ready_A) Example.device_AB Example.buffer16 5 0
              = (inr 7, repeat 0xCD 7, [ReadFile_call 100 16 101 true 7 0], 0))
    by (vm_compute; reflexivity).
  split; [exact H|].
  exact (proj1 (readReport_issues_reads _ _ _ _ _ _ _ _ _ H)).
Defined.

Lemma readReport_cancels_pending_reads_witness :
  readReport (scripted (Example.quiet WAIT_TIMEOUT)) Example.device_AB Example.buffer16 (-1) 0
  = (inr 0, Example.buffer16, Example.timed_out_calls, ERROR_IO_PENDING)
  /\ exists body cancels,
       Example.timed_out_calls = body ++ cancels
       /\ Forall (fun c => ~ is_CancelIoEx c) body
       /\ Forall is_CancelIoEx cancels
       /\ forall f sz e n err,
            ReadFile_call f sz e false n err ∈ Example.timed_out_calls ->
            err = ERROR_IO_PENDING ->
            (f, e) ∈ omap cancel_target cancels
            \/ exists ok n' err', GetOverlappedResult_call f e false ok n' err' ∈ body.
Proof.
  assert (H : readReport (scripted (Example.quiet WAIT_TIMEOUT)) Example.device_AB
                Example.buffer16 (-1) 0
              = (inr 0, Example.buffer16, Example.timed_out_calls, ERROR_IO_PENDING))
    by (vm_compute; reflexivity).
  split; [exact H|].
  exact (readReport_cancels_pending_reads _ _ _ _ _ _ _ _ _ H).
Defined.

(** * Further properties *)

(** ** ReportID and Flags *)

Lemma eqb_eq (a b : ReportID.t) : ReportID.eqb a b = true <-> a = b.
Proof.
  unfold ReportID.eqb. rewrite andb_true_iff, !Z.eqb_eq. split.
  - intros [Ht Hi]. destruct a as [ta ia], b as [tb ib]; simpl in *. subst.
    destruct ta, tb; simpl in Ht; try discriminate; reflexivity.
  - intros ->. split; reflexivity.
Qed.

(** X1. [operator<] is a strict total order on report ids, with [Input]
    before [Output] before [Feature] and then by number; [operator==] holds
    exactly for equal ids, [operator!=] is its negation, and of [a < b],
    [a == b], [b < a] exactly one holds. *)
Theorem ReportID_strict_total_order (a b c : ReportID.t) :
  (ReportID.ltb a b = true <->
   match ReportID.type a, ReportID.type b with
   | ReportID.Input, ReportID.Input
   | ReportID.Output, ReportID.Output
   | ReportID.Feature, ReportID.Feature => ReportID.id a < ReportID.id b
   | ReportID.Input, _ | ReportID.Output, ReportID.Feature => True
   | _, _ => False
   end)
  /\ ReportID.ltb a a = false
  /\ (ReportID.ltb a b = true -> ReportID.ltb b c = true -> ReportID.ltb a c = true)
  /\ (ReportID.eqb a b = true <-> a = b)
  /\ ReportID_neb a b = negb (ReportID.eqb a b)
  /\ (ReportID.ltb a b = true /\ ReportID.eqb a b = false /\ ReportID.ltb b a = false
      \/ ReportID.ltb a b = false /\ ReportID.eqb a b = true /\ ReportID.ltb b a = false
      \/ ReportID.ltb a b = false /\ ReportID.eqb a b = false /\ ReportID.ltb b a = true).
Proof.
  split.
  { unfold ReportID.ltb.
    destruct (ReportID.type a), (ReportID.type b); cbn;
      rewrite ?Z.ltb_lt; intuition (try discriminate; try exact I). }
  split; [apply ltb_irrefl|]. split; [apply ltb_trans|]. split; [apply eqb_eq|].
  split; [reflexivity|].
  destruct (ReportID.ltb a b) eqn:Hab.
  - left. split; [reflexivity|]. split; [|apply ltb_asym; exact Hab].
    destruct (ReportID.eqb a b) eqn:E; [|reflexivity].
    apply eqb_eq in E. subst. rewrite ltb_irrefl in Hab. discriminate.
  - destruct (ReportID.ltb b a) eqn:Hba.
    + right; right. split; [reflexivity|]. split; [|reflexivity].
      destruct (ReportID.eqb a b) eqn:E; [|reflexivity].
      apply eqb_eq in E. subst. rewrite ltb_irrefl in Hba. discriminate.
    + right; left. split; [reflexivity|]. split; [|reflexivity].
      apply eqb_eq. apply ltb_total; assumption.
Qed.

Lemma ReportID_strict_total_order_witness :
  ReportID.ltb (ReportID.mk ReportID.Input 9) (ReportID.mk ReportID.Feature 2) = true
  /\ ReportID.ltb (ReportID.mk ReportID.Output 3) (ReportID.mk ReportID.Output 200) = true
  /\ ReportID.ltb (ReportID.mk ReportID.Output 200) (ReportID.mk ReportID.Output 3) = false.
Proof.
  pose proof (ReportID_strict_total_order (ReportID.mk ReportID.Input 9)
                (ReportID.mk ReportID.Output 200) (ReportID.mk ReportID.Feature 2))
    as (_ & _ & Htrans & _).
  split; [apply Htrans; reflexivity|].
  pose proof (ReportID_strict_total_order (ReportID.mk ReportID.Output 3)
                (ReportID.mk ReportID.Output 200) (ReportID.mk ReportID.Output 3))
    as (Horder & _ & _ & _ & _ & Hone).
  assert (Hlt : ReportID.ltb (ReportID.mk ReportID.Output 3) (ReportID.mk ReportID.Output 200)
                = true) by (apply Horder; cbn; lia).
  split; [exact Hlt|].
  destruct Hone as [(_ & _ & H) | [(H & _) | (H & _)]]; [exact H | |];
    rewrite Hlt in H; discriminate.
Defined.

Lemma land_bit (bits : Z) (n : Z) :
  0 <= n -> negb (Z.land bits (Z.shiftl 1 n) =? 0) = Z.testbit bits n.
Proof.
  intros Hn. destruct (Z.testbit bits n) eqn:Hb.
  - apply negb_true_iff, Z.eqb_neq. intros H0.
    assert (Ht : Z.testbit (Z.land bits (Z.shiftl 1 n)) n = true).
    { rewrite Z.land_spec, Hb, Z.shiftl_spec by lia. rewrite Z.sub_diag. reflexivity. }
    rewrite H0, Z.bits_0 in Ht. discriminate.
  - apply negb_false_iff, Z.eqb_eq. apply Z.bits_inj'. intros k Hk.
    rewrite Z.land_spec, Z.bits_0, Z.shiftl_spec by lia.
    destruct (Z.eq_dec k n) as [->|Hne].
    + rewrite Hb. reflexivity.
    + replace (Z.testbit 1 (k - n)) with false; [apply andb_false_r|].
      symmetry. destruct (Z.lt_ge_cases (k - n) 0) as [Hlt|Hge].
      * apply Z.testbit_neg_r. exact Hlt.
      * change 1 with (2 ^ 0). apply Z.pow2_bits_false. lia.
Qed.

(** X2. The four projections read one bit each: [isConstant] is bit 0 of
    [bits] and [isVariable] is bit 1, whatever the other bits are. *)
Theorem flags_read_one_bit (bits : Z) :
  Flags.isConstant bits = Z.testbit bits 0
  /\ Flags.isData bits = negb (Z.testbit bits 0)
  /\ Flags.isVariable bits = Z.testbit bits 1
  /\ Flags.isArray bits = negb (Z.testbit bits 1).
Proof.
  unfold Flags.isConstant, Flags.isData, Flags.isVariable, Flags.isArray,
    Flags.to_bool, Flags.Data_Constant, Flags.Array_Variable.
  rewrite !land_bit by lia. auto.
Qed.

(** ** Usage codes *)

Lemma usage_code_sum (page usage_ : Z) :
  0 <= page < 2^16 -> 0 <= usage_ < 2^16 ->
  usage_code page usage_ = page * 2^16 + usage_.
Proof.
  intros Hp Hu. unfold usage_code, to_uint32.
  rewrite (Z.mod_small page) by lia.
  rewrite Z.shiftl_mul_pow2 by lia.
  rewrite Z.mod_small by lia.
  assert (Hland : Z.land (page * 2^16) usage_ = 0).
  { apply Z.bits_inj'. intros k Hk. rewrite Z.land_spec, Z.bits_0.
    destruct (Z.lt_ge_cases k 16) as [Hlt|Hge].
    - rewrite <- Z.shiftl_mul_pow2 by lia. rewrite Z.shiftl_spec_low by lia. reflexivity.
    - rewrite <- (Z.mod_small usage_ (2^16)) by lia.
      rewrite Z.mod_pow2_bits_high by lia. apply andb_false_r. }
  rewrite <- (Z.lxor_lor _ _ Hland). symmetry. apply Z.add_nocarry_lxor. exact Hland.
Qed.

Lemma usage_code_decode (page usage_ : Z) :
  0 <= page < 2^16 -> 0 <= usage_ < 2^16 ->
  Z.shiftr (usage_code page usage_) 16 = page
  /\ Z.land (usage_code page usage_) 0xFFFF = usage_
  /\ 0 <= usage_code page usage_ < 2^32.
Proof.
  intros Hp Hu. rewrite usage_code_sum by assumption.
  split; [|split].
  - rewrite Z.shiftr_div_pow2 by lia. rewrite Z.div_add_l by lia.
    rewrite Z.div_small by lia. lia.
  - change 0xFFFF with (Z.ones 16). rewrite Z.land_ones by lia.
    rewrite Z.add_comm, Z.mod_add by lia. apply Z.mod_small. lia.
  - lia.
Qed.

(** X3. A field keeps the bit field of its capability as its flags, and its
    usages can be read back: for a page and usages of 16 bits, a range
    capability gives a [UsageRange] whose two ends decode (high half, low
    half) to the page with the first and the last usage, in the same order,
    and any other capability gives a list of the one usage, on the page. *)
Theorem field_of_decodes {C : Type} `{Cap C} (cap : C) :
  0 <= UsagePage cap < 2^16 ->
  0 <= Range_UsageMin cap < 2^16 -> 0 <= Range_UsageMax cap < 2^16 ->
  0 <= NotRange_Usage cap < 2^16 ->
  flags (field_of cap) = BitField cap
  /\ match usages (field_of cap) with
     | UsageRange first last =>
         IsRange cap = true
         /\ Z.shiftr first 16 = UsagePage cap /\ Z.land first 0xFFFF = Range_UsageMin cap
         /\ Z.shiftr last 16 = UsagePage cap /\ Z.land last 0xFFFF = Range_UsageMax cap
         /\ (Range_UsageMin cap <= Range_UsageMax cap <-> first <= last)
     | UsageList l =>
         IsRange cap = false
         /\ exists u, l = [u] /\ Z.shiftr u 16 = UsagePage cap
                      /\ Z.land u 0xFFFF = NotRange_Usage cap
     end.
Proof.
  intros Hp Hmin Hmax Hu. split; [reflexivity|].
  unfold field_of. cbn [usages]. destruct (IsRange cap).
  - destruct (usage_code_decode _ _ Hp Hmin) as (H1 & H2 & _).
    destruct (usage_code_decode _ _ Hp Hmax) as (H3 & H4 & _).
    do 5 (split; [first [reflexivity | assumption]|]).
    rewrite !usage_code_sum by assumption. lia.
  - split; [reflexivity|]. eexists. split; [reflexivity|].
    destruct (usage_code_decode _ _ Hp Hu) as (H1 & H2 & _). split; assumption.
Qed.

Lemma field_of_decodes_witness :
  flags (field_of (Example.button 1 0 5)) = 2
  /\ usages (field_of (Example.button 1 0 5)) = UsageList [0x90005].
Proof.
  pose proof (field_of_decodes (Example.button 1 0 5)) as H.
  split.
  - refine (proj1 (H _ _ _ _)); simpl; lia.
  - reflexivity.
Defined.

(** ** Construction: what a successful iteration leaves *)

Lemma add_report_types_cons p entry entries m :
  add_report_types p (entry :: entries) m
  = (m' ← add_report_type p m entry; add_report_types p entries m').
Proof. reflexivity. Qed.

Lemma add_report_types_nil p m : add_report_types p [] m = inr m.
Proof. reflexivity. Qed.

Lemma route_reports_cons hdev id ids r :
  route_reports hdev (id :: ids) r
  = match r !! to_uint8 (ReportID.id id) with
    | None => route_reports hdev ids (<[to_uint8 (ReportID.id id) := hdev]> r)
    | Some h =>
        if negb (h =? hdev) then inl same_report_id else route_reports hdev ids r
    end.
Proof. reflexivity. Qed.

Lemma vector_of_length {T} (zero : T) count written :
  length (vector_of zero count written) = Z.to_nat count.
Proof.
  unfold vector_of. rewrite length_firstn, length_app, repeat_length. lia.
Qed.

Lemma add_fields_by_index_count rt bs vs m :
  field_count (add_fields_by_index rt bs vs m)
  = (field_count m + (length bs + length vs))%nat.
Proof.
  rewrite add_fields_by_index_visit, field_count_fold, visit_order_length. reflexivity.
Qed.

Lemma add_report_type_inr p m rt bc vc m' :
  add_report_type p m (rt, bc, vc) = inr m' ->
  m' = add_fields_by_index rt
         (vector_of zero_button_caps bc (snd (HidP_GetButtonCaps p rt)))
         (vector_of zero_value_caps vc (snd (HidP_GetValueCaps p rt))) m
  /\ field_count m' = (field_count m + (Z.to_nat bc + Z.to_nat vc))%nat.
Proof.
  unfold add_report_type. intros H.
  destruct ((0 <? _) && negb (fst (HidP_GetButtonCaps p rt))); [discriminate|].
  destruct ((0 <? _) && negb (fst (HidP_GetValueCaps p rt))); [discriminate|].
  inversion H; subst. split; [reflexivity|].
  rewrite add_fields_by_index_count, !vector_of_length. reflexivity.
Qed.

Lemma add_report_type_inl p m entry e :
  add_report_type p m entry = inl e ->
  e = runtime_error "HidP_GetButtonCaps failed" \/ e = runtime_error "HidP_GetValueCaps failed".
Proof.
  destruct entry as [[rt bc] vc]. unfold add_report_type. intros H.
  destruct ((0 <? _) && negb (fst (HidP_GetButtonCaps p rt))); [inversion H; auto|].
  destruct ((0 <? _) && negb (fst (HidP_GetValueCaps p rt))); [inversion H; auto|].
  discriminate.
Qed.

Lemma add_report_types_inl p entries m e :
  add_report_types p entries m = inl e ->
  e = runtime_error "HidP_GetButtonCaps failed" \/ e = runtime_error "HidP_GetValueCaps failed".
Proof.
  revert m. induction entries as [|entry entries IH]; intros m H.
  - discriminate.
  - rewrite add_report_types_cons in H.
    destruct (add_report_type p m entry) as [e1|m1] eqn:E1.
    + inversion H; subst. eapply add_report_type_inl. exact E1.
    + eapply IH. exact H.
Qed.

Lemma add_report_types_count p c m :
  add_report_types p (report_types c) [] = inr m -> field_count m = capability_count c.
Proof.
  unfold report_types, capability_count. intros H.
  rewrite add_report_types_cons in H.
  destruct (add_report_type p [] _) as [e|m1] eqn:E1; [discriminate|].
  apply add_report_type_inr in E1 as [_ E1].
  cbn [mbind exn_bind] in H. rewrite add_report_types_cons in H.
  destruct (add_report_type p m1 _) as [e|m2] eqn:E2; [discriminate|].
  apply add_report_type_inr in E2 as [_ E2].
  cbn [mbind exn_bind] in H. rewrite add_report_types_cons in H.
  destruct (add_report_type p m2 _) as [e|m3] eqn:E3; [discriminate|].
  apply add_report_type_inr in E3 as [_ E3].
  cbn [mbind exn_bind] in H. rewrite add_report_types_nil in H.
  inversion H; subst. rewrite E3, E2, E1. unfold field_count. simpl. lia.
Qed.

Lemma route_reports_inl hdev ids r e :
  route_reports hdev ids r = inl e -> e = same_report_id.
Proof.
  revert r. induction ids as [|id ids IH]; intros r H.
  - discriminate.
  - rewrite route_reports_cons in H.
    destruct (r !! to_uint8 (ReportID.id id)) as [h|].
    + destruct (negb (h =? hdev)); [inversion H; reflexivity | eapply IH; exact H].
    + eapply IH; exact H.
Qed.

Lemma route_reports_range hdev ids r r' k h :
  route_reports hdev ids r = inr r' -> r' !! k = Some h ->
  r !! k = Some h \/ (h = hdev /\ exists id, id ∈ ids /\ to_uint8 (ReportID.id id) = k).
Proof.
  revert r. induction ids as [|id ids IH]; intros r H Hk.
  - inversion H; subst. left. exact Hk.
  - rewrite route_reports_cons in H.
    destruct (r !! to_uint8 (ReportID.id id)) as [h0|] eqn:E.
    + destruct (negb (h0 =? hdev)); [discriminate|].
      destruct (IH _ H Hk) as [Hold|(-> & id' & Hin & Hid)]; [left; exact Hold|].
      right. split; [reflexivity|]. exists id'. split; [|exact Hid].
      apply elem_of_cons. right. exact Hin.
    + destruct (IH _ H Hk) as [Hold|(-> & id' & Hin & Hid)].
      * destruct (decide (to_uint8 (ReportID.id id) = k)) as [Heq|Hne].
        -- subst k. rewrite lookup_insert_eq in Hold. inversion Hold; subst.
           right. split; [reflexivity|]. exists id. split; [|reflexivity].
           apply elem_of_cons. left. reflexivity.
        -- rewrite lookup_insert_ne in Hold by exact Hne. left. exact Hold.
      * right. split; [reflexivity|]. exists id'. split; [|exact Hid].
        apply elem_of_cons. right. exact Hin.
Qed.

(** A successful iteration on an interface that opens, in full. *)
Lemma open_interface_opened parent_inst p b b' :
  opened parent_inst p ->
  open_interface parent_inst p b = inr b' ->
  exists b1 c m r,
    CreateEvent p <> INVALID_HANDLE_VALUE
    /\ read_attributes p b = inr b1
    /\ HidD_GetPreparsedData p = true
    /\ HidP_GetCaps p = Some c
    /\ add_report_types p (report_types c) [] = inr m
    /\ route_reports (CreateFile p) (map fst m) (reports (built b1)) = inr r
    /\ first b' = first b1
    /\ devices (built b')
       = devices (built b1) ++ [ {| file := CreateFile p; event := CreateEvent p; caps := c |} ]
    /\ reports (built b') = r
    /\ vendor_id (built b') = vendor_id (built b1)
    /\ product_id (built b') = product_id (built b1)
    /\ name (built b') = name (built b1)
    /\ interrupted_event (built b') = interrupted_event (built b1)
    /\ collections (report_desc (built b'))
       = collections (report_desc (built b1))
         ++ [ ReportCollection.mk ReportCollection.Physical
                (usage_code (caps_UsagePage c) (caps_Usage c)) m ].
Proof.
  intros [Hsel HF]. unfold open_interface, selected in *. intros H.
  apply andb_true_iff in Hsel as [Hs1 Hs2]. rewrite Hs1, Hs2 in H. cbn [negb orb] in H.
  apply Z.eqb_neq in HF. rewrite HF in H.
  destruct (CreateEvent p =? INVALID_HANDLE_VALUE) eqn:HE; [discriminate|].
  apply Z.eqb_neq in HE.
  destruct (read_attributes p b) as [e|b1] eqn:EA; cbn [mbind exn_bind] in H; [discriminate|].
  destruct (HidD_GetPreparsedData p); cbn [negb] in H; [|discriminate].
  destruct (HidP_GetCaps p) as [c|]; [|discriminate].
  destruct (add_report_types p (report_types c) []) as [e|m] eqn:EM;
    cbn [mbind exn_bind] in H; [discriminate|].
  destruct (route_reports (CreateFile p) (map fst m) (reports (built b1))) as [e|r] eqn:ER;
    cbn [mbind exn_bind] in H; [discriminate|].
  inversion H; subst b'. clear H.
  exists b1, c, m, r. cbn. repeat split; first [assumption | reflexivity].
Qed.

Lemma not_opened_skip parent_inst p :
  ~ opened parent_inst p ->
  selected parent_inst p = false \/ CreateFile p = INVALID_HANDLE_VALUE.
Proof.
  unfold opened. intros H. destruct (selected parent_inst p); [|left; reflexivity].
  right. destruct (decide (CreateFile p = INVALID_HANDLE_VALUE)) as [E|N]; [exact E|].
  exfalso. apply H. split; [reflexivity | exact N].
Qed.

(** Induction over the loop: a property of the device being built and of
    the interfaces opened so far that each iteration keeps. *)
Lemma open_interfaces_ind (I : list Probe -> Building -> Prop) parent_inst :
  (forall seen p b b',
     I seen b -> opened parent_inst p -> open_interface parent_inst p b = inr b' ->
     I (seen ++ [p]) b') ->
  forall probes seen b b',
    I seen b -> open_interfaces parent_inst probes b = inr b' ->
    I (seen ++ filter (opened parent_inst) probes) b'.
Proof.
  intros Hstep. induction probes as [|p probes IH]; intros seen b b' HI H.
  - inversion H; subst. rewrite app_nil_r. exact HI.
  - cbn [open_interfaces] in H.
    destruct (open_interface parent_inst p b) as [e|b1] eqn:E;
      cbn [mbind exn_bind] in H; [discriminate|].
    rewrite filter_cons. destruct (decide (opened parent_inst p)) as [Ho|Hn].
    + replace (seen ++ p :: filter (opened parent_inst) probes)
        with ((seen ++ [p]) ++ filter (opened parent_inst) probes)
        by (rewrite <- app_assoc; reflexivity).
      apply (IH _ b1); [|exact H]. eapply Hstep; eassumption.
    + rewrite (open_interface_skip _ _ _ (not_opened_skip _ _ Hn)) in E.
      inversion E; subst b1. apply (IH _ b); assumption.
Qed.

Lemma RawDevice_open_built parent_inst probes interrupt interrupt_error dev
    (I : list Probe -> Building -> Prop) :
  (forall seen p b b',
     I seen b -> opened parent_inst p -> open_interface parent_inst p b = inr b' ->
     I (seen ++ [p]) b') ->
  I [] {| first := true; built := empty_device |} ->
  RawDevice_open parent_inst probes interrupt interrupt_error = inr dev ->
  exists b, I (filter (opened parent_inst) probes) b
            /\ devices dev = devices (built b)
            /\ reports dev = reports (built b)
            /\ report_desc dev = report_desc (built b)
            /\ vendor_id dev = vendor_id (built b)
            /\ product_id dev = product_id (built b)
            /\ name dev = name (built b)
            /\ interrupted_event dev = interrupt
            /\ interrupt <> INVALID_HANDLE_VALUE.
Proof.
  intros Hstep Hinit H. unfold RawDevice_open in H.
  destruct (open_interfaces parent_inst probes _) as [e|b] eqn:E;
    cbn [mbind exn_bind] in H; [discriminate|].
  destruct (interrupt =? INVALID_HANDLE_VALUE) eqn:Ei; [discriminate|].
  apply Z.eqb_neq in Ei. inversion H; subst dev. clear H.
  exists b. split.
  - exact (open_interfaces_ind I parent_inst Hstep probes [] _ b Hinit E).
  - cbn. repeat split; first [assumption | reflexivity].
Qed.

Lemma open_records (parent_inst : Z) (probes : list Probe)
    (interrupt : HANDLE) (interrupt_error : DWORD) (dev : RawDevice) :
  RawDevice_open parent_inst probes interrupt interrupt_error = inr dev ->
  map (fun d => (file d, event d, Some (caps d))) (devices dev)
  = map (fun p => (CreateFile p, CreateEvent p, HidP_GetCaps p))
        (filter (opened parent_inst) probes)
  /\ Forall (fun d => file d <> INVALID_HANDLE_VALUE /\ event d <> INVALID_HANDLE_VALUE)
            (devices dev)
  /\ interrupted_event dev = interrupt
  /\ interrupted_event dev <> INVALID_HANDLE_VALUE.
Proof.
  intros H.
  apply (RawDevice_open_built _ _ _ _ _
           (fun seen b =>
              map (fun d => (file d, event d, Some (caps d))) (devices (built b))
              = map (fun p => (CreateFile p, CreateEvent p, HidP_GetCaps p)) seen
              /\ Forall (fun d => file d <> INVALID_HANDLE_VALUE
                                  /\ event d <> INVALID_HANDLE_VALUE)
                        (devices (built b)))) in H.
  - destruct H as (b & [Hmap Hall] & Hd & _ & _ & _ & _ & _ & Hi & Hne).
    rewrite Hd. split; [exact Hmap|]. split; [exact Hall|].
    split; [exact Hi | rewrite Hi; exact Hne].
  - intros seen p b b' [Hmap Hall] Ho Hopen.
    destruct (open_interface_opened _ _ _ _ Ho Hopen)
      as (b1 & c & m & r & HE & HA & _ & HC & _ & _ & _ & Hd & _).
    destruct (read_attributes_keeps _ _ _ HA) as (Hd1 & _ & _).
    rewrite Hd, Hd1, !map_app, Hmap. cbn [map]. rewrite HC.
    split; [reflexivity|].
    apply Forall_app. split; [exact Hall|].
    constructor; [|constructor]. cbn. split; [exact (proj2 Ho) | exact HE].
  - split; [reflexivity | constructor].
Qed.

(** X4. A constructed device has one record per interface that was selected
    and opened, in the order of enumeration and no other: the record holds
    the handle of that [CreateFile], the event of that [CreateEvent] and the
    capabilities of that [HidP_GetCaps]; no handle in it is
    [INVALID_HANDLE_VALUE], nor is the interrupt event. *)
Theorem constructed_interfaces (parent_inst : Z) (probes : list Probe)
    (interrupt : HANDLE) (interrupt_error : DWORD) (dev : RawDevice) :
  RawDevice_open parent_inst probes interrupt interrupt_error = inr dev ->
  map (fun d => (file d, event d, Some (caps d))) (devices dev)
  = map (fun p => (CreateFile p, CreateEvent p, HidP_GetCaps p))
        (filter (opened parent_inst) probes)
  /\ Forall (fun d => file d <> INVALID_HANDLE_VALUE /\ event d <> INVALID_HANDLE_VALUE)
            (devices dev)
  /\ interrupted_event dev = interrupt
  /\ interrupted_event dev <> INVALID_HANDLE_VALUE.
Proof.
  intros H. destruct (open_records _ _ _ _ _ H) as (Hmap & Hvalid & Hi & Hne).
  split; [exact Hmap|]. split; [exact Hvalid|]. split; [exact Hi | exact Hne].
Qed.

(** X5. In a constructed device the collections of the descriptor and the
    interface records correspond one to one, in order: the collection of an
    interface has the usage code of its capabilities (page in the high half,
    usage in the low half) and as many fields, over all its buckets, as the
    capabilities count button and value capabilities of the three report
    types. *)
Theorem collections_describe_interfaces (parent_inst : Z) (probes : list Probe)
    (interrupt : HANDLE) (interrupt_error : DWORD) (dev : RawDevice) :
  RawDevice_open parent_inst probes interrupt interrupt_error = inr dev ->
  Forall2 describes (collections (report_desc dev)) (devices dev)
  /\ length (collections (report_desc dev)) = length (filter (opened parent_inst) probes).
Proof.
  intros H.
  apply (RawDevice_open_built _ _ _ _ _
           (fun seen b =>
              Forall2 describes (collections (report_desc (built b))) (devices (built b))
              /\ length (devices (built b)) = length seen)) in H.
  - destruct H as (b & [HF Hlen] & Hd & _ & Hc & _).
    rewrite Hd, Hc. split; [exact HF|].
    rewrite (Forall2_length _ _ _ HF). exact Hlen.
  - intros seen p b b' [HF Hlen] Ho Hopen.
    destruct (open_interface_opened _ _ _ _ Ho Hopen)
      as (b1 & c & m & r & _ & HA & _ & _ & HM & _ & _ & Hd & _ & _ & _ & _ & _ & Hc).
    destruct (read_attributes_keeps _ _ _ HA) as (Hd1 & _ & Hc1).
    rewrite Hd, Hc, Hd1, Hc1. split.
    + apply Forall2_app; [exact HF|].
      constructor; [|constructor].
      split; [reflexivity|]. split; [reflexivity|].
      cbn. apply (add_report_types_count p). exact HM.
    + rewrite !length_app, Hlen. reflexivity.
  - split; [constructor | reflexivity].
Qed.

(** X6. The identity of a constructed device is that of the first interface
    that was selected and opened: its vendor and product ids are the
    attributes of that interface, and its name is the manufacturer string, a
    space, and the product string of that interface, each converted to
    UTF-8. *)
Theorem identity_of_first_interface (parent_inst : Z) (probes : list Probe)
    (interrupt : HANDLE) (interrupt_error : DWORD) (dev : RawDevice) p rest :
  RawDevice_open parent_inst probes interrupt interrupt_error = inr dev ->
  filter (opened parent_inst) probes = p :: rest ->
  exists buffer1 buffer2 manufacturer product_string,
    HidD_GetAttributes p = Some (vendor_id dev, product_id dev)
    /\ HidD_GetManufacturerString p = Some buffer1
    /\ HidD_GetProductString p = Some buffer2
    /\ u16conv_to_bytes buffer1 = inr manufacturer
    /\ u16conv_to_bytes buffer2 = inr product_string
    /\ name dev = (manufacturer ++ " " ++ product_string)%string.
Proof.
  intros H Hfilter.
  apply (RawDevice_open_built _ _ _ _ _ identified_by) in H.
  - destruct H as (b & Hid & _ & _ & _ & Hv & Hp & Hn & _).
    rewrite Hfilter in Hid.
    destruct Hid as (_ & buf1 & buf2 & man & prod & HA & HM & HP & HC1 & HC2 & HN).
    exists buf1, buf2, man, prod. rewrite Hv, Hp, Hn. auto 10.
  - intros seen q b b' Hid Ho Hopen.
    destruct (open_interface_opened _ _ _ _ Ho Hopen)
      as (b1 & c & m & r & _ & HA & _ & _ & _ & _ & Hf & _ & _ & Hv & Hp & Hn & _).
    unfold read_attributes in HA.
    destruct seen as [|p0 seen]; cbn [identified_by app] in *.
    + rewrite Hid in HA.
      destruct (HidD_GetAttributes q) as [[vendor product]|]; [|discriminate].
      destruct (HidD_GetManufacturerString q) as [buf1|]; [|discriminate].
      destruct (u16conv_to_bytes buf1) as [e|man] eqn:E1;
        cbn [mbind exn_bind] in HA; [discriminate|].
      destruct (HidD_GetProductString q) as [buf2|]; [|discriminate].
      destruct (u16conv_to_bytes buf2) as [e|prod] eqn:E2;
        cbn [mbind exn_bind] in HA; [discriminate|].
      inversion HA; subst b1. cbn in *.
      split; [exact Hf|]. exists buf1, buf2, man, prod. rewrite Hv, Hp, Hn. auto 10.
    + destruct Hid as (Hfirst & buf1 & buf2 & man & prod & H1 & H2 & H3 & H4 & H5 & H6).
      rewrite Hfirst in HA. inversion HA; subst b1.
      split; [rewrite Hf; exact Hfirst|].
      exists buf1, buf2, man, prod. rewrite Hv, Hp, Hn. auto 10.
  - reflexivity.
Qed.

Lemma router_sound_built parent_inst probes interrupt interrupt_error dev :
  RawDevice_open parent_inst probes interrupt interrupt_error = inr dev ->
  router_sound dev.
Proof.
  intros H.
  apply (RawDevice_open_built _ _ _ _ _
           (fun seen b =>
              length (devices (built b)) = length (collections (report_desc (built b)))
              /\ router_sound (built b))) in H.
  - destruct H as (b & [_ Hs] & Hd & Hr & Hc & _).
    unfold router_sound in *. rewrite Hd, Hr, Hc. exact Hs.
  - intros seen p b b' [Hlen Hs] Ho Hopen.
    destruct (open_interface_opened _ _ _ _ Ho Hopen)
      as (b1 & c & m & r & _ & HA & _ & _ & _ & HR & _ & Hd & Hrep & _ & _ & _ & _ & Hc).
    destruct (read_attributes_keeps _ _ _ HA) as (Hd1 & Hr1 & Hc1).
    split; [rewrite Hd, Hc, Hd1, Hc1, !length_app, Hlen; reflexivity|].
    intros k h Hk. rewrite Hrep in Hk.
    destruct (route_reports_range _ _ _ _ _ _ HR Hk) as [Hold|(-> & key & Hkey & Hid)].
    + rewrite Hr1 in Hold. destruct (Hs _ _ Hold) as (i & d & col & key & Hi & Hj & Hin & Hid & Hf).
      exists i, d, col, key. rewrite Hd, Hc, Hd1, Hc1.
      split; [apply lookup_app_l_Some; exact Hi|].
      split; [apply lookup_app_l_Some; exact Hj|]. auto.
    + exists (length (devices (built b))), {| file := CreateFile p; event := CreateEvent p; caps := c |},
        (ReportCollection.mk ReportCollection.Physical
           (usage_code (caps_UsagePage c) (caps_Usage c)) m), key.
      rewrite Hd, Hc, Hd1, Hc1.
      split; [apply list_lookup_middle; reflexivity|].
      split; [apply list_lookup_middle; exact Hlen|].
      split; [exact Hkey|]. split; [exact Hid | reflexivity].
  - split; [reflexivity|]. intros k h Hk. cbn in Hk. rewrite lookup_empty in Hk. discriminate.
Qed.

(** X7. The router of a constructed device has no route of its own making:
    whatever number it routes, it routes to the handle of an interface record
    whose collection has a report with that number. *)
Theorem router_leads_to_declaring_interface (parent_inst : Z) (probes : list Probe)
    (interrupt : HANDLE) (interrupt_error : DWORD) (dev : RawDevice) (k : Z) (h : HANDLE) :
  RawDevice_open parent_inst probes interrupt interrupt_error = inr dev ->
  reports dev !! k = Some h ->
  exists i d c key,
    devices dev !! i = Some d
    /\ collections (report_desc dev) !! i = Some c
    /\ key ∈ map fst (ReportCollection.reports c)
    /\ to_uint8 (ReportID.id key) = k
    /\ file d = h.
Proof. intros H. exact (router_sound_built _ _ _ _ _ H k h). Qed.

(** ** Construction: failures *)

(** The conversion throws nothing but [std::range_error], and throws it
    exactly for a string with a code unit in the surrogate range. *)
Lemma u16conv_to_bytes_inl buffer e :
  u16conv_to_bytes buffer = inl e <->
  e = range_error /\ existsb is_surrogate (c_str buffer) = true.
Proof.
  unfold u16conv_to_bytes. destruct (existsb is_surrogate (c_str buffer)); split.
  - intros H. inversion H. auto.
  - intros [-> _]. reflexivity.
  - discriminate.
  - intros [_ H]. discriminate.
Qed.

Lemma read_attributes_inl p b e :
  read_attributes p b = inl e ->
  first b = true
  /\ ((exists code what,
         e = system_error code what
         /\ (what = "HidD_GetAttributes" \/ what = "HidD_GetManufacturerString"
             \/ what = "HidD_GetProductString")%string)
      \/ (e = range_error /\ ill_formed_string p)).
Proof.
  unfold read_attributes, ill_formed_string. intros H.
  destruct (first b); [|discriminate]. split; [reflexivity|].
  destruct (HidD_GetAttributes p) as [[vendor product]|];
    [|inversion H; left; eexists _, _; split; [reflexivity | auto]].
  destruct (HidD_GetManufacturerString p) as [buffer1|];
    [|inversion H; left; eexists _, _; split; [reflexivity | auto]].
  destruct (u16conv_to_bytes buffer1) as [e1|manufacturer] eqn:E1;
    cbn [mbind exn_bind] in H.
  { inversion H; subst e1. apply u16conv_to_bytes_inl in E1 as [-> E1].
    right. split; [reflexivity|]. exists buffer1. auto. }
  destruct (HidD_GetProductString p) as [buffer2|];
    [|inversion H; left; eexists _, _; split; [reflexivity | auto]].
  destruct (u16conv_to_bytes buffer2) as [e2|product_string] eqn:E2;
    cbn [mbind exn_bind] in H; [|discriminate].
  inversion H; subst e2. apply u16conv_to_bytes_inl in E2 as [-> E2].
  right. split; [reflexivity|]. exists buffer2. auto.
Qed.

Lemma read_attributes_first p b b' : read_attributes p b = inr b' -> first b' = false.
Proof.
  unfold read_attributes. intros H. destruct (first b) eqn:Ef.
  - destruct (HidD_GetAttributes p) as [[vendor product]|]; [|discriminate].
    destruct (HidD_GetManufacturerString p) as [buffer1|]; [|discriminate].
    destruct (u16conv_to_bytes buffer1); cbn [mbind exn_bind] in H; [discriminate|].
    destruct (HidD_GetProductString p) as [buffer2|]; [|discriminate].
    destruct (u16conv_to_bytes buffer2); cbn [mbind exn_bind] in H; [discriminate|].
    inversion H. reflexivity.
  - inversion H; subst b'. exact Ef.
Qed.

(** [first] is still set exactly when no interface has been opened. *)
Lemma first_until_opened parent_inst probes b :
  open_interfaces parent_inst probes {| first := true; built := empty_device |} = inr b ->
  first b = true -> filter (opened parent_inst) probes = [].
Proof.
  intros H Hfirst.
  assert (Hind : filter (opened parent_inst) probes <> [] -> first b = false).
  { apply (open_interfaces_ind (fun seen b => seen <> [] -> first b = false) parent_inst)
      with (probes := probes) (seen := []) (b := {| first := true; built := empty_device |});
      [| intros N; destruct (N eq_refl) | exact H].
    intros seen p b0 b' _ Ho Hopen _.
    destruct (open_interface_opened _ _ _ _ Ho Hopen)
      as (b1 & c & m & r & _ & HA & _ & _ & _ & _ & Hf & _).
    rewrite Hf. exact (read_attributes_first _ _ _ HA). }
  destruct (filter (opened parent_inst) probes) as [|q l]; [reflexivity|].
  rewrite Hind in Hfirst by discriminate. discriminate.
Qed.

Lemma open_interface_inl parent_inst p b e :
  open_interface parent_inst p b = inl e ->
  opened parent_inst p /\ construction_error e
  /\ (e = range_error -> first b = true /\ ill_formed_string p).
Proof.
  unfold open_interface, opened, selected, construction_error. intros H.
  destruct (fst (parentInst p)); cbn [negb orb andb] in *; [|discriminate].
  destruct (snd (parentInst p) =? parent_inst); cbn [negb] in *; [|discriminate].
  destruct (CreateFile p =? INVALID_HANDLE_VALUE) eqn:EF; [discriminate|].
  apply Z.eqb_neq in EF. split; [split; [reflexivity | exact EF]|].
  destruct (CreateEvent p =? INVALID_HANDLE_VALUE).
  { inversion H. split; [|discriminate]. left. eexists _, _. split; [reflexivity | auto]. }
  destruct (read_attributes p b) as [e1|b1] eqn:EA; cbn [mbind exn_bind] in H.
  { inversion H; subst e1.
    apply read_attributes_inl in EA as (Hfirst & [(code & what & -> & Hw) | (-> & Hill)]).
    - split; [|discriminate]. left. exists code, what. split; [reflexivity|]. tauto.
    - split; [auto|]. intros _. split; assumption. }
  destruct (HidD_GetPreparsedData p); cbn [negb] in H.
  2:{ inversion H. split; [|discriminate]. left. eexists _, _. split; [reflexivity | auto 6]. }
  destruct (HidP_GetCaps p) as [c|]; [|inversion H; split; [auto | discriminate]].
  destruct (add_report_types p (report_types c) []) as [e1|m] eqn:EM;
    cbn [mbind exn_bind] in H.
  { inversion H; subst e1.
    apply add_report_types_inl in EM as [-> | ->]; (split; [auto 6 | discriminate]). }
  destruct (route_reports (CreateFile p) (map fst m) (reports (built b1))) as [e1|r] eqn:ER;
    cbn [mbind exn_bind] in H; [|discriminate].
  inversion H; subst e1. apply route_reports_inl in ER as ->.
  split; [auto 6 | discriminate].
Qed.

Lemma open_interfaces_inl parent_inst probes b e :
  open_interfaces parent_inst probes b = inl e ->
  exists before p after b1,
    probes = before ++ p :: after
    /\ open_interfaces parent_inst before b = inr b1
    /\ open_interface parent_inst p b1 = inl e.
Proof.
  revert b. induction probes as [|p probes IH]; intros b H; [discriminate|].
  cbn [open_interfaces] in H.
  destruct (open_interface parent_inst p b) as [e1|b1] eqn:E; cbn [mbind exn_bind] in H.
  - inversion H; subst e1. exists [], p, probes, b. auto.
  - destruct (IH _ H) as (before & q & after & b2 & -> & Hb & Hq).
    exists (p :: before), q, after, b2. split; [reflexivity|]. split; [|exact Hq].
    cbn [open_interfaces]. rewrite E. exact Hb.
Qed.

(** X8. When the loop over the enumerated interfaces or the creation of the
    interrupt event fails, the error is one of those the constructor throws
    for a system call or a capability query, the [std::range_error] of a
    string conversion, or "Same Report ID on different handle."; it comes
    either from the first interface, among those selected and opened, whose
    iteration throws, whatever interfaces follow it, or, when every iteration
    went through, from the creation of the interrupt event.  The
    [std::range_error] comes from the first interface that opened, whose
    manufacturer or product string has a code unit in the surrogate range.
    An interface that is not selected or does not open never makes
    construction fail. *)
Theorem construction_failure (parent_inst : Z) (probes : list Probe)
    (interrupt : HANDLE) (interrupt_error : DWORD) (e : exn) :
  RawDevice_open parent_inst probes interrupt interrupt_error = inl e ->
  construction_error e
  /\ ((exists before p after b,
         probes = before ++ p :: after
         /\ open_interfaces parent_inst before {| first := true; built := empty_device |} = inr b
         /\ opened parent_inst p
         /\ open_interface parent_inst p b = inl e
         /\ (e = range_error ->
             filter (opened parent_inst) before = [] /\ ill_formed_string p))
      \/ (exists b,
            open_interfaces parent_inst probes {| first := true; built := empty_device |} = inr b
            /\ interrupt = INVALID_HANDLE_VALUE
            /\ e = system_error interrupt_error "CreateEvent")).
Proof.
  unfold RawDevice_open. intros H.
  destruct (open_interfaces parent_inst probes _) as [e1|b] eqn:E; cbn [mbind exn_bind] in H.
  - inversion H; subst e1.
    destruct (open_interfaces_inl _ _ _ _ E) as (before & p & after & b1 & -> & Hb & Hp).
    destruct (open_interface_inl _ _ _ _ Hp) as (Ho & He & Hrange).
    split; [exact He|]. left. exists before, p, after, b1.
    do 4 (split; [first [reflexivity | assumption]|]).
    intros Hre. destruct (Hrange Hre) as [Hfirst Hill].
    split; [exact (first_until_opened _ _ _ Hb Hfirst) | exact Hill].
  - destruct (interrupt =? INVALID_HANDLE_VALUE) eqn:Ei; [|discriminate].
    apply Z.eqb_eq in Ei. inversion H. split.
    + left. eexists _, _. split; [reflexivity | auto].
    + right. exists b. auto.
Qed.

Lemma add_report_types_none p c :
  capability_count c = 0%nat -> add_report_types p (report_types c) [] = inr [].
Proof.
  unfold capability_count, report_types. intros H.
  assert (Hz : forall rt bc vc m, Z.to_nat bc = 0%nat -> Z.to_nat vc = 0%nat ->
                 add_report_type p m (rt, bc, vc) = inr m).
  { intros rt bc vc m Hb Hv. unfold add_report_type, vector_of.
    rewrite Hb, Hv. reflexivity. }
  rewrite add_report_types_cons, Hz by lia. cbn [mbind exn_bind].
  rewrite add_report_types_cons, Hz by lia. cbn [mbind exn_bind].
  rewrite add_report_types_cons, Hz by lia. reflexivity.
Qed.

(** X9. An interface whose capabilities count no button and no value
    capability is opened without its capability tables being asked for (what
    [HidP_GetButtonCaps] and [HidP_GetValueCaps] would answer does not
    matter): it gets a record and a collection with no report, and the router
    is left as it was, so no report is routed to it. *)
Theorem interface_without_capabilities (parent_inst : Z) (p : Probe) (b b1 : Building)
    (c : HIDP_CAPS) :
  opened parent_inst p ->
  CreateEvent p <> INVALID_HANDLE_VALUE ->
  read_attributes p b = inr b1 ->
  HidD_GetPreparsedData p = true ->
  HidP_GetCaps p = Some c ->
  capability_count c = 0%nat ->
  exists b',
    open_interface parent_inst p b = inr b'
    /\ devices (built b')
       = devices (built b) ++ [ {| file := CreateFile p; event := CreateEvent p; caps := c |} ]
    /\ collections (report_desc (built b'))
       = collections (report_desc (built b))
         ++ [ ReportCollection.mk ReportCollection.Physical
                (usage_code (caps_UsagePage c) (caps_Usage c)) [] ]
    /\ reports (built b') = reports (built b).
Proof.
  intros [Hsel HF] HE HA HP HC Hcount.
  destruct (read_attributes_keeps _ _ _ HA) as (Hd & Hr & Hc).
  unfold open_interface, selected in *.
  apply andb_true_iff in Hsel as [Hs1 Hs2]. rewrite Hs1, Hs2. cbn [negb orb].
  apply Z.eqb_neq in HF, HE. rewrite HF, HE, HA. cbn [mbind exn_bind].
  rewrite HP, HC. cbn [negb]. rewrite (add_report_types_none p c Hcount).
  cbn [mbind exn_bind map]. eexists. split; [reflexivity|]. cbn.
  rewrite Hd, Hr, Hc. auto.
Qed.

(** ** writeReport *)

Section Writing.
Context {World : Type} (os : Win32.api World).

Lemma writeReport_unknown_id_eq dev id rest w :
  reports dev !! id = None ->
  writeReport os dev (id :: rest) w = (inl report_id_not_found, [], w).
Proof. intros H. unfold writeReport. rewrite H. reflexivity. Qed.

(** The three ways a write to a routed id goes. *)
Lemma writeReport_spec dev id rest h w res calls w' :
  reports dev !! id = Some h ->
  writeReport os dev (id :: rest) w = (res, calls, w') ->
  exists ok written err,
    let first_call :=
      WriteFile_call h (id :: rest) (to_uint32 (Z.of_nat (length (id :: rest)))) 0
        ok written err in
    (ok = true /\ calls = [first_call] /\ res = inr (to_int written))
    \/ (ok = false /\ err <> ERROR_IO_PENDING /\ calls = [first_call]
        /\ res = inl (system_error err "WriteFile"))
    \/ (ok = false /\ err = ERROR_IO_PENDING
        /\ exists ok' written' err',
             calls = [first_call; GetOverlappedResult_call h 0 true ok' written' err']
             /\ res = if ok' then inr (to_int written')
                      else inl (system_error err' "GetOverlappedResult")).
Proof.
  intros Hh H. unfold writeReport in H. rewrite Hh in H.
  destruct (Win32.WriteFile os h (id :: rest) _ 0 w) as [[ok written] w1].
  exists ok, written, (Win32.GetLastError os w1). cbv zeta.
  destruct ok.
  - inversion H; subst. left. auto.
  - destruct (Win32.GetLastError os w1 =? ERROR_IO_PENDING) eqn:E.
    + apply Z.eqb_eq in E. right; right. split; [reflexivity|]. split; [exact E|].
      destruct (Win32.GetOverlappedResult os h 0 true [] w1) as [[[ok' written'] buf] w2].
      exists ok', written', (Win32.GetLastError os w2).
      destruct ok'; cbn [negb] in H; inversion H; subst; rewrite E; auto.
    + apply Z.eqb_neq in E. inversion H; subst. right; left. auto.
Qed.

(** X10. A write to a routed report id makes one [WriteFile] call, on the
    routed handle, with the whole report and its length.  If that call
    succeeds its count is returned; if it fails with a code other than
    [ERROR_IO_PENDING] a [system_error] with that code is thrown and no
    other call is made; if it is pending, one blocking
    [GetOverlappedResult] follows on the same handle, whose count is
    returned or whose failure is thrown.  No other call is ever made. *)
Theorem writeReport_outcomes (dev : RawDevice) (id : byte) (rest : list byte)
    (h : HANDLE) (w : World) res calls w' :
  reports dev !! id = Some h ->
  writeReport os dev (id :: rest) w = (res, calls, w') ->
  (exists ok written err,
     head calls
     = Some (WriteFile_call h (id :: rest) (to_uint32 (Z.of_nat (length (id :: rest))))
               0 ok written err)
     /\ Forall (fun c => ~ is_WriteFile c) (tail calls)
     /\ (tail calls = [] <-> (ok = true \/ err <> ERROR_IO_PENDING))
     /\ forall c, c ∈ tail calls ->
          exists ok' written' err',
            tail calls = [c] /\ c = GetOverlappedResult_call h 0 true ok' written' err')
  /\ match last calls with
     | Some (WriteFile_call _ _ _ _ ok written err) =>
         if ok then res = inr (to_int written)
         else res = inl (system_error err "WriteFile")
     | Some (GetOverlappedResult_call _ _ _ ok written err) =>
         if ok then res = inr (to_int written)
         else res = inl (system_error err "GetOverlappedResult")
     | _ => False
     end.
Proof.
  intros Hh H.
  destruct (writeReport_spec _ _ _ _ _ _ _ _ Hh H) as (ok & written & err & Hcases).
  cbv zeta in Hcases.
  destruct Hcases as [(-> & -> & ->) | [(-> & Herr & -> & ->)
    | (-> & -> & ok' & written' & err' & -> & ->)]].
  - split; [|reflexivity]. exists true, written, err. cbn.
    split; [reflexivity|]. split; [constructor|]. split; [tauto|].
    intros c Hc. inversion Hc.
  - split; [|reflexivity]. exists false, written, err. cbn.
    split; [reflexivity|]. split; [constructor|]. split; [tauto|].
    intros c Hc. inversion Hc.
  - split; [|destruct ok'; reflexivity].
    exists false, written, ERROR_IO_PENDING. cbn.
    split; [reflexivity|]. split; [repeat constructor; tauto|].
    split; [split; [discriminate | intros [Hc|Hc]; [discriminate | congruence]]|].
    intros c Hc. apply list_elem_of_singleton in Hc. subst c.
    exists ok', written', err'. auto.
Qed.

(** X11. On a constructed device, a report is written only to an
    interface that declares it: every [WriteFile] that [writeReport] makes
    carries the whole report to the handle of an interface record whose
    collection has a report whose number is the first byte. *)
Theorem write_reaches_declaring_interface (parent_inst : Z) (probes : list Probe)
    (interrupt : HANDLE) (interrupt_error : DWORD) (dev : RawDevice)
    (report : list byte) (w : World) res calls w' :
  RawDevice_open parent_inst probes interrupt interrupt_error = inr dev ->
  writeReport os dev report w = (res, calls, w') ->
  forall h data size hEvent ok written err,
    WriteFile_call h data size hEvent ok written err ∈ calls ->
    data = report
    /\ exists i d c key,
         devices dev !! i = Some d
         /\ collections (report_desc dev) !! i = Some c
         /\ key ∈ map fst (ReportCollection.reports c)
         /\ head report = Some (to_uint8 (ReportID.id key))
         /\ file d = h.
Proof.
  intros Hopen H h data size hEvent ok written err Hin.
  destruct report as [|id rest].
  { unfold writeReport in H. inversion H; subst. inversion Hin. }
  destruct (reports dev !! id) as [h0|] eqn:Hr.
  2:{ rewrite (writeReport_unknown_id_eq _ _ _ _ Hr) in H. inversion H; subst. inversion Hin. }
  destruct (writeReport_spec _ _ _ _ _ _ _ _ Hr H) as (ok0 & written0 & err0 & Hcases).
  cbv zeta in Hcases.
  assert (Heq : h = h0 /\ data = id :: rest).
  { destruct Hcases as [(_ & -> & _) | [(_ & _ & -> & _)
      | (_ & _ & ok' & written' & err' & -> & _)]].
    - apply list_elem_of_singleton in Hin. inversion Hin; auto.
    - apply list_elem_of_singleton in Hin. inversion Hin; auto.
    - apply elem_of_cons in Hin as [Hin|Hin]; [inversion Hin; auto|].
      apply list_elem_of_singleton in Hin. discriminate Hin. }
  destruct Heq as [-> ->]. split; [reflexivity|].
  destruct (router_sound_built _ _ _ _ _ Hopen _ _ Hr)
    as (i & d & c & key & Hi & Hc & Hkey & Hid & Hf).
  exists i, d, c, key. cbn [head]. rewrite Hid. auto.
Qed.
End Writing.

(** ** readReport: errors, results and the number of calls *)

Section Reading.
Context {World : Type} (os : Win32.api World).

Lemma cancel_calls_length calls :
  Forall is_CancelIoEx calls -> length (omap cancel_target calls) = length calls.
Proof.
  induction 1 as [|c calls Hc _ IH]; [reflexivity|].
  destruct c; try contradiction. cbn. f_equal. exact IH.
Qed.

Lemma read_calls_length size calls :
  Forall (is_ReadFile size) calls -> length (omap read_of calls) = length calls.
Proof.
  induction 1 as [|c calls Hc _ IH]; [reflexivity|].
  destruct c; try contradiction. rewrite read_of_cons. cbn. f_equal. exact IH.
Qed.

Lemma read_targets_length size calls :
  Forall (is_ReadFile size) calls -> length (omap read_target calls) = length calls.
Proof.
  intros H. rewrite <- ar_target_read_of, length_map. eapply read_calls_length. exact H.
Qed.

(** The reads that a failed or completed last read leaves pending. *)
Lemma pending_before_last pre c r :
  Forall (fun c => read_pending c = true) pre ->
  read_of c = Some r -> pending r = false ->
  map ar_target (filter (fun r => pending r = true) (omap read_of (pre ++ [c])))
  = omap read_target pre.
Proof.
  intros Hpre Hr Hp. rewrite omap_app, filter_app.
  assert (Hc : omap read_of [c] = [r]) by (cbn; rewrite Hr; reflexivity).
  rewrite Hc, filter_cons, decide_False by (rewrite Hp; discriminate).
  rewrite filter_nil, app_nil_r.
  rewrite (filter_all _ _ (pending_read_of _ Hpre)). apply ar_target_read_of.
Qed.

(** X12. When a [ReadFile] fails with a code other than
    [ERROR_IO_PENDING], [readReport] throws a [system_error] with that code:
    no further read is issued and no wait is made, the buffer is left as it
    was, and every read issued before it is cancelled, in the order of
    issue. *)
Theorem readReport_read_failure (dev : RawDevice) (report : list byte) (timeout : Z)
    (w : World) res report' calls w' f sz e n err :
  readReport os dev report timeout w = (res, report', calls, w') ->
  ReadFile_call f sz e false n err ∈ calls ->
  err <> ERROR_IO_PENDING ->
  res = inl (system_error err "ReadFile")
  /\ report' = report
  /\ exists pre cancels,
       calls = pre ++ ReadFile_call f sz e false n err :: cancels
       /\ Forall (fun c => read_pending c = true) pre
       /\ Forall is_CancelIoEx cancels
       /\ omap cancel_target cancels = omap read_target pre.
Proof.
  intros H Hin Herr.
  assert (Hassert : interrupted_event dev <> INVALID_HANDLE_VALUE).
  { eapply readReport_asserts; [exact H|]. intros ->. inversion Hin. }
  destruct (readReport_phases os _ _ _ _ _ _ _ _ H Hassert)
    as (out & report1 & reads & calls1 & w1 & reads2 & calls2 & w2 & calls3
        & Hissue & Hout & Hdestroy & ->).
  pose proof (issue_reads_calls os _ _ _ _ _ _ _ _ _ _ Hissue) as (Hall1 & Hreads & _ & Hcase).
  pose proof (destroy_reads_calls os _ _ _ _ Hdestroy) as [Hall3 Hcancel].
  assert (Hnp : forall pre, Forall (fun c => read_pending c = true) pre ->
                  ~ ReadFile_call f sz e false n err ∈ pre).
  { intros pre Hpre Hin'. rewrite Forall_forall in Hpre. apply Hpre in Hin'.
    cbn in Hin'. apply Z.eqb_eq in Hin'. contradiction. }
  assert (Hin1 : ReadFile_call f sz e false n err ∈ calls1).
  { apply elem_of_app in Hin as [Hin|Hin]; [exact Hin|].
    apply elem_of_app in Hin as [Hin|Hin].
    - destruct out as [hs|n0|e0].
      + destruct (wait_reads_calls os _ _ _ _ _ _ _ _ _ _ Hout) as [Hall2 _].
        rewrite Forall_forall in Hall2. apply Hall2 in Hin. destruct Hin as [[]|[]].
      + destruct Hout as (_ & _ & _ & -> & _). inversion Hin.
      + destruct Hout as (_ & _ & _ & -> & _). inversion Hin.
    - rewrite Forall_forall in Hall3. apply Hall3 in Hin. destruct Hin. }
  destruct out as [hs|n0|e0].
  - destruct Hcase as (Hpend & _). exfalso. exact (Hnp _ Hpend Hin1).
  - destruct Hcase as (pre & f0 & sz0 & e1 & err0 & -> & Hpre).
    apply elem_of_app in Hin1 as [Hin1|Hin1]; [exfalso; exact (Hnp _ Hpre Hin1)|].
    apply list_elem_of_singleton in Hin1. discriminate Hin1.
  - destruct Hcase as (pre & f0 & sz0 & e1 & n0 & err0 & -> & Herr0 & -> & Hpre & ->).
    destruct Hout as (-> & -> & -> & -> & ->).
    apply elem_of_app in Hin1 as [Hin1|Hin1]; [exfalso; exact (Hnp _ Hpre Hin1)|].
    apply list_elem_of_singleton in Hin1. inversion Hin1; subst f0 sz0 e1 n0 err0.
    split; [reflexivity|]. split; [reflexivity|].
    exists pre, calls3. rewrite <- app_assoc. cbn [app].
    split; [reflexivity|]. split; [exact Hpre|]. split; [exact Hall3|].
    rewrite Hcancel, Hreads. cbn [app].
    eapply pending_before_last; [exact Hpre | reflexivity|].
    cbn. rewrite Herr0. reflexivity.
Qed.

(** X13. [readReport] queries a result only right after its wait, for the
    read whose event the wait result names, and never blocks in the query;
    its outcome is that of the query: a failed query throws a
    [system_error] with its code and leaves the buffer as it was, a
    successful one gives the count and resizes the buffer to it. *)
Theorem readReport_query (dev : RawDevice) (report : list byte) (timeout : Z)
    (w : World) res report' calls w' f e blocking ok n err :
  readReport os dev report timeout w = (res, report', calls, w') ->
  GetOverlappedResult_call f e blocking ok n err ∈ calls ->
  blocking = false
  /\ (exists handles tmo ret err0 before after,
        calls = before ++ WaitForMultipleObjects_call handles false tmo ret err0
                          :: GetOverlappedResult_call f e blocking ok n err :: after
        /\ (0 < ret < 2^32 -> handles !! Z.to_nat ret = Some e))
  /\ (if ok
      then res = inr (to_int n) /\ length report' = Z.to_nat n
      else res = inl (system_error err "GetOverlappedResult") /\ report' = report).
Proof.
  intros H Hin.
  assert (Hassert : interrupted_event dev <> INVALID_HANDLE_VALUE).
  { eapply readReport_asserts; [exact H|]. intros ->. inversion Hin. }
  destruct (readReport_phases os _ _ _ _ _ _ _ _ H Hassert)
    as (out & report1 & reads & calls1 & w1 & reads2 & calls2 & w2 & calls3
        & Hissue & Hout & Hdestroy & ->).
  pose proof (issue_reads_calls os _ _ _ _ _ _ _ _ _ _ Hissue) as (Hall1 & Hreads & _ & Hcase).
  pose proof (destroy_reads_calls os _ _ _ _ Hdestroy) as [Hall3 _].
  assert (Hin2 : GetOverlappedResult_call f e blocking ok n err ∈ calls2).
  { apply elem_of_app in Hin as [Hin|Hin].
    - rewrite Forall_forall in Hall1. apply Hall1 in Hin. destruct Hin.
    - apply elem_of_app in Hin as [Hin|Hin]; [exact Hin|].
      rewrite Forall_forall in Hall3. apply Hall3 in Hin. destruct Hin. }
  destruct out as [hs|n0|e0].
  2:{ destruct Hout as (_ & _ & _ & -> & _). inversion Hin2. }
  2:{ destruct Hout as (_ & _ & _ & -> & _). inversion Hin2. }
  destruct Hcase as (_ & Hhs & _ & ->).
  pose proof (wait_reads_spec os _ _ _ _ _ _ _ _ _ _ Hout)
    as (ret & err0 & rest & -> & Hcases).
  apply elem_of_cons in Hin2 as [Hin2|Hin2]; [discriminate Hin2|].
  destruct Hcases as [(_ & _ & _ & _ & ->) | [(_ & _ & _ & _ & ->)
    | [(_ & _ & _ & _ & _ & _ & _ & ->)
      | (_ & _ & _ & r & ok0 & n0 & err' & buf & Hr & -> & _ & Hres)]]];
    try (inversion Hin2; fail).
  apply list_elem_of_singleton in Hin2. inversion Hin2; subst f e blocking ok0 n0 err'.
  split; [reflexivity|]. split.
  - exists hs, (wait_timeout timeout), ret, err0, calls1, calls3.
    split; [reflexivity|]. intros Hrange.
    rewrite Hhs. cbn [app]. rewrite Hreads in Hr. cbn [app] in Hr.
    assert (Hi : to_uint32 (ret - WAIT_OBJECT_0 - 1) = ret - 1).
    { unfold to_uint32, WAIT_OBJECT_0. rewrite Z.mod_small by lia. lia. }
    rewrite Hi in Hr.
    replace (Z.to_nat ret) with (S (Z.to_nat (ret - 1))) by lia.
    change ((interrupted_event dev :: map snd (omap read_target calls1))
              !! S (Z.to_nat (ret - 1)))
      with (map snd (omap read_target calls1) !! Z.to_nat (ret - 1)).
    rewrite <- ar_target_read_of, !lookup_map, Hr. reflexivity.
  - destruct ok; destruct Hres as [-> ->]; split; try reflexivity. apply length_resize.
Qed.

(** X14. Whenever [readReport] returns, its value and the buffer agree:
    either it returns 0 after a wait that was interrupted or timed out, and
    the buffer is as it was, or it returns, as an [int], the count of a read
    that completed at once or of the result it queried, and the buffer has
    exactly that many bytes. *)
Theorem readReport_value_and_buffer (dev : RawDevice) (report : list byte) (timeout : Z)
    (w : World) (n : Z) report' calls w' :
  readReport os dev report timeout w = (inr n, report', calls, w') ->
  (n = 0 /\ report' = report
   /\ exists handles tmo ret err,
        WaitForMultipleObjects_call handles false tmo ret err ∈ calls
        /\ (ret = WAIT_OBJECT_0 \/ ret = WAIT_TIMEOUT))
  \/ (exists count,
        n = to_int count /\ length report' = Z.to_nat count
        /\ ((exists f sz e err, ReadFile_call f sz e true count err ∈ calls)
            \/ (exists f e err, GetOverlappedResult_call f e false true count err ∈ calls))).
Proof.
  intros H.
  assert (Hassert : interrupted_event dev <> INVALID_HANDLE_VALUE).
  { intros Hbad. unfold readReport in H. rewrite Hbad, Z.eqb_refl in H. discriminate H. }
  destruct (readReport_phases os _ _ _ _ _ _ _ _ H Hassert)
    as (out & report1 & reads & calls1 & w1 & reads2 & calls2 & w2 & calls3
        & Hissue & Hout & Hdestroy & ->).
  pose proof (issue_reads_calls os _ _ _ _ _ _ _ _ _ _ Hissue) as (_ & _ & _ & Hcase).
  destruct out as [hs|count|e0].
  - destruct Hcase as (_ & _ & _ & ->).
    pose proof (wait_reads_spec os _ _ _ _ _ _ _ _ _ _ Hout)
      as (ret & err0 & rest & -> & Hcases).
    destruct Hcases as [(Hret & Hres & -> & _ & ->) | [(_ & Hres & _)
      | [(_ & _ & _ & _ & Hres & _)
        | (_ & _ & _ & r & ok & count & err' & buf & _ & -> & _ & Hres)]]];
      try discriminate Hres.
    + left. inversion Hres. split; [reflexivity|]. split; [reflexivity|].
      exists hs, (wait_timeout timeout), ret, err0. split; [|exact Hret].
      apply elem_of_app. right. apply elem_of_cons. left. reflexivity.
    + destruct ok; destruct Hres as [Hres ->]; [|discriminate Hres].
      right. exists count. inversion Hres. split; [reflexivity|].
      split; [apply length_resize|]. right. exists (ar_file r), (ar_hEvent r), err'.
      apply elem_of_app. right. apply elem_of_cons. right.
      apply elem_of_cons. left. reflexivity.
  - destruct Hcase as (pre & f & sz & e & err & -> & _).
    destruct Hout as (Hres & -> & _). inversion Hres.
    right. exists count. split; [reflexivity|]. split; [apply length_resize|].
    left. exists f, sz, e, err. apply elem_of_app. left. apply elem_of_app. right.
    apply elem_of_cons. left. reflexivity.
  - destruct Hout as (Hres & _). discriminate Hres.
Qed.

(** X15. When no interface fits the buffer (or the device has none), no
    read is issued: the only call is the wait, on the interrupt event alone,
    the buffer is left as it was, and the call returns 0 or throws for a
    failed or unexpected wait result; it never returns a count. *)
Theorem readReport_without_fitting_interface (dev : RawDevice) (report : list byte)
    (timeout : Z) (w : World) res report' calls w' :
  interrupted_event dev <> INVALID_HANDLE_VALUE ->
  filter (fits report) (devices dev) = [] ->
  readReport os dev report timeout w = (res, report', calls, w') ->
  report' = report
  /\ exists ret err,
       calls = [WaitForMultipleObjects_call [interrupted_event dev] false
                  (wait_timeout timeout) ret err]
       /\ res = (if (ret =? WAIT_OBJECT_0) || (ret =? WAIT_TIMEOUT) then inr 0
                 else if ret =? WAIT_FAILED
                      then inl (system_error err "WaitForMultipleObject")
                      else inl unexpected_wait).
Proof.
  intros Hassert Hnone H.
  destruct (readReport_phases os _ _ _ _ _ _ _ _ H Hassert)
    as (out & report1 & reads & calls1 & w1 & reads2 & calls2 & w2 & calls3
        & Hissue & Hout & Hdestroy & ->).
  pose proof (issue_reads_calls os _ _ _ _ _ _ _ _ _ _ Hissue)
    as (Hall1 & Hreads & Hprefix & Hcase).
  rewrite Hnone in Hprefix. apply prefix_nil_inv in Hprefix.
  assert (Hno : calls1 = []).
  { apply length_zero_iff_nil. rewrite <- (read_targets_length _ _ Hall1), Hprefix.
    reflexivity. }
  subst calls1. cbn [app omap] in *. subst reads.
  destruct out as [hs|n|e].
  2:{ destruct Hcase as (pre & f & sz & e & err & Hpre & _). destruct pre; discriminate Hpre. }
  2:{ destruct Hcase as (pre & f & sz & e0 & n & err & Hpre & _). destruct pre; discriminate Hpre. }
  destruct Hcase as (_ & -> & _ & ->).
  pose proof (wait_reads_spec os _ _ _ _ _ _ _ _ _ _ Hout)
    as (ret & err & rest & -> & Hcases).
  assert (Hend : forall rs, rs = [] -> destroy_reads os rs w2 = (calls3, w') -> calls3 = []).
  { intros rs -> Hd. inversion Hd. reflexivity. }
  destruct Hcases as [(Hret & -> & -> & -> & ->) | [(-> & -> & -> & -> & ->)
    | [(N0 & N1 & N2 & _ & -> & -> & -> & ->)
      | (_ & _ & _ & r & ok & n & err' & buf & Hr & _)]]].
  - split; [reflexivity|]. exists ret, err.
    rewrite (Hend _ eq_refl Hdestroy). split; [reflexivity|].
    destruct Hret as [-> | ->]; reflexivity.
  - split; [reflexivity|]. exists WAIT_FAILED, err.
    rewrite (Hend _ eq_refl Hdestroy). split; reflexivity.
  - split; [reflexivity|]. exists ret, err.
    rewrite (Hend _ eq_refl Hdestroy). split; [reflexivity|].
    apply Z.eqb_neq in N0, N1, N2. rewrite N0, N1, N2. reflexivity.
  - inversion Hr.
Qed.

(** X16. The calls of [readReport] come in four runs, in this order: the
    reads, at most one per interface that fits; at most one wait; at most
    one query of a result, and only after a wait; the cancellations.  Every
    cancellation and every query is for a read of its own: there are never
    more of them than reads. *)
Theorem readReport_call_budget (dev : RawDevice) (report : list byte) (timeout : Z)
    (w : World) res report' calls w' :
  readReport os dev report timeout w = (res, report', calls, w') ->
  exists reads waits queries cancels,
    calls = reads ++ waits ++ queries ++ cancels
    /\ Forall (is_ReadFile (to_uint32 (Z.of_nat (length report)))) reads
    /\ Forall is_Wait waits
    /\ Forall is_GetOverlappedResult queries
    /\ Forall is_CancelIoEx cancels
    /\ (length reads <= length (filter (fits report) (devices dev)))%nat
    /\ (length queries <= length waits <= 1)%nat
    /\ (length queries + length cancels <= length reads)%nat.
Proof.
  intros H.
  destruct (decide (interrupted_event dev = INVALID_HANDLE_VALUE)) as [Hbad|Hassert].
  { unfold readReport in H. rewrite Hbad, Z.eqb_refl in H. inversion H; subst.
    exists [], [], [], []. cbn. repeat split; try constructor; lia. }
  destruct (readReport_phases os _ _ _ _ _ _ _ _ H Hassert)
    as (out & report1 & reads & calls1 & w1 & reads2 & calls2 & w2 & calls3
        & Hissue & Hout & Hdestroy & ->).
  pose proof (issue_reads_calls os _ _ _ _ _ _ _ _ _ _ Hissue)
    as (Hall1 & Hreads & Hprefix & Hcase).
  pose proof (destroy_reads_calls os _ _ _ _ Hdestroy) as [Hall3 Hcancel].
  cbn [app] in Hreads.
  assert (Hlen1 : (length calls1 <= length (filter (fits report) (devices dev)))%nat).
  { rewrite <- (read_targets_length _ _ Hall1).
    apply prefix_length in Hprefix. rewrite length_map in Hprefix. exact Hprefix. }
  assert (Hlen3 : length calls3 = length (filter (fun r => pending r = true) reads2)).
  { rewrite <- (cancel_calls_length _ Hall3), Hcancel, length_map. reflexivity. }
  assert (Hr1 : length reads = length calls1).
  { rewrite Hreads. eapply read_calls_length. exact Hall1. }
  assert (Hsame : reads2 = reads -> (length calls3 <= length calls1)%nat).
  { intros ->. rewrite Hlen3, <- Hr1. apply length_filter. }
  destruct out as [hs|n|e].
  - pose proof (wait_reads_spec os _ _ _ _ _ _ _ _ _ _ Hout)
      as (ret & err & rest & -> & Hcases).
    destruct Hcases as [(_ & _ & _ & Hr2 & ->) | [(_ & _ & _ & Hr2 & ->)
      | [(_ & _ & _ & _ & _ & _ & Hr2 & ->)
        | (_ & _ & _ & r & ok & n & err' & buf & Hr & -> & -> & _)]]].
    1-3: exists calls1, [WaitForMultipleObjects_call hs false (wait_timeout timeout) ret err],
           [], calls3;
         split; [reflexivity|]; repeat split; try assumption; try (repeat constructor);
         cbn; try lia; specialize (Hsame Hr2); lia.
    exists calls1, [WaitForMultipleObjects_call hs false (wait_timeout timeout) ret err],
      [GetOverlappedResult_call (ar_file r) (ar_hEvent r) false ok n err'], calls3.
    split; [reflexivity|]. repeat split; try assumption; try (repeat constructor);
      cbn; try lia.
    assert (Hlt : (length (filter (fun r => pending r = true)
                             (<[Z.to_nat (to_uint32 (ret - WAIT_OBJECT_0 - 1))
                                := set_pending false r]> reads))
                   < length reads)%nat).
    { pose proof (length_insert reads (Z.to_nat (to_uint32 (ret - WAIT_OBJECT_0 - 1)))
                    (set_pending false r)) as Hins.
      rewrite <- Hins.
      apply (length_filter_lt _ _ (set_pending false r)); [|cbn; discriminate].
      apply list_elem_of_lookup. eexists. apply list_lookup_insert_eq.
      apply lookup_lt_Some in Hr. exact Hr. }
    lia.
  - destruct Hout as (_ & _ & Hr2 & -> & _).
    destruct Hcase as (pre & f & sz & e & err & Hc1 & Hpre).
    exists calls1, [], [], calls3. split; [reflexivity|].
    repeat split; try assumption; try constructor; cbn; try lia.
    specialize (Hsame Hr2). lia.
  - destruct Hout as (_ & _ & Hr2 & -> & _).
    exists calls1, [], [], calls3. split; [reflexivity|].
    repeat split; try assumption; try constructor; cbn; try lia.
    specialize (Hsame Hr2). lia.
Qed.

(** X17. Every error of [readReport] (on a device whose interrupt event
    exists) is a [system_error] of [ReadFile], of the wait or of
    [GetOverlappedResult], or "Unexpected return value from
    WaitForMultipleObject"; and whenever it throws, the buffer is left as it
    was. *)
Theorem readReport_errors (dev : RawDevice) (report : list byte) (timeout : Z)
    (w : World) (e : exn) report' calls w' :
  interrupted_event dev <> INVALID_HANDLE_VALUE ->
  readReport os dev report timeout w = (inl e, report', calls, w') ->
  read_error e /\ report' = report.
Proof.
  intros Hassert H. unfold read_error.
  destruct (readReport_phases os _ _ _ _ _ _ _ _ H Hassert)
    as (out & report1 & reads & calls1 & w1 & reads2 & calls2 & w2 & calls3
        & Hissue & Hout & Hdestroy & ->).
  pose proof (issue_reads_calls os _ _ _ _ _ _ _ _ _ _ Hissue) as (_ & _ & _ & Hcase).
  destruct out as [hs|n|e0].
  - destruct Hcase as (_ & _ & _ & ->).
    pose proof (wait_reads_spec os _ _ _ _ _ _ _ _ _ _ Hout)
      as (ret & err & rest & -> & Hcases).
    destruct Hcases as [(_ & Hres & _) | [(_ & Hres & -> & _)
      | [(_ & _ & _ & _ & Hres & -> & _)
        | (_ & _ & _ & r & ok & n & err' & buf & _ & _ & _ & Hres)]]].
    + discriminate Hres.
    + inversion Hres. split; [|reflexivity]. left. eexists _, _. split; [reflexivity | auto].
    + inversion Hres. split; [|reflexivity]. right. reflexivity.
    + destruct ok; destruct Hres as [Hres ->]; [discriminate Hres|].
      inversion Hres. split; [|reflexivity]. left. eexists _, _. split; [reflexivity | auto].
  - destruct Hout as (Hres & _). discriminate Hres.
  - destruct Hcase as (pre & f & sz & e1 & n & err & _ & _ & -> & _ & ->).
    destruct Hout as (Hres & -> & _). inversion Hres.
    split; [|reflexivity]. left. eexists _, _. split; [reflexivity | auto].
Qed.

Lemma issue_reads_with_cancel cancel devs report reads handles w :
  issue_reads (with_CancelIoEx os cancel) devs report reads handles w
  = issue_reads os devs report reads handles w.
Proof.
  revert reads handles w. induction devs as [|dev devs IH]; intros reads handles w.
  - reflexivity.
  - cbn [issue_reads].
    destruct (Z.of_nat (length report) <? InputReportByteLength (caps dev)); [apply IH|].
    change (AsyncRead_read (with_CancelIoEx os cancel)) with (AsyncRead_read os).
    destruct (AsyncRead_read os _ report _ w) as [[[[[res read] r] report1] calls1] w1].
    destruct res as [e|[|]]; first [reflexivity | rewrite IH; reflexivity].
Qed.

(** X18. What [CancelIoEx] answers changes nothing but the later state of
    the system: with another [CancelIoEx], [readReport] gives the same
    result and the same buffer, makes the same calls before the
    cancellations, and cancels the same reads.  A cancellation that fails
    is never turned into an error. *)
Theorem readReport_ignores_cancel_outcome
    (cancel : HANDLE -> HANDLE -> World -> bool * World)
    (dev : RawDevice) (report : list byte) (timeout : Z) (w : World)
    res report' calls w' res2 report2 calls2 w2 :
  readReport os dev report timeout w = (res, report', calls, w') ->
  readReport (with_CancelIoEx os cancel) dev report timeout w = (res2, report2, calls2, w2) ->
  res2 = res /\ report2 = report'
  /\ exists body cancels cancels2,
       calls = body ++ cancels /\ calls2 = body ++ cancels2
       /\ Forall is_CancelIoEx cancels /\ Forall is_CancelIoEx cancels2
       /\ omap cancel_target cancels2 = omap cancel_target cancels.
Proof.
  unfold readReport. intros H H2.
  destruct (interrupted_event dev =? INVALID_HANDLE_VALUE).
  { inversion H; inversion H2; subst. split; [reflexivity|]. split; [reflexivity|].
    exists [], [], []. repeat split; constructor. }
  rewrite issue_reads_with_cancel in H2.
  destruct (issue_reads os (devices dev) report [] [interrupted_event dev] w)
    as [[[[out report1] reads] calls1] w1].
  change (wait_reads (with_CancelIoEx os cancel)) with (wait_reads os) in H2.
  destruct (match out with
            | AllPending handles => wait_reads os handles timeout report1 reads w1
            | ReadNow read =>
                (fst (report_read read report1), snd (report_read read report1), reads, [], w1)
            | IssueThrew e => (inl e, report1, reads, [], w1)
            end) as [[[[r3 rep3] reads3] calls3] w3].
  destruct (destroy_reads os reads3 w3) as [c4 w4] eqn:E4.
  destruct (destroy_reads (with_CancelIoEx os cancel) reads3 w3) as [c5 w5] eqn:E5.
  inversion H; inversion H2; subst. split; [reflexivity|]. split; [reflexivity|].
  destruct (destroy_reads_calls _ _ _ _ _ E4) as [Hall4 Ht4].
  destruct (destroy_reads_calls _ _ _ _ _ E5) as [Hall5 Ht5].
  exists (calls1 ++ calls3), c4, c5. rewrite <- !app_assoc.
  repeat split; try assumption. rewrite Ht4, Ht5. reflexivity.
Qed.
End Reading.

(** ** The copy constructor *)

Section Copying.
Context {World : Type} (os : Win32.api World).

Lemma reopen_log_app others1 news1 errs1 others2 news2 errs2 :
  length news1 = length others1 -> length errs1 = length others1 ->
  reopen_log (others1 ++ others2) (news1 ++ news2) (errs1 ++ errs2)
  = reopen_log others1 news1 errs1 ++ reopen_log others2 news2 errs2.
Proof.
  revert news1 errs1.
  induction others1 as [|d others1 IH]; intros [|d' news1] [|e errs1] Hn He;
    try discriminate; [reflexivity|].
  cbn in *. rewrite IH by lia. reflexivity.
Qed.

Lemma reopen_log_length others news errs :
  length news = length others -> length errs = length others ->
  length (reopen_log others news errs) = (2 * length others)%nat.
Proof.
  revert news errs.
  induction others as [|d others IH]; intros [|d' news] [|e errs] Hn He;
    try discriminate; [reflexivity|].
  cbn in *. rewrite IH by lia. lia.
Qed.

(** The loop of the copy constructor, read from its log: the interfaces
    [done] were re-opened into the records [new], and the loop either went
    through all of them or stopped at the next one. *)
Lemma reopen_devices_log others devs w res calls w' :
  reopen_devices os others devs w = (res, calls, w') ->
  exists done new errs,
    length new = length done /\ length errs = length done
    /\ Forall valid_record new
    /\ Forall (fun d => caps d = zero_caps) new
    /\ match res with
       | inr devs' =>
           others = done /\ devs' = devs ++ new /\ calls = reopen_log done new errs
       | inl e =>
           exists d rest err,
             others = done ++ d :: rest
             /\ ((calls = reopen_log done new errs
                          ++ [ReOpenFile_call (file d) INVALID_HANDLE_VALUE err]
                  /\ e = system_error err "ReOpenFile")
                 \/ (exists hdev err1,
                       hdev <> INVALID_HANDLE_VALUE
                       /\ calls = reopen_log done new errs
                                  ++ [ReOpenFile_call (file d) hdev err1;
                                      CreateEvent_call true true INVALID_HANDLE_VALUE err]
                       /\ e = system_error err "CreateEvent"))
       end.
Proof.
  revert devs w res calls w'.
  induction others as [|dev others IH]; intros devs w res calls w' H.
  - inversion H; subst. exists [], [], []. rewrite app_nil_r.
    repeat split; constructor.
  - cbn [reopen_devices] in H.
    destruct (Win32.ReOpenFile os (file dev) w) as [hdev w1].
    destruct (hdev =? INVALID_HANDLE_VALUE) eqn:Eh.
    { apply Z.eqb_eq in Eh. subst hdev. inversion H; subst.
      exists [], [], []. do 4 (split; [constructor|]).
      exists dev, others, (Win32.GetLastError os w'). split; [reflexivity|].
      left. split; reflexivity. }
    apply Z.eqb_neq in Eh.
    destruct (Win32.CreateEvent os true true w1) as [ev w2].
    destruct (ev =? INVALID_HANDLE_VALUE) eqn:Ee.
    { apply Z.eqb_eq in Ee. subst ev. inversion H; subst.
      exists [], [], []. do 4 (split; [constructor|]).
      exists dev, others, (Win32.GetLastError os w'). split; [reflexivity|].
      right. exists hdev, (Win32.GetLastError os w1). split; [exact Eh|].
      split; reflexivity. }
    apply Z.eqb_neq in Ee.
    destruct (reopen_devices os others _ w2) as [[res2 calls2] w3] eqn:E.
    inversion H; subst. clear H.
    apply IH in E as (done & new & errs & Hn & He & Hvalid & Hcaps & Hres).
    exists (dev :: done), ({| file := hdev; event := ev; caps := zero_caps |} :: new),
      ((Win32.GetLastError os w1, Win32.GetLastError os w2) :: errs).
    split; [cbn; lia|]. split; [cbn; lia|].
    split; [constructor; [split; assumption | exact Hvalid]|].
    split; [constructor; [reflexivity | exact Hcaps]|].
    destruct res as [e|devs'].
    + destruct Hres as (d & rest & err & -> & Hcalls).
      exists d, rest, err. split; [reflexivity|].
      destruct Hcalls as [(-> & ->) | (h & err1 & Hh & -> & ->)].
      * left. split; reflexivity.
      * right. exists h, err1. split; [exact Hh|]. split; reflexivity.
    + destruct Hres as (-> & -> & ->). rewrite <- app_assoc.
      split; [reflexivity|]. split; reflexivity.
Qed.

(** X19. A successful copy re-opens every interface of the original once,
    in order, each [ReOpenFile] being followed at once by the creation of a
    manual-reset event that is initially set, and ends by creating the
    interrupt event, automatic and initially unset: 2n+1 calls for n
    interfaces, and no other call.  The records of the copy hold the handles
    and events these calls returned, none of which is
    [INVALID_HANDLE_VALUE]. *)
Theorem copy_reopens_each_interface (other : RawDevice) (w : World) clone calls w' :
  RawDevice_copy os other w = (inr clone, calls, w') ->
  length (devices clone) = length (devices other)
  /\ (exists errs err,
        length errs = length (devices other)
        /\ calls = reopen_log (devices other) (devices clone) errs
                   ++ [CreateEvent_call false false (interrupted_event clone) err])
  /\ length calls = (2 * length (devices other) + 1)%nat
  /\ Forall valid_record (devices clone)
  /\ interrupted_event clone <> INVALID_HANDLE_VALUE.
Proof.
  unfold RawDevice_copy. intros H.
  destruct (reopen_devices os (devices other) [] w) as [[res calls1] w1] eqn:E.
  destruct res as [e|devs]; [discriminate|].
  destruct (Win32.CreateEvent os false false w1) as [ev w2].
  destruct (ev =? INVALID_HANDLE_VALUE) eqn:Ee; [discriminate|].
  apply Z.eqb_neq in Ee. inversion H; subst. clear H. cbn.
  apply reopen_devices_log in E
    as (done & new & errs & Hn & He & Hvalid & _ & <- & -> & ->).
  cbn [app].
  split; [exact Hn|].
  split; [exists errs, (Win32.GetLastError os w'); split; [exact He | reflexivity]|].
  split; [rewrite length_app, reopen_log_length by assumption; cbn; lia|].
  split; [exact Hvalid | exact Ee].
Qed.

(** X20. A copy fails at the first call that returns
    [INVALID_HANDLE_VALUE]: every interface before was re-opened and given
    its event, with handles that are not [INVALID_HANDLE_VALUE]; the failing
    call is the [ReOpenFile] of the next interface, the creation of its
    event, or, after all the interfaces, the creation of the interrupt
    event; it is the last call made, the interfaces after it are not
    re-opened, and the error is a [system_error] with the code of that call
    and its name. *)
Theorem copy_failure (other : RawDevice) (w : World) (e : exn) calls w' :
  RawDevice_copy os other w = (inl e, calls, w') ->
  exists done new errs err,
    length new = length done /\ length errs = length done
    /\ Forall valid_record new
    /\ ((exists d rest,
           devices other = done ++ d :: rest
           /\ calls = reopen_log done new errs
                      ++ [ReOpenFile_call (file d) INVALID_HANDLE_VALUE err]
           /\ e = system_error err "ReOpenFile")
        \/ (exists d rest hdev err1,
              devices other = done ++ d :: rest
              /\ hdev <> INVALID_HANDLE_VALUE
              /\ calls = reopen_log done new errs
                         ++ [ReOpenFile_call (file d) hdev err1;
                             CreateEvent_call true true INVALID_HANDLE_VALUE err]
              /\ e = system_error err "CreateEvent")
        \/ (devices other = done
            /\ calls = reopen_log done new errs
                       ++ [CreateEvent_call false false INVALID_HANDLE_VALUE err]
            /\ e = system_error err "CreateEvent")).
Proof.
  unfold RawDevice_copy. intros H.
  destruct (reopen_devices os (devices other) [] w) as [[res calls1] w1] eqn:E.
  apply reopen_devices_log in E as (done & new & errs & Hn & He & Hvalid & _ & Hres).
  destruct res as [e1|devs].
  - inversion H; subst.
    destruct Hres as (d & rest & err & Hothers & Hcalls).
    exists done, new, errs, err. do 3 (split; [assumption|]).
    destruct Hcalls as [(-> & ->) | (h & err1 & Hh & -> & ->)].
    + left. exists d, rest. auto.
    + right; left. exists d, rest, h, err1. auto.
  - destruct (Win32.CreateEvent os false false w1) as [ev w2].
    destruct (ev =? INVALID_HANDLE_VALUE) eqn:Ee; [|discriminate].
    apply Z.eqb_eq in Ee. subst ev. inversion H; subst.
    destruct Hres as (<- & _ & ->).
    exists (devices other), new, errs, (Win32.GetLastError os w').
    do 3 (split; [assumption|]). right; right. auto.
Qed.
End Copying.

(** ** Moving and releasing *)

(** X21. Moving a device hands over everything: the new device is the
    original, member for member, and the device moved from has no interface,
    no route and no interrupt event, so that on it [readReport] stops at its
    assertion and [writeReport] throws, both without a call, and its release
    closes [INVALID_HANDLE_VALUE] only. *)
Theorem moved_from_device {World : Type} (os : Win32.api World) (other : RawDevice)
    (moved_name : string) (moved_desc : ReportDescriptor) :
  fst (RawDevice_move other moved_name moved_desc) = other
  /\ forall old, old = snd (RawDevice_move other moved_name moved_desc) ->
       (forall report timeout w,
          readReport os old report timeout w
          = (inl (assert_failed "_p->interrupted_event != INVALID_HANDLE_VALUE"),
             report, [], w))
       /\ (forall report w, exists e, writeReport os old report w = (inl e, [], w))
       /\ RawDevice_destroy old = [INVALID_HANDLE_VALUE].
Proof.
  split; [destruct other; reflexivity|].
  intros old ->. split; [reflexivity|]. split; [|reflexivity].
  intros [|id rest] w; eexists; reflexivity.
Qed.

Lemma assign_all_closes this handle handles :
  Forall (fun h => h <> INVALID_HANDLE_VALUE) (handle :: handles) ->
  snd (RAII_HANDLE.assign_all this (handle :: handles))
  ++ RAII_HANDLE.destroy (fst (RAII_HANDLE.assign_all this (handle :: handles)))
  = (if negb (this =? INVALID_HANDLE_VALUE) then [this] else []) ++ handle :: handles.
Proof.
  revert this handle. induction handles as [|h2 handles IH]; intros this handle Hall.
  - cbn. rewrite app_nil_r. reflexivity.
  - inversion Hall as [|? ? Hh Hrest]; subst.
    specialize (IH handle h2 Hrest).
    apply Z.eqb_neq in Hh.
    change (RAII_HANDLE.assign_all this (handle :: h2 :: handles))
      with (let '(this1, closed1) := RAII_HANDLE.assign this handle in
            let '(this2, closed2) := RAII_HANDLE.assign_all this1 (h2 :: handles) in
            (this2, closed1 ++ closed2)).
    unfold RAII_HANDLE.assign at 1 2.
    destruct (RAII_HANDLE.assign_all handle (h2 :: handles)) as [this2 closed2].
    cbn [fst snd] in *. rewrite Hh in IH. cbn [negb] in IH.
    rewrite <- app_assoc, IH. reflexivity.
Qed.

(** X22. A [RAII_HANDLE] that is default-constructed, assigned any number of
    handles in turn (none of them [INVALID_HANDLE_VALUE]) and then destroyed
    closes each of these handles exactly once, in the order of assignment:
    none is leaked and, if they are distinct, none is closed twice.  Destroyed
    without any assignment, it closes [INVALID_HANDLE_VALUE]. *)
Theorem RAII_HANDLE_closes_each_once (handles : list HANDLE) :
  Forall (fun h => h <> INVALID_HANDLE_VALUE) handles ->
  snd (RAII_HANDLE.assign_all RAII_HANDLE.default handles)
  ++ RAII_HANDLE.destroy (fst (RAII_HANDLE.assign_all RAII_HANDLE.default handles))
  = match handles with [] => [INVALID_HANDLE_VALUE] | _ => handles end.
Proof.
  intros Hall. destruct handles as [|handle handles]; [reflexivity|].
  rewrite assign_all_closes by exact Hall. reflexivity.
Qed.

Lemma map_through {A B C D} (f : A -> C) (g : B -> C) (h : C -> D) (l1 : list A) (l2 : list B) :
  map f l1 = map g l2 -> map (fun a => h (f a)) l1 = map (fun b => h (g b)) l2.
Proof.
  intros H. rewrite <- (map_map f h l1), <- (map_map g h l2), H. reflexivity.
Qed.

Lemma destroy_perm (devs : list Device) :
  flat_map (fun d => RAII_HANDLE.destroy (event d) ++ RAII_HANDLE.destroy (file d)) devs
  ≡ₚ map file devs ++ map event devs.
Proof.
  induction devs as [|d devs IH]; [reflexivity|].
  cbn. rewrite IH. etransitivity; [apply perm_swap|].
  constructor. apply Permutation_middle.
Qed.

(** X23. Releasing a constructed device closes what construction opened and
    kept, each handle once: the interrupt event, and the file handle and the
    event of every interface that was selected and opened; none of them is
    [INVALID_HANDLE_VALUE]. *)
Theorem release_closes_what_was_opened (parent_inst : Z) (probes : list Probe)
    (interrupt : HANDLE) (interrupt_error : DWORD) (dev : RawDevice) :
  RawDevice_open parent_inst probes interrupt interrupt_error = inr dev ->
  RawDevice_destroy dev
  ≡ₚ interrupt :: map CreateFile (filter (opened parent_inst) probes)
               ++ map CreateEvent (filter (opened parent_inst) probes)
  /\ Forall (fun h => h <> INVALID_HANDLE_VALUE) (RawDevice_destroy dev).
Proof.
  intros H. destruct (open_records _ _ _ _ _ H) as (Hmap & Hvalid & Hi & Hne).
  assert (Hfiles : map file (devices dev)
                   = map CreateFile (filter (opened parent_inst) probes)).
  { exact (map_through _ _ (fun t => fst (fst t)) _ _ Hmap). }
  assert (Hevents : map event (devices dev)
                    = map CreateEvent (filter (opened parent_inst) probes)).
  { exact (map_through _ _ (fun t => snd (fst t)) _ _ Hmap). }
  assert (Hperm : RawDevice_destroy dev
                  ≡ₚ interrupt :: map file (devices dev) ++ map event (devices dev)).
  { unfold RawDevice_destroy. cbn [RAII_HANDLE.destroy app]. rewrite Hi.
    constructor. apply destroy_perm. }
  split; [rewrite Hperm, Hfiles, Hevents; reflexivity|].
  rewrite Hperm. constructor; [rewrite <- Hi; exact Hne|].
  apply Forall_app. split; apply Forall_forall; intros h Hh;
    apply list_elem_of_In, in_map_iff in Hh as (d & <- & Hd);
    apply list_elem_of_In in Hd; rewrite Forall_forall in Hvalid;
    apply Hvalid in Hd; tauto.
Qed.

(** ** The buckets of a collection *)

Lemma filter_none {A} (P : A -> Prop) `{forall a, Decision (P a)} (l : list A) :
  (forall a, ~ P a) -> filter P l = [].
Proof.
  intros HP. induction l as [|a l IH]; [reflexivity|].
  rewrite filter_cons, decide_False by apply HP. exact IH.
Qed.

Lemma bucket_of_type rt (l : list AnyCap) m k :
  bucket k (fold_left (fun m c => add_field rt c m) l m)
  = bucket k m
    ++ (if decide (ReportID.type k = rt)
        then map field_of (filter (fun c => ReportID_ c = ReportID.id k) l)
        else []).
Proof.
  rewrite bucket_fold. f_equal. destruct (decide (ReportID.type k = rt)) as [<-|Hne].
  - f_equal. apply list_filter_iff. intros c. unfold field_key.
    destruct k as [t i]; cbn. split; [intros Heq; inversion Heq; reflexivity | intros ->; reflexivity].
  - rewrite filter_none; [reflexivity|]. intros c Heq. apply Hne. rewrite <- Heq. reflexivity.
Qed.

(** X24. In the collection built for an interface, the bucket of a report
    id holds the fields of the capabilities of that report type and that
    report number, and of no other: in the order in which the button and
    value tables of that type are visited, whatever the tables of the two
    other types hold. *)
Theorem bucket_per_report_type (p : Probe) (c : HIDP_CAPS) (m : ReportMap) (k : ReportID.t) :
  add_report_types p (report_types c) [] = inr m ->
  bucket k m
  = map field_of (filter (fun cap => ReportID_ cap = ReportID.id k)
                         (visited p c (ReportID.type k))).
Proof.
  unfold report_types. intros H.
  rewrite add_report_types_cons in H.
  destruct (add_report_type p [] _) as [e|m1] eqn:E1; [discriminate|].
  apply add_report_type_inr in E1 as [E1 _].
  cbn [mbind exn_bind] in H. rewrite add_report_types_cons in H.
  destruct (add_report_type p m1 _) as [e|m2] eqn:E2; [discriminate|].
  apply add_report_type_inr in E2 as [E2 _].
  cbn [mbind exn_bind] in H. rewrite add_report_types_cons in H.
  destruct (add_report_type p m2 _) as [e|m3] eqn:E3; [discriminate|].
  apply add_report_type_inr in E3 as [E3 _].
  cbn [mbind exn_bind] in H. rewrite add_report_types_nil in H.
  inversion H; subst m. clear H.
  rewrite E3, add_fields_by_index_visit, bucket_of_type.
  rewrite E2, add_fields_by_index_visit, bucket_of_type.
  rewrite E1, add_fields_by_index_visit, bucket_of_type.
  unfold visited, table_counts.
  destruct k as [[] i]; cbn [ReportID.type ReportID.id];
    repeat (rewrite decide_True by reflexivity || rewrite decide_False by discriminate);
    cbn [bucket find default app fst snd]; rewrite ?app_nil_r; reflexivity.
Qed.

(** ** The further properties at concrete devices *)

Lemma run4 {A B C D} (r : A * B * C * D) : r = (fst (fst (fst r)), snd (fst (fst r)), snd (fst r), snd r).
Proof. destruct r as [[[a b] c] d]. reflexivity. Defined.

Lemma run3 {A B C} (r : A * B * C) : r = (fst (fst r), snd (fst r), snd r).
Proof. destruct r as [[a b] c]. reflexivity. Defined.

Lemma opened_AB : RawDevice_open 1 [Example.probe_A; Example.probe_B] 300 0 = inr Example.device_AB.
Proof. vm_compute. reflexivity. Defined.

Lemma constructed_interfaces_witness :
  RawDevice_open 1 [Example.probe_A; Example.probe_B] 300 0 = inr Example.device_AB
  /\ map (fun d => (file d, event d, Some (caps d))) (devices Example.device_AB)
     = map (fun p => (CreateFile p, CreateEvent p, HidP_GetCaps p))
           (filter (opened 1) [Example.probe_A; Example.probe_B]).
Proof.
  split; [exact opened_AB|].
  exact (proj1 (constructed_interfaces _ _ _ _ _ opened_AB)).
Defined.

Lemma collections_describe_interfaces_witness :
  RawDevice_open 1 [Example.probe_A; Example.probe_B] 300 0 = inr Example.device_AB
  /\ Forall2 describes (collections (report_desc Example.device_AB))
             (devices Example.device_AB).
Proof.
  split; [exact opened_AB|].
  exact (proj1 (collections_describe_interfaces _ _ _ _ _ opened_AB)).
Defined.

Lemma identity_of_first_interface_witness :
  RawDevice_open 1 [Example.probe_locked; Example.probe_A; Example.probe_B] 300 0
  = inr Example.device_AB
  /\ filter (opened 1) [Example.probe_locked; Example.probe_A; Example.probe_B]
     = Example.probe_A :: [Example.probe_B]
  /\ name Example.device_AB = "Logitech USB Receiver"%string
  /\ exists buffer1 buffer2 manufacturer product_string,
       HidD_GetAttributes Example.probe_A
       = Some (vendor_id Example.device_AB, product_id Example.device_AB)
       /\ HidD_GetManufacturerString Example.probe_A = Some buffer1
       /\ HidD_GetProductString Example.probe_A = Some buffer2
       /\ u16conv_to_bytes buffer1 = inr manufacturer
       /\ u16conv_to_bytes buffer2 = inr product_string
       /\ name Example.device_AB = (manufacturer ++ " " ++ product_string)%string.
Proof.
  assert (H : RawDevice_open 1 [Example.probe_locked; Example.probe_A; Example.probe_B] 300 0
              = inr Example.device_AB) by (vm_compute; reflexivity).
  assert (Hf : filter (opened 1) [Example.probe_locked; Example.probe_A; Example.probe_B]
               = Example.probe_A :: [Example.probe_B]) by reflexivity.
  split; [exact H|]. split; [exact Hf|]. split; [vm_compute; reflexivity|].
  exact (identity_of_first_interface _ _ _ _ _ _ _ H Hf).
Defined.

Lemma router_leads_to_declaring_interface_witness :
  reports Example.device_AB !! 2 = Some 200
  /\ exists i d c key,
       devices Example.device_AB !! i = Some d
       /\ collections (report_desc Example.device_AB) !! i = Some c
       /\ key ∈ map fst (ReportCollection.reports c)
       /\ to_uint8 (ReportID.id key) = 2
       /\ file d = 200.
Proof.
  assert (H : reports Example.device_AB !! 2 = Some 200) by (vm_compute; reflexivity).
  split; [exact H|].
  exact (router_leads_to_declaring_interface _ _ _ _ _ _ _ opened_AB H).
Defined.

Lemma construction_failure_witness :
  RawDevice_open 1 [Example.probe_A; Example.probe_clash; Example.probe_B] 300 0
  = inl same_report_id
  /\ construction_error same_report_id
  /\ RawDevice_open 1 [Example.probe_locked; Scenario.probe_surrogate; Example.probe_B] 300 0
     = inl range_error
  /\ construction_error range_error.
Proof.
  assert (H : RawDevice_open 1 [Example.probe_A; Example.probe_clash; Example.probe_B] 300 0
              = inl same_report_id) by (vm_compute; reflexivity).
  assert (H2 : RawDevice_open 1 [Example.probe_locked; Scenario.probe_surrogate;
                                 Example.probe_B] 300 0
               = inl range_error) by (vm_compute; reflexivity).
  split; [exact H|].
  split; [exact (proj1 (construction_failure _ _ _ _ _ H))|].
  split; [exact H2|].
  exact (proj1 (construction_failure _ _ _ _ _ H2)).
Defined.

Lemma interface_without_capabilities_witness :
  opened 1 Scenario.probe_bare
  /\ fst (HidP_GetButtonCaps Scenario.probe_bare ReportID.Input) = false
  /\ exists b',
       open_interface 1 Scenario.probe_bare Scenario.start = inr b'
       /\ map file (devices (built b')) = [500]
       /\ reports (built b') = ∅.
Proof.
  assert (Ho : opened 1 Scenario.probe_bare).
  { split; [reflexivity|]. vm_compute. discriminate. }
  split; [exact Ho|]. split; [reflexivity|].
  destruct (interface_without_capabilities 1 Scenario.probe_bare Scenario.start
              {| first := false;
                 built := {| devices := []; reports := ∅;
                             interrupted_event := INVALID_HANDLE_VALUE;
                             vendor_id := 0x046d; product_id := 0xc52b;
                             name := "Logitech USB Receiver";
                             report_desc := {| collections := [] |} |} |}
              (Example.caps_of 1 6 9 0 0) Ho)
    as (b' & Hb & Hd & _ & Hr).
  - vm_compute. discriminate.
  - reflexivity.
  - reflexivity.
  - reflexivity.
  - reflexivity.
  - exists b'. split; [exact Hb|]. split.
    + rewrite Hd. reflexivity.
    + rewrite Hr. reflexivity.
Defined.

Lemma bucket_per_report_type_witness :
  add_report_types Example.probe_A (report_types (Example.caps_of 0xff00 1 7 1 1)) []
  = inr [(ReportID.mk ReportID.Input 1,
          [field_of (Example.button 1 0 1); field_of (Example.value 1 1 0x30)])]
  /\ bucket (ReportID.mk ReportID.Output 1)
       [(ReportID.mk ReportID.Input 1,
         [field_of (Example.button 1 0 1); field_of (Example.value 1 1 0x30)])]
     = map field_of
         (filter (fun cap => ReportID_ cap = 1)
                 (visited Example.probe_A (Example.caps_of 0xff00 1 7 1 1) ReportID.Output)).
Proof.
  assert (H : add_report_types Example.probe_A
                (report_types (Example.caps_of 0xff00 1 7 1 1)) []
              = inr [(ReportID.mk ReportID.Input 1,
                      [field_of (Example.button 1 0 1); field_of (Example.value 1 1 0x30)])])
    by (vm_compute; reflexivity).
  split; [exact H|].
  exact (bucket_per_report_type _ _ _ (ReportID.mk ReportID.Output 1) H).
Defined.

Lemma RAII_HANDLE_closes_each_once_witness :
  snd (RAII_HANDLE.assign_all RAII_HANDLE.default [10; 20; 30])
  ++ RAII_HANDLE.destroy (fst (RAII_HANDLE.assign_all RAII_HANDLE.default [10; 20; 30]))
  = [10; 20; 30].
Proof.
  apply (RAII_HANDLE_closes_each_once [10; 20; 30]).
  repeat constructor; vm_compute; discriminate.
Defined.

Lemma release_closes_what_was_opened_witness :
  RawDevice_open 1 [Example.probe_A; Example.probe_B] 300 0 = inr Example.device_AB
  /\ RawDevice_destroy Example.device_AB ≡ₚ [300; 100; 200; 101; 201].
Proof.
  split; [exact opened_AB|].
  exact (proj1 (release_closes_what_was_opened _ _ _ _ _ opened_AB)).
Defined.

Lemma writeReport_outcomes_witness :
  let run := writeReport (scripted Scenario.broken_B) Example.device_AB [1; 2; 3] 0 in
  reports Example.device_AB !! 1 = Some 100
  /\ fst (fst run) = inr 7
  /\ Forall (fun c => ~ is_WriteFile c) (tail (snd (fst run))).
Proof.
  cbv zeta.
  assert (H1 : reports Example.device_AB !! 1 = Some 100) by (vm_compute; reflexivity).
  split; [exact H1|]. split; [vm_compute; reflexivity|].
  destruct (writeReport_outcomes _ _ _ _ _ _ _ _ _ H1
              (run3 (writeReport (scripted Scenario.broken_B) Example.device_AB [1; 2; 3] 0)))
    as [(ok & written & err & _ & HF & _) _].
  exact HF.
Defined.

Lemma write_reaches_declaring_interface_witness :
  let run := writeReport (scripted (Example.quiet WAIT_TIMEOUT)) Example.device_AB [2; 0; 0] 0 in
  WriteFile_call 200 [2; 0; 0] 3 0 true 7 0 ∈ snd (fst run)
  /\ exists i d c key,
       devices Example.device_AB !! i = Some d
       /\ collections (report_desc Example.device_AB) !! i = Some c
       /\ key ∈ map fst (ReportCollection.reports c)
       /\ head [2; 0; 0] = Some (to_uint8 (ReportID.id key))
       /\ file d = 200.
Proof.
  cbv zeta.
  assert (Hin : WriteFile_call 200 [2; 0; 0] 3 0 true 7 0
                ∈ snd (fst (writeReport (scripted (Example.quiet WAIT_TIMEOUT))
                                        Example.device_AB [2; 0; 0] 0)))
    by (vm_compute; repeat constructor).
  split; [exact Hin|].
  exact (proj2 (write_reaches_declaring_interface _ _ _ _ _ _ _ _ _ _ _ opened_AB
                  (run3 _) _ _ _ _ _ _ _ Hin)).
Defined.

Lemma readReport_read_failure_witness :
  let run := readReport (scripted Scenario.broken_B) Example.device_AB Example.buffer16 5 0 in
  ReadFile_call 200 16 201 false 0 5 ∈ snd (fst run)
  /\ fst (fst (fst run)) = inl (system_error 5 "ReadFile").
Proof.
  cbv zeta.
  assert (Hin : ReadFile_call 200 16 201 false 0 5
                ∈ snd (fst (readReport (scripted Scenario.broken_B) Example.device_AB
                                       Example.buffer16 5 0)))
    by (vm_compute; repeat constructor).
  split; [exact Hin|].
  refine (proj1 (readReport_read_failure _ _ _ _ _ _ _ _ _ _ _ _ _ _ (run4 _) Hin _)).
  vm_compute. discriminate.
Defined.

Lemma readReport_query_witness :
  let run := readReport (scripted (Example.quiet 2)) Example.device_AB Example.buffer16 5 0 in
  GetOverlappedResult_call 200 201 false true 16 ERROR_IO_PENDING ∈ snd (fst run)
  /\ fst (fst (fst run)) = inr (to_int 16)
  /\ length (snd (fst (fst run))) = Z.to_nat 16.
Proof.
  cbv zeta.
  assert (Hin : GetOverlappedResult_call 200 201 false true 16 ERROR_IO_PENDING
                ∈ snd (fst (readReport (scripted (Example.quiet 2)) Example.device_AB
                                       Example.buffer16 5 0)))
    by (vm_compute; repeat constructor).
  split; [exact Hin|].
  exact (proj2 (proj2 (readReport_query _ _ _ _ _ _ _ _ _ _ _ _ _ _ _ (run4 _) Hin))).
Defined.

Lemma readReport_value_and_buffer_witness :
  readReport (scripted (Example.quiet 2)) Example.device_AB Example.buffer16 (-1) 0
  = (inr 16, repeat 0xAB 16, Example.completed_calls, ERROR_IO_PENDING)
  /\ ((16 = 0 /\ repeat 0xAB 16 = Example.buffer16
       /\ exists handles tmo ret err,
            WaitForMultipleObjects_call handles false tmo ret err ∈ Example.completed_calls
            /\ (ret = WAIT_OBJECT_0 \/ ret = WAIT_TIMEOUT))
      \/ (exists count,
            16 = to_int count /\ length (repeat 0xAB 16) = Z.to_nat count
            /\ ((exists f sz e err,
                   ReadFile_call f sz e true count err ∈ Example.completed_calls)
                \/ (exists f e err,
                      GetOverlappedResult_call f e false true count err
                      ∈ Example.completed_calls)))).
Proof.
  assert (H : readReport (scripted (Example.quiet 2)) Example.device_AB Example.buffer16 (-1) 0
              = (inr 16, repeat 0xAB 16, Example.completed_calls, ERROR_IO_PENDING))
    by (vm_compute; reflexivity).
  split; [exact H|].
  exact (readReport_value_and_buffer _ _ _ _ _ _ _ _ _ H).
Defined.

Lemma readReport_without_fitting_interface_witness :
  let run := readReport (scripted (Example.quiet WAIT_TIMEOUT)) Example.device_AB [0; 0; 0] 5 0 in
  filter (fits [0; 0; 0]) (devices Example.device_AB) = []
  /\ snd (fst (fst run)) = [0; 0; 0]
  /\ fst (fst (fst run)) = inr 0.
Proof.
  cbv zeta.
  assert (Hnone : filter (fits [0; 0; 0]) (devices Example.device_AB) = []) by reflexivity.
  split; [exact Hnone|].
  assert (Hassert : interrupted_event Example.device_AB <> INVALID_HANDLE_VALUE)
    by (vm_compute; discriminate).
  pose proof (readReport_without_fitting_interface
                (scripted (Example.quiet WAIT_TIMEOUT)) Example.device_AB [0; 0; 0] 5 0
                _ _ _ _ Hassert Hnone (run4 _)) as H.
  split; [exact (proj1 H) | vm_compute; reflexivity].
Defined.

Lemma readReport_call_budget_witness :
  exists reads waits queries cancels,
    Example.completed_calls = reads ++ waits ++ queries ++ cancels
    /\ Forall (is_ReadFile (to_uint32 (Z.of_nat (length Example.buffer16)))) reads
    /\ Forall is_Wait waits
    /\ Forall is_GetOverlappedResult queries
    /\ Forall is_CancelIoEx cancels
    /\ (length reads <= length (filter (fits Example.buffer16) (devices Example.device_AB)))%nat
    /\ (length queries <= length waits <= 1)%nat
    /\ (length queries + length cancels <= length reads)%nat.
Proof.
  assert (H : readReport (scripted (Example.quiet 2)) Example.device_AB Example.buffer16 (-1) 0
              = (inr 16, repeat 0xAB 16, Example.completed_calls, ERROR_IO_PENDING))
    by (vm_compute; reflexivity).
  exact (readReport_call_budget _ _ _ _ _ _ _ _ _ H).
Defined.

Lemma readReport_errors_witness :
  readReport (scripted (Example.quiet WAIT_FAILED)) Example.device_AB Example.buffer16 5 0
  = (inl (system_error 6 "WaitForMultipleObject"), Example.buffer16, Example.failed_calls, 6)
  /\ read_error (system_error 6 "WaitForMultipleObject").
Proof.
  assert (H : readReport (scripted (Example.quiet WAIT_FAILED)) Example.device_AB
                Example.buffer16 5 0
              = (inl (system_error 6 "WaitForMultipleObject"), Example.buffer16,
                 Example.failed_calls, 6)) by (vm_compute; reflexivity).
  split; [exact H|].
  refine (proj1 (readReport_errors _ _ _ _ _ _ _ _ _ _ H)).
  vm_compute. discriminate.
Defined.

Lemma readReport_ignores_cancel_outcome_witness :
  let os := scripted (Example.quiet WAIT_TIMEOUT) in
  let run := readReport os Example.device_AB Example.buffer16 5 0 in
  let run2 := readReport (with_CancelIoEx os Scenario.failing_cancel) Example.device_AB
                Example.buffer16 5 0 in
  CancelIoEx_call 100 101 true ERROR_IO_PENDING ∈ snd (fst run)
  /\ CancelIoEx_call 100 101 false 1168 ∈ snd (fst run2)
  /\ fst (fst (fst run2)) = fst (fst (fst run)).
Proof.
  cbv zeta.
  split; [vm_compute; repeat constructor|]. split; [vm_compute; repeat constructor|].
  exact (proj1 (readReport_ignores_cancel_outcome _ Scenario.failing_cancel _ _ _ _
                  _ _ _ _ _ _ _ _ (run4 _) (run4 _))).
Defined.

Lemma copy_reopens_each_interface_witness :
  RawDevice_copy (scripted (Example.quiet WAIT_TIMEOUT)) Example.device_AB 0
  = (inr Scenario.clone_AB, Scenario.copy_calls, 0)
  /\ exists errs err,
       length errs = length (devices Example.device_AB)
       /\ Scenario.copy_calls
          = reopen_log (devices Example.device_AB) (devices Scenario.clone_AB) errs
            ++ [CreateEvent_call false false (interrupted_event Scenario.clone_AB) err].
Proof.
  assert (H : RawDevice_copy (scripted (Example.quiet WAIT_TIMEOUT)) Example.device_AB 0
              = (inr Scenario.clone_AB, Scenario.copy_calls, 0))
    by (vm_compute; reflexivity).
  split; [exact H|].
  exact (proj1 (proj2 (copy_reopens_each_interface _ _ _ _ _ _ H))).
Defined.

Lemma copy_failure_witness :
  RawDevice_copy (scripted Scenario.broken_B) Example.device_AB 0
  = (inl (system_error 2 "ReOpenFile"), Scenario.failed_copy_calls, 2)
  /\ exists done new errs err,
       length new = length done /\ length errs = length done
       /\ Forall valid_record new
       /\ ((exists d rest,
              devices Example.device_AB = done ++ d :: rest
              /\ Scenario.failed_copy_calls
                 = reopen_log done new errs
                   ++ [ReOpenFile_call (file d) INVALID_HANDLE_VALUE err]
              /\ system_error 2 "ReOpenFile" = system_error err "ReOpenFile")
           \/ (exists d rest hdev err1,
                 devices Example.device_AB = done ++ d :: rest
                 /\ hdev <> INVALID_HANDLE_VALUE
                 /\ Scenario.failed_copy_calls
                    = reopen_log done new errs
                      ++ [ReOpenFile_call (file d) hdev err1;
                          CreateEvent_call true true INVALID_HANDLE_VALUE err]
                 /\ system_error 2 "ReOpenFile" = system_error err "CreateEvent")
           \/ (devices Example.device_AB = done
               /\ Scenario.failed_copy_calls
                  = reopen_log done new errs
                    ++ [CreateEvent_call false false INVALID_HANDLE_VALUE err]
               /\ system_error 2 "ReOpenFile" = system_error err "CreateEvent")).
Proof.
  assert (H : RawDevice_copy (scripted Scenario.broken_B) Example.device_AB 0
              = (inl (system_error 2 "ReOpenFile"), Scenario.failed_copy_calls, 2))
    by (vm_compute; reflexivity).
  split; [exact H|].
  exact (copy_failure _ _ _ _ _ _ H).
Defined.
